(** * Runner status reconciliation and outage lifecycle (src/probe.ts)

    A shallow embedding of the monitoring pass of [src/probe.ts]: the status
    classifier, the outage open/resolve algorithms, the notification
    dispatch, the per-runner diff against the stored runners and the sweep of
    the runners that were not reported.

    The program is asynchronous but strictly sequential (every call is
    awaited), so it is embedded as a state-and-exception monad over a
    [World]: the persisted records, the counters that index the external
    oracles (wall clock, notification sink, fleet-status fetch) and the
    chronological trace of the observable effects. *)

From Stdlib Require Import List String Ascii ZArith Bool Lia.
Import ListNotations.
Local Open Scope string_scope.
Local Open Scope list_scope.
Local Open Scope Z_scope.

(** ** Data model (src/schema/stately_pb.d.ts, schema.ts) *)

(** [enum RunnerStatus] of the generated schema, with its zero value. *)
Inductive RunnerStatus : Type :=
| RunnerStatus_UNSPECIFIED
| RunnerStatus_ONLINE
| RunnerStatus_OFFLINE
| RunnerStatus_BUSY
| RunnerStatus_UNKNOWN
| RunnerStatus_IDLE.

(** The numeric value of each enumerator. *)
Definition statusCode (s : RunnerStatus) : Z :=
  match s with
  | RunnerStatus_UNSPECIFIED => 0
  | RunnerStatus_ONLINE => 1
  | RunnerStatus_OFFLINE => 2
  | RunnerStatus_BUSY => 3
  | RunnerStatus_UNKNOWN => 4
  | RunnerStatus_IDLE => 5
  end.

(** [===] on two enumerators. *)
Definition status_eqb (a b : RunnerStatus) : bool := statusCode a =? statusCode b.

Record Label : Type := mkLabel { labelName : string }.

(** [interface GitHubRunner]: one descriptor of the fleet-status source. *)
Module GitHubRunner.
Record t : Type := mk {
  id : Z;
  name : string;
  status : string;
  busy : bool;
  os : string;
  labels : list Label;
  enabled : bool
}.
End GitHubRunner.

(** The [createdAt]/[updatedAt] fields of the three item types are filled by
    the persistence engine from its own metadata ([fromMetadata]) and are never
    read or written by probe.ts; they are not part of the records below. *)
Module Repository.
Record t : Type := mk {
  repoId : string;
  owner : string;
  name : string;
  isActive : bool;
  lastSyncedAt : Z
}.
(** [repository.lastSyncedAt = v]. *)
Definition withLastSyncedAt (v : Z) (r : t) : t :=
  mk (repoId r) (owner r) (name r) (isActive r) v.
End Repository.

Module Runner.
Record t : Type := mk {
  runnerId : Z;
  repoId : string;
  name : string;
  status : RunnerStatus;
  enabled : bool;
  os : string;
  labels : list Label;
  lastSeenAt : Z;
  firstSeenAt : Z
}.
(** [runner.status = v]. *)
Definition withStatus (v : RunnerStatus) (r : t) : t :=
  mk (runnerId r) (repoId r) (name r) v (enabled r) (os r) (labels r)
     (lastSeenAt r) (firstSeenAt r).
End Runner.

(** [resolvedAt] is a [bigint] whose unset value is [0n]; the code tests it
    by truthiness ([!item.resolvedAt]). [outageId] is unset ([0n]) until the
    store assigns the sequence value on the first put. *)
Module OutageEvent.
Record t : Type := mk {
  outageId : Z;
  repoId : string;
  runnerId : Z;
  runnerName : string;
  status : RunnerStatus;
  startedAt : Z;
  resolvedAt : Z;
  description : string;
  notificationSent : bool
}.
Definition withOutageId (v : Z) (o : t) : t :=
  mk v (repoId o) (runnerId o) (runnerName o) (status o) (startedAt o)
     (resolvedAt o) (description o) (notificationSent o).
(** [item.resolvedAt = v]. *)
Definition withResolvedAt (v : Z) (o : t) : t :=
  mk (outageId o) (repoId o) (runnerId o) (runnerName o) (status o)
     (startedAt o) v (description o) (notificationSent o).
(** [outage.notificationSent = v]. *)
Definition withNotificationSent (v : bool) (o : t) : t :=
  mk (outageId o) (repoId o) (runnerId o) (runnerName o) (status o)
     (startedAt o) (resolvedAt o) (description o) v.
End OutageEvent.

(** ** Status classifier *)

(** [const UNHEALTHY_STATUSES = [OFFLINE, UNKNOWN]]. *)
Definition UNHEALTHY_STATUSES : list RunnerStatus :=
  [RunnerStatus_OFFLINE; RunnerStatus_UNKNOWN].

(** [Array.prototype.includes] on a list of enumerators. *)
Definition includes (l : list RunnerStatus) (s : RunnerStatus) : bool :=
  existsb (status_eqb s) l.

(** [function mapGitHubStatus(githubRunner)]. *)
Definition mapGitHubStatus (githubRunner : GitHubRunner.t) : RunnerStatus :=
  if negb (String.eqb (GitHubRunner.status githubRunner) "online") then
    RunnerStatus_OFFLINE
  else if GitHubRunner.busy githubRunner then RunnerStatus_BUSY
  else RunnerStatus_IDLE.

(** [function statusToString(status)]; the [default] branch is unreachable on
    the five named enumerators and renders the zero value. *)
Definition statusToString (s : RunnerStatus) : string :=
  match s with
  | RunnerStatus_ONLINE => "Online"
  | RunnerStatus_OFFLINE => "Offline"
  | RunnerStatus_BUSY => "Busy"
  | RunnerStatus_UNKNOWN => "Unknown"
  | RunnerStatus_IDLE => "Idle"
  | RunnerStatus_UNSPECIFIED => "Unknown status (0)"
  end.

(** ** Keys and key paths *)

(** [String.prototype.split] for a one-character separator. *)
Fixpoint split (sep : ascii) (s : string) : list string :=
  match s with
  | EmptyString => [EmptyString]
  | String c s' =>
      if Ascii.eqb c sep then EmptyString :: split sep s'
      else match split sep s' with
           | [] => [String c EmptyString]
           | x :: xs => String c x :: xs
           end
  end.

(** [const [owner, name] = repo.split("/")]: the first two components,
    [None] standing for [undefined]. *)
Definition ownerOf (repo : string) : option string := nth_error (split "/" repo) 0.
Definition nameOf (repo : string) : option string := nth_error (split "/" repo) 1.

(** [const repoId = name]. *)
Definition repoIdOf (repo : string) : option string := nameOf repo.

(** Decimal rendering of an identifier inside a template literal. *)
Fixpoint digits (fuel : nat) (n : N) (acc : string) : string :=
  match fuel with
  | O => acc
  | S fuel' =>
      let d := String (ascii_of_N (48 + N.modulo n 10)) acc in
      if N.ltb n 10 then d else digits fuel' (N.div n 10) d
  end.

Definition showZ (z : Z) : string :=
  match z with
  | Z0 => "0"
  | Zpos p => digits (S (N.to_nat (N.log2 (Npos p)))) (Npos p) EmptyString
  | Zneg p => "-" ++ digits (S (N.to_nat (N.log2 (Npos p)))) (Npos p) EmptyString
  end.

(** The key paths the code builds: [`/repo-${repoId}`],
    [`/repo-${repoId}/runner-`] and
    [`/repo-${repoId}/history-${runnerId}/outage-`]; the item key paths are
    those of the schema. *)
Definition repositoryKeyPath (repoId : string) : string := "/repo-" ++ repoId.
Definition runnerKeyPrefix (repoId : string) : string :=
  repositoryKeyPath repoId ++ "/runner-".
Definition runnerKeyPath (repoId name : string) : string :=
  runnerKeyPrefix repoId ++ name.
Definition outageKeyPrefix (repoId : string) (runnerId : Z) : string :=
  repositoryKeyPath repoId ++ "/history-" ++ showZ runnerId ++ "/outage-".
Definition outageKeyPath (repoId : string) (runnerId outageId : Z) : string :=
  outageKeyPrefix repoId runnerId ++ showZ outageId.


(** ** The persisted store

    The persistence client ([get], [put], [create], [beginList]) is a
    library that the sources only call. Its contract is a key-value store
    with hierarchical keys, range scans in key order, and an [outageId]
    assigned on the first put as an increasing sequence scoped to the outage
    key prefix. A table is the list of its items in key order; the key of an
    item is computed from its fields as the schema's key path says. *)
Section KeyedTable.
Context {A K : Type}.
Variable key : A -> K.
Variable cmp : K -> K -> comparison.

Definition sameKey (k1 k2 : K) : bool :=
  match cmp k1 k2 with Eq => true | _ => false end.

Fixpoint insertSorted (a : A) (l : list A) : list A :=
  match l with
  | [] => [a]
  | x :: l' =>
      match cmp (key a) (key x) with
      | Gt => x :: insertSorted a l'
      | _ => a :: l
      end
  end.

(** Modelled from the spec: [put] of the persistence client, which is not
    part of the sources. The item replaces whatever is stored under its key
    and takes its place in key order. *)
Definition tablePut (a : A) (l : list A) : list A :=
  insertSorted a (filter (fun x => negb (sameKey (key x) (key a))) l).

(** Modelled from the spec: [get] of the persistence client, which is not
    part of the sources. The item stored under a key, if any. *)
Definition tableGet (k : K) (l : list A) : option A :=
  find (fun x => sameKey (key x) k) l.
End KeyedTable.

Definition cmpPair {A B : Type} (ca : A -> A -> comparison)
    (cb : B -> B -> comparison) (x y : A * B) : comparison :=
  match ca (fst x) (fst y) with
  | Eq => cb (snd x) (snd y)
  | c => c
  end.

(** Keys: [/repo-:repoId], [/repo-:repoId/runner-:name] and
    [/repo-:repoId/history-:runnerId/outage-:outageId]. *)
Definition repositoryKey (r : Repository.t) : string := Repository.repoId r.
Definition runnerKey (r : Runner.t) : string * string :=
  (Runner.repoId r, Runner.name r).
Definition outageKey (o : OutageEvent.t) : string * (Z * Z) :=
  (OutageEvent.repoId o, (OutageEvent.runnerId o, OutageEvent.outageId o)).

Definition cmpRunnerKey := cmpPair String.compare String.compare.
Definition cmpOutageKey := cmpPair String.compare (cmpPair Z.compare Z.compare).

Definition putRepositoryItem := tablePut repositoryKey String.compare.
Definition putRunnerItem := tablePut runnerKey cmpRunnerKey.
Definition putOutageItem := tablePut outageKey cmpOutageKey.

(** Modelled from the spec: the range scan [beginList] of the persistence
    client over [`/repo-${repoId}/runner-`]: the runners of the repository,
    in key order. *)
Definition runnersOf (repoId : string) (l : list Runner.t) : list Runner.t :=
  filter (fun r => String.eqb (Runner.repoId r) repoId) l.

(** Modelled from the spec: the range scan [beginList] of the persistence
    client over [`/repo-${repoId}/history-${runnerId}/outage-`]. *)
Definition historyOf (repoId : string) (runnerId : Z) (l : list OutageEvent.t)
    : list OutageEvent.t :=
  filter (fun o => String.eqb (OutageEvent.repoId o) repoId
                   && (OutageEvent.runnerId o =? runnerId)) l.

(** Modelled from the spec: what a range scan with [limit: 1] and
    [SORT_DESCENDING] yields, the event with the greatest [outageId] of a
    history. *)
Fixpoint latest (l : list OutageEvent.t) : option OutageEvent.t :=
  match l with
  | [] => None
  | o :: l' =>
      match latest l' with
      | Some m => if OutageEvent.outageId o <? OutageEvent.outageId m
                  then Some m else Some o
      | None => Some o
      end
  end.

(** Modelled from the spec: the value the store assigns to an unset
    [outageId] ([initialValue: "sequence"] of the schema), the next of an
    increasing sequence scoped to the history prefix; identifiers are
    unsigned and the sequence starts at 1. *)
Definition nextOutageId (repoId : string) (runnerId : Z)
    (l : list OutageEvent.t) : Z :=
  match latest (historyOf repoId runnerId l) with
  | Some m => Z.max (OutageEvent.outageId m) 0 + 1
  | None => 1
  end.

(** ** Effects *)

Inductive SlackKind : Type := Alert | Recovery.

(** The payload of the two message shapes: the status text of the header,
    and the repository, runner, status and outage fields. The rendered
    wall-clock line of the context block is left out. *)
Record SlackMessage : Type := mkSlackMessage {
  msgKind : SlackKind;
  msgRepository : string;
  msgRunner : string;
  msgStatusText : string;
  msgOutageId : Z
}.

Inductive Error : Type :=
| FetchError
| PostError
| KeyError
| ConfigError.

(** What the program does to the outside, in the order it does it.
    [console.log] tracing is left out; [console.error] is kept. *)
Inductive Event : Type :=
| EvPutRepository (r : Repository.t)
| EvPutRunner (r : Runner.t)
| EvPutOutage (o : OutageEvent.t)
| EvPost (url : option string) (m : SlackMessage) (ok : bool)
| EvConsoleError (e : Error).

Record World : Type := mkWorld {
  repositories : list Repository.t;
  runners : list Runner.t;
  outages : list OutageEvent.t;
  ticks : nat;
  posts : nat;
  fetches : nat;
  trace : list Event
}.

(** The environment of a pass: the reading of the clock at the n-th call of
    [Date.now()], whether the n-th [axios.post] succeeds, and what the n-th
    fetch of a repository's runners returns ([None] when it fails). *)
Record Env : Type := mkEnv {
  clock : nat -> Z;
  postOk : nat -> bool;
  github : nat -> string -> option (list GitHubRunner.t)
}.

Inductive Outcome (A : Type) : Type :=
| Returned (a : A)
| Thrown (e : Error).
Arguments Returned {A} a.
Arguments Thrown {A} e.

(** A computation: it runs on a world and returns or throws; what it wrote
    before throwing stays written. *)
Definition M (A : Type) : Type := World -> Outcome A * World.

Definition ret {A : Type} (a : A) : M A := fun w => (Returned a, w).

Definition bind {A B : Type} (m : M A) (f : A -> M B) : M B :=
  fun w =>
    match m w with
    | (Returned a, w') => f a w'
    | (Thrown e, w') => (Thrown e, w')
    end.

Definition throw {A : Type} (e : Error) : M A := fun w => (Thrown e, w).

Definition tryCatch {A : Type} (body : M A) (handle : Error -> M A) : M A :=
  fun w =>
    match body w with
    | (Returned a, w') => (Returned a, w')
    | (Thrown e, w') => handle e w'
    end.

Notation "x <- m ;; k" := (bind m (fun x => k))
  (at level 61, m at next level, right associativity).
Notation "m ;;; k" := (bind m (fun _ => k))
  (at level 61, right associativity).

Definition when (b : bool) (m : M unit) : M unit := if b then m else ret tt.

(** [for (const x of xs) { ... }] with the loop-carried state explicit. *)
Fixpoint forEach {A S : Type} (body : A -> S -> M S) (xs : list A) (s : S) : M S :=
  match xs with
  | [] => ret s
  | x :: xs' => s' <- body x s ;; forEach body xs' s'
  end.

Definition emit (e : Event) : M unit :=
  fun w => (Returned tt,
            mkWorld (repositories w) (runners w) (outages w)
                    (ticks w) (posts w) (fetches w) (trace w ++ [e])).

Definition consoleError (e : Error) : M unit := emit (EvConsoleError e).

(** JavaScript truthiness of [params.slackWebhook]: [undefined] and the
    empty string are falsy. *)
Definition truthy (s : option string) : bool :=
  match s with
  | Some s' => negb (String.eqb s' EmptyString)
  | None => false
  end.

(** The reply of the handler to its invoker. *)
Record Response : Type := mkResponse {
  responseStatus : Z;
  responseMessage : string
}.

(** What [fetchSSMParameters] returns, as far as the pass reads it:
    [statelydbStoreId] is the outcome of [BigInt(params.statelydbStoreId)]
    and [repositories] the outcome of [JSON.parse(params.repositories)]
    ([None] when they throw). *)
Record Params : Type := mkParams {
  githubToken : string;
  statelydbStoreId : option Z;
  repositoriesParam : option (list string);
  slackWebhook : option string
}.

Section Engine.
Variable env : Env.

(** [BigInt(Date.now())]. *)
Definition dateNow : M Z :=
  fun w => (Returned (clock env (ticks w)),
            mkWorld (repositories w) (runners w) (outages w)
                    (S (ticks w)) (posts w) (fetches w) (trace w)).

(** [axios.post(url, message)]: rejects when the sink does not accept. *)
Definition axiosPost (url : option string) (m : SlackMessage) : M unit :=
  fun w =>
    let ok := postOk env (posts w) in
    let w' := mkWorld (repositories w) (runners w) (outages w)
                      (ticks w) (S (posts w)) (fetches w)
                      (trace w ++ [EvPost url m ok]) in
    (if ok then Returned tt else Thrown PostError, w').

(** [statelyClient.get("Repository", `/repo-${repoId}`)]. *)
Definition getRepository (repoId : string) : M (option Repository.t) :=
  fun w => (Returned (tableGet repositoryKey String.compare repoId (repositories w)), w).

(** [statelyClient.put(repository)]. *)
Definition putRepository (r : Repository.t) : M unit :=
  fun w => (Returned tt,
            mkWorld (putRepositoryItem r (repositories w)) (runners w) (outages w)
                    (ticks w) (posts w) (fetches w)
                    (trace w ++ [EvPutRepository r])).

(** [statelyClient.put(runner)]. *)
Definition putRunner (r : Runner.t) : M unit :=
  fun w => (Returned tt,
            mkWorld (repositories w) (putRunnerItem r (runners w)) (outages w)
                    (ticks w) (posts w) (fetches w)
                    (trace w ++ [EvPutRunner r])).

(** [client.put(outage)]: an event whose [outageId] is still unset gets
    the next value of the sequence; the stored item is returned. *)
Definition putOutage (o : OutageEvent.t) : M OutageEvent.t :=
  fun w =>
    let o' :=
      if OutageEvent.outageId o =? 0 then
        OutageEvent.withOutageId
          (nextOutageId (OutageEvent.repoId o) (OutageEvent.runnerId o) (outages w)) o
      else o in
    (Returned o',
     mkWorld (repositories w) (runners w) (putOutageItem o' (outages w))
             (ticks w) (posts w) (fetches w)
             (trace w ++ [EvPutOutage o'])).

(** [async function fetchGitHubRunners(repo, githubToken)]. *)
Definition fetchGitHubRunners (repo : string) : M (list GitHubRunner.t) :=
  fun w =>
    let w' := mkWorld (repositories w) (runners w) (outages w)
                      (ticks w) (posts w) (S (fetches w)) (trace w) in
    match github env (fetches w) repo with
    | Some rs => (Returned rs, w')
    | None => (consoleError FetchError ;;; throw FetchError) w'
    end.

(** [async function fetchExistingRunners(client, repoId)]. *)
Definition fetchExistingRunners (repoId : string) : M (list Runner.t) :=
  fun w => (Returned (runnersOf repoId (runners w)), w).

(** [async function sendSlackNotification(slackWebhook, runner, status, outageId)]. *)
Definition sendSlackNotification (slackWebhook : option string)
    (runner : Runner.t) (status : RunnerStatus) (outageId : Z) : M unit :=
  let statusText := statusToString status in
  axiosPost slackWebhook
    (mkSlackMessage Alert (Runner.repoId runner) (Runner.name runner)
                    statusText outageId).

(** [async function sendSlackRecoveryNotification(slackWebhook, runner, status, outageId)]. *)
Definition sendSlackRecoveryNotification (slackWebhook : option string)
    (runner : Runner.t) (status : RunnerStatus) (outageId : Z) : M unit :=
  let statusText := statusToString status in
  axiosPost slackWebhook
    (mkSlackMessage Recovery (Runner.repoId runner) (Runner.name runner)
                    statusText outageId).

(** The argument of [client.create("OutageEvent", ...)] in
    [handleUnhealthyRunner]: [outageId] and [resolvedAt] are left unset. *)
Definition createOutage (runner : Runner.t) (status : RunnerStatus)
    (startedAt : Z) : OutageEvent.t :=
  OutageEvent.mk 0 (Runner.repoId runner) (Runner.runnerId runner)
    (Runner.name runner) status startedAt 0
    ("Runner " ++ Runner.name runner ++ " entered "
       ++ statusToString status ++ " state")
    false.

(** [async function handleUnhealthyRunner(client, runner, status, slackWebhook)]. *)
Definition handleUnhealthyRunner (runner : Runner.t) (status : RunnerStatus)
    (slackWebhook : option string) : M unit :=
  startedAt <- dateNow ;;
  outage <- putOutage (createOutage runner status startedAt) ;;
  tryCatch
    (sendSlackNotification slackWebhook runner status (OutageEvent.outageId outage) ;;;
     _ <- putOutage (OutageEvent.withNotificationSent true outage) ;;
     ret tt)
    (fun e => consoleError e).

(** [async function resolveOutage(client, repoId, runnerId)]: the range
    scan yields at most the latest event of the history. *)
Definition resolveOutage (repoId : string) (runnerId : Z) : M Z :=
  fun w =>
    let lastOutageId := 0 in
    match latest (historyOf repoId runnerId (outages w)) with
    | Some item =>
        if negb (negb (OutageEvent.resolvedAt item =? 0)) then
          (resolvedAt <- dateNow ;;
           _ <- putOutage (OutageEvent.withResolvedAt resolvedAt item) ;;
           ret (OutageEvent.outageId item)) w
        else (Returned lastOutageId, w)
    | None => (Returned lastOutageId, w)
    end.

(** [existingRunners.find((r) => r.runnerId === BigInt(githubRunner.id))]. *)
Definition findRunner (id : Z) (existingRunners : list Runner.t) : option Runner.t :=
  find (fun r => Runner.runnerId r =? id) existingRunners.

(** The assignments to the fields of the found object are visible through
    the array it lives in: the first element with that identity changes. *)
Fixpoint assignFound (id : Z) (r' : Runner.t) (existingRunners : list Runner.t)
    : list Runner.t :=
  match existingRunners with
  | [] => []
  | r :: rest =>
      if Runner.runnerId r =? id then r' :: rest
      else r :: assignFound id r' rest
  end.

(** [processedRunnerIds.has(id)]. *)
Definition has (processedRunnerIds : list Z) (id : Z) : bool :=
  existsb (Z.eqb id) processedRunnerIds.

(** The stored runner after the assignments of the update path
    (probe.ts lines 130-137). *)
Definition updatedRunner (existingRunner : Runner.t) (githubRunner : GitHubRunner.t)
    (lastSeenAt : Z) : Runner.t :=
  Runner.mk (Runner.runnerId existingRunner) (Runner.repoId existingRunner)
    (GitHubRunner.name githubRunner) (mapGitHubStatus githubRunner)
    (GitHubRunner.enabled githubRunner) (GitHubRunner.os githubRunner)
    (map (fun label => mkLabel (labelName label)) (GitHubRunner.labels githubRunner))
    lastSeenAt (Runner.firstSeenAt existingRunner).

(** The record of the creation path (probe.ts lines 172-183). *)
Definition createdRunner (repoId : string) (githubRunner : GitHubRunner.t)
    (now : Z) : Runner.t :=
  Runner.mk (GitHubRunner.id githubRunner) repoId
    (GitHubRunner.name githubRunner) (mapGitHubStatus githubRunner)
    (GitHubRunner.enabled githubRunner) (GitHubRunner.os githubRunner)
    (GitHubRunner.labels githubRunner) now now.

(** The body of [for (const githubRunner of runners)] in [handler]
    (probe.ts lines 116-200). The loop carries the array of the stored
    runners, whose objects it mutates, and the set of the processed ids. *)
Definition reconcileRunner (repoId : string) (slackWebhook : option string)
    (githubRunner : GitHubRunner.t) (st : list Runner.t * list Z)
    : M (list Runner.t * list Z) :=
  let existingRunners := fst st in
  let processedRunnerIds := GitHubRunner.id githubRunner :: snd st in
  let status := mapGitHubStatus githubRunner in
  match findRunner (GitHubRunner.id githubRunner) existingRunners with
  | Some existingRunner =>
      let oldStatus := Runner.status existingRunner in
      lastSeenAt <- dateNow ;;
      let existingRunner' := updatedRunner existingRunner githubRunner lastSeenAt in
      putRunner existingRunner' ;;;
      when (includes UNHEALTHY_STATUSES status && negb (status_eqb status oldStatus))
        (handleUnhealthyRunner existingRunner' status slackWebhook) ;;;
      when (negb (includes UNHEALTHY_STATUSES status)
            && includes UNHEALTHY_STATUSES oldStatus)
        (outageId <- resolveOutage repoId (GitHubRunner.id githubRunner) ;;
         when (truthy slackWebhook)
           (sendSlackRecoveryNotification slackWebhook existingRunner' status outageId)) ;;;
      ret (assignFound (GitHubRunner.id githubRunner) existingRunner' existingRunners,
           processedRunnerIds)
  | None =>
      now <- dateNow ;;
      let newRunner := createdRunner repoId githubRunner now in
      putRunner newRunner ;;;
      when (includes UNHEALTHY_STATUSES status && truthy slackWebhook)
        (handleUnhealthyRunner newRunner status slackWebhook) ;;;
      ret (existingRunners, processedRunnerIds)
  end.

(** The body of [for (const existingRunner of existingRunners)] in
    [handler] (probe.ts lines 203-235); it returns the object as the
    iteration leaves it. *)
Definition sweepRunner (slackWebhook : option string) (processedRunnerIds : list Z)
    (existingRunner : Runner.t) : M Runner.t :=
  if negb (has processedRunnerIds (Runner.runnerId existingRunner)) then
    if negb (status_eqb (Runner.status existingRunner) RunnerStatus_UNKNOWN) then
      let oldStatus := Runner.status existingRunner in
      let existingRunner' := Runner.withStatus RunnerStatus_UNKNOWN existingRunner in
      putRunner existingRunner' ;;;
      when (negb (includes UNHEALTHY_STATUSES oldStatus) && truthy slackWebhook)
        (handleUnhealthyRunner existingRunner' RunnerStatus_UNKNOWN slackWebhook) ;;;
      ret existingRunner'
    else ret existingRunner
  else ret existingRunner.

(** The sweep loop: every object of the array in turn. *)
Fixpoint sweep (slackWebhook : option string) (processedRunnerIds : list Z)
    (existingRunners : list Runner.t) : M (list Runner.t) :=
  match existingRunners with
  | [] => ret []
  | r :: rest =>
      r' <- sweepRunner slackWebhook processedRunnerIds r ;;
      rest' <- sweep slackWebhook processedRunnerIds rest ;;
      ret (r' :: rest')
  end.

(** The reconciliation of one repository once its runners are fetched
    (probe.ts lines 106-235): read the stored runners, diff every reported
    runner against them, then sweep. It returns the array of the stored
    runners as the pass leaves it. *)
Definition reconcile (repoId : string) (slackWebhook : option string)
    (runners : list GitHubRunner.t) : M (list Runner.t) :=
  existingRunners <- fetchExistingRunners repoId ;;
  st <- forEach (reconcileRunner repoId slackWebhook) runners (existingRunners, []) ;;
  sweep slackWebhook (snd st) (fst st).

(** The loop body of [reconcileRunner] when [repoId] is [undefined] (the
    entry has no ["/"]). The update path reads [repoId] in the template
    literal of [resolveOutage] only, which renders it as ["undefined"];
    the creation path reads the clock and creates a runner whose [repoId]
    is unset, and the store client is taken to reject a record whose key
    field is unset. *)
Definition reconcileRunnerUndefined (slackWebhook : option string)
    (githubRunner : GitHubRunner.t) (st : list Runner.t * list Z)
    : M (list Runner.t * list Z) :=
  match findRunner (GitHubRunner.id githubRunner) (fst st) with
  | Some _ => reconcileRunner "undefined" slackWebhook githubRunner st
  | None => now <- dateNow ;; throw KeyError
  end.

(** [reconcile] when [repoId] is [undefined]: the range scan of
    [fetchExistingRunners] is over [`/repo-undefined/runner-`]. *)
Definition reconcileUndefined (slackWebhook : option string)
    (runners : list GitHubRunner.t) : M (list Runner.t) :=
  existingRunners <- fetchExistingRunners "undefined" ;;
  st <- forEach (reconcileRunnerUndefined slackWebhook) runners (existingRunners, []) ;;
  sweep slackWebhook (snd st) (fst st).

(** The body of [for (const repo of repositories)] for an entry without a
    ["/"], which leaves [name] and [repoId] undefined: the repository is
    read under [`/repo-undefined`]; when none is stored the clock is read
    for the record to create, whose [repoId] is unset, and its [put] is
    rejected; when one is stored it is refreshed and the pass goes on. *)
Definition processRepositoryUndefined (params : Params) (repo : string) : M unit :=
  repository <- getRepository "undefined" ;;
  match repository with
  | None =>
      lastSyncedAt <- dateNow ;;
      throw KeyError
  | Some r =>
      lastSyncedAt <- dateNow ;;
      putRepository (Repository.withLastSyncedAt lastSyncedAt r)
  end ;;;
  runners <- fetchGitHubRunners repo ;;
  _ <- reconcileUndefined (slackWebhook params) runners ;;
  ret tt.

(** The body of [for (const repo of repositories)] inside its [try]
    (probe.ts lines 73-235). [owner] is always defined; [name] is
    undefined for an entry without a ["/"]. *)
Definition processRepository (params : Params) (repo : string) : M unit :=
  match ownerOf repo, nameOf repo with
  | Some owner, Some name =>
      let repoId := name in
      repository <- getRepository repoId ;;
      match repository with
      | None =>
          lastSyncedAt <- dateNow ;;
          putRepository (Repository.mk repoId owner name true lastSyncedAt)
      | Some r =>
          lastSyncedAt <- dateNow ;;
          putRepository (Repository.withLastSyncedAt lastSyncedAt r)
      end ;;;
      runners <- fetchGitHubRunners repo ;;
      _ <- reconcile repoId (slackWebhook params) runners ;;
      ret tt
  | _, _ => processRepositoryUndefined params repo
  end.

(** [export const handler]: [None] stands for a failed
    [fetchSSMParameters]. The client is created next, and
    [BigInt(params.statelydbStoreId)] may throw; [createClient] and
    [accessKeyAuth] themselves only build the client. Then the repository
    list is parsed. Every repository runs inside its own [try]/[catch]. *)
Definition handler (params : option Params) : M Response :=
  tryCatch
    (match params with
     | None => throw ConfigError
     | Some p =>
         match statelydbStoreId p with
         | None => throw ConfigError
         | Some storeId =>
             match repositoriesParam p with
             | None => throw ConfigError
             | Some repositories =>
                 forEach
                   (fun repo (_ : unit) =>
                      tryCatch (processRepository p repo)
                               (fun repoError => consoleError repoError))
                   repositories tt ;;;
                 ret (mkResponse 200 "GitHub runner monitoring completed successfully")
             end
         end
     end)
    (fun error =>
       consoleError error ;;;
       ret (mkResponse 500 "Error in GitHub runner monitoring")).
End Engine.

(** ** Vocabulary of the statements *)

Definition unhealthy (s : RunnerStatus) : bool := includes UNHEALTHY_STATUSES s.

(** What a computation added to the trace. *)
Definition newEvents (w w' : World) : list Event :=
  skipn (List.length (trace w)) (trace w').

(** An outage is open while [resolvedAt] is unset. *)
Definition isOpen (o : OutageEvent.t) : bool := OutageEvent.resolvedAt o =? 0.

Definition openOutages (repoId : string) (runnerId : Z) (l : list OutageEvent.t)
    : list OutageEvent.t :=
  filter isOpen (historyOf repoId runnerId l).

(** The invariant of the data model: no (repository, runner) has two open
    outages. *)
Definition atMostOneOpen (l : list OutageEvent.t) : bool :=
  forallb (fun o =>
             (List.length (openOutages (OutageEvent.repoId o) (OutageEvent.runnerId o) l)
                <=? 1)%nat) l.

Definition isPutOutage (e : Event) : bool :=
  match e with EvPutOutage _ => true | _ => false end.
Definition isPost (e : Event) : bool :=
  match e with EvPost _ _ _ => true | _ => false end.
Definition isAlert (e : Event) : bool :=
  match e with
  | EvPost _ m _ => match msgKind m with Alert => true | Recovery => false end
  | _ => false
  end.

(** A run is quiet when it neither writes an outage nor posts a message. *)
Definition quiet (evs : list Event) : bool :=
  forallb (fun e => negb (isPutOutage e) && negb (isPost e)) evs.

(** The alert message of an outage. *)
Definition alertOf (o : OutageEvent.t) : SlackMessage :=
  mkSlackMessage Alert (OutageEvent.repoId o) (OutageEvent.runnerName o)
    (statusToString (OutageEvent.status o)) (OutageEvent.outageId o).

(** A trace in which every alert is the dispatch for an outage created by the
    event just before it, under a key that [stored] does not hold. *)
Inductive AlertsOnlyOnOpen (stored : list OutageEvent.t) : list Event -> Prop :=
| AOO_nil : AlertsOnlyOnOpen stored []
| AOO_other e evs :
    isAlert e = false ->
    AlertsOnlyOnOpen stored evs ->
    AlertsOnlyOnOpen stored (e :: evs)
| AOO_open o url ok evs :
    OutageEvent.notificationSent o = false ->
    OutageEvent.resolvedAt o = 0 ->
    (forall x, In x stored -> outageKey x <> outageKey o) ->
    AlertsOnlyOnOpen stored evs ->
    AlertsOnlyOnOpen stored (EvPutOutage o :: EvPost url (alertOf o) ok :: evs).

(** A string without the separator. *)
Fixpoint noSlash (s : string) : bool :=
  match s with
  | EmptyString => true
  | String c s' => negb (Ascii.eqb c "/") && noSlash s'
  end.


(** The outage that [handleUnhealthyRunner] stores first: the created
    record with the sequence value the store assigns over [stored]. *)
Definition openedOutage (runner : Runner.t) (status : RunnerStatus)
    (startedAt : Z) (stored : list OutageEvent.t) : OutageEvent.t :=
  OutageEvent.withOutageId
    (nextOutageId (Runner.repoId runner) (Runner.runnerId runner) stored)
    (createOutage runner status startedAt).

(** The events of one call of [handleUnhealthyRunner] that opens [o]. *)
Definition openEvents (url : option string) (o : OutageEvent.t) (ok : bool)
    : list Event :=
  [EvPutOutage o; EvPost url (alertOf o) ok;
   if ok then EvPutOutage (OutageEvent.withNotificationSent true o)
   else EvConsoleError PostError].

(** The recovery message the update path sends for a runner. *)
Definition recoveryOf (runner : Runner.t) (status : RunnerStatus) (outageId : Z)
    : SlackMessage :=
  mkSlackMessage Recovery (Runner.repoId runner) (Runner.name runner)
    (statusToString status) outageId.

(** The world once the loop body has read the clock and stored [r]. *)
Definition afterPutRunner (r : Runner.t) (w : World) : World :=
  mkWorld (repositories w) (putRunnerItem r (runners w)) (outages w)
          (S (ticks w)) (posts w) (fetches w) (trace w ++ [EvPutRunner r]).

(** No outage of the runner is open as far as [resolveOutage] looks: the
    latest event of the history is resolved, or there is no history. *)
Definition noOpenOutage (repoId : string) (runnerId : Z) (l : list OutageEvent.t)
    : bool :=
  match latest (historyOf repoId runnerId l) with
  | Some item => negb (isOpen item)
  | None => true
  end.

(** A computation maintains a relation between the world it starts on and
    the world it leaves, whether it returns or throws. *)
Definition maintains (R : World -> World -> Prop) {A : Type} (m : M A) : Prop :=
  forall w, R w (snd (m w)).

Definition isPutRunner (e : Event) : bool :=
  match e with EvPutRunner _ => true | _ => false end.

(** The outage side of the engine leaves the runners alone: the table is
    the same and the added events write no runner. *)
Definition runnersUntouched (w w' : World) : Prop :=
  runners w' = runners w
  /\ exists evs, trace w' = trace w ++ evs
                 /\ forallb (fun e => negb (isPutRunner e)) evs = true.

(** Whether the sweep rewrites a stored runner. *)
Definition swept (processedRunnerIds : list Z) (e : Runner.t) : bool :=
  negb (has processedRunnerIds (Runner.runnerId e))
  && negb (status_eqb (Runner.status e) RunnerStatus_UNKNOWN).

(** The pass leaves the repository records alone. *)
Definition sameRepositories (w w' : World) : Prop :=
  repositories w' = repositories w.

(** What every pass maintains about alerts: the stored outage keys stay,
    and every alert added to the trace is the dispatch for an outage that
    the event just before it created under a key that was not stored. *)
Definition alertsAccounted (w w' : World) : Prop :=
  (forall x, In x (outages w) ->
             exists x', In x' (outages w') /\ outageKey x' = outageKey x)
  /\ exists evs, trace w' = trace w ++ evs /\ AlertsOnlyOnOpen (outages w) evs.

(** Whether a computation returned. *)
Definition returned {A : Type} (o : Outcome A) : bool :=
  match o with Returned _ => true | Thrown _ => false end.

(** Pairwise distinct elements, for a boolean equality. *)
Fixpoint distinct {A : Type} (eqb : A -> A -> bool) (l : list A) : bool :=
  match l with
  | [] => true
  | x :: l' => negb (existsb (eqb x) l') && distinct eqb l'
  end.

(** A stored runner and a reported runner agree on the pairing of ids and
    names: they have the same id exactly when they have the same name. *)
Definition agrees (e : Runner.t) (g : GitHubRunner.t) : bool :=
  Bool.eqb (Runner.runnerId e =? GitHubRunner.id g)
           (String.eqb (Runner.name e) (GitHubRunner.name g)).

(** The fetched set is well formed against the stored runners: ids and
    names are pairwise distinct in the fetch, and every stored runner
    agrees with every reported one. *)
Definition wellPaired (rs : list GitHubRunner.t) (stored : list Runner.t) : bool :=
  distinct Z.eqb (map GitHubRunner.id rs)
  && distinct String.eqb (map GitHubRunner.name rs)
  && forallb (fun e => forallb (agrees e) rs) stored.

(** The stored runners reflect the fetched set: every reported runner has
    a record, every record of a reported runner has the classified status,
    and every other record is UNKNOWN. *)
Definition settled (rs : list GitHubRunner.t) (l : list Runner.t) : Prop :=
  (forall g, In g rs -> exists x, In x l /\ Runner.runnerId x = GitHubRunner.id g)
  /\ (forall x g, In x l -> In g rs -> Runner.runnerId x = GitHubRunner.id g ->
                  Runner.status x = mapGitHubStatus g)
  /\ (forall x, In x l -> ~ In (Runner.runnerId x) (map GitHubRunner.id rs) ->
                Runner.status x = RunnerStatus_UNKNOWN).

(** The relation between the array of the stored runners [mem], the
    listing [L] of the store and the reported runners [seen] so far, while
    the first loop of a pass over [rs] runs. *)
Definition diffInv (repoId : string) (rs seen : list GitHubRunner.t)
    (mem L : list Runner.t) : Prop :=
  (forall x g, In x L -> In g seen -> Runner.runnerId x = GitHubRunner.id g ->
               Runner.status x = mapGitHubStatus g
               /\ Runner.name x = GitHubRunner.name g)
  /\ (forall g, In g seen -> exists x, In x L /\ Runner.runnerId x = GitHubRunner.id g)
  /\ (forall x, In x L -> ~ In (Runner.runnerId x) (map GitHubRunner.id seen) ->
                In x mem)
  /\ (forall x, In x L -> Runner.repoId x = repoId)
  /\ (forall e, In e mem ->
                Runner.repoId e = repoId
                /\ forall g, In g rs -> agrees e g = true).

(** The same while the sweep runs over the rest [todo] of the array. *)
Definition sweepInv (repoId : string) (rs : list GitHubRunner.t)
    (todo L : list Runner.t) : Prop :=
  (forall x g, In x L -> In g rs -> Runner.runnerId x = GitHubRunner.id g ->
               Runner.status x = mapGitHubStatus g
               /\ Runner.name x = GitHubRunner.name g)
  /\ (forall g, In g rs -> exists x, In x L /\ Runner.runnerId x = GitHubRunner.id g)
  /\ (forall x, In x L -> ~ In (Runner.runnerId x) (map GitHubRunner.id rs) ->
                Runner.status x = RunnerStatus_UNKNOWN \/ In x todo)
  /\ (forall x, In x L -> Runner.repoId x = repoId)
  /\ (forall e, In e todo ->
                Runner.repoId e = repoId
                /\ forall g, In g rs -> agrees e g = true).

(** The events of a run that only stores observed runners. *)
Definition observationsOnly (rs : list GitHubRunner.t) (evs : list Event) : Prop :=
  Forall (fun ev => exists r, ev = EvPutRunner r
                              /\ In (Runner.runnerId r) (map GitHubRunner.id rs)) evs.

(** ** Concrete scenarios

    The inputs on which the statements below are run: one repository
    ["acme/ci"] with a runner ["A"] (id 1), a clock that advances by one at
    each reading and starts at 1000, and a configured webhook. *)

Definition hook : option string := Some "https://hooks.example/T0".

Definition ghA (rawState : string) (busy : bool) : GitHubRunner.t :=
  GitHubRunner.mk 1 "A" rawState busy "linux" [mkLabel "self-hosted"] true.

Definition ghB (rawState : string) (busy : bool) : GitHubRunner.t :=
  GitHubRunner.mk 2 "B" rawState busy "linux" [mkLabel "self-hosted"] true.

(** An environment whose sink accepts every post and whose n-th fetch
    returns the n-th list of [fetched]. *)
Definition envOf (sinkOk : nat -> bool) (fetched : list (list GitHubRunner.t)) : Env :=
  mkEnv (fun n => 1000 + Z.of_nat n) sinkOk
        (fun n _ => nth_error fetched n).

Definition env0 : Env := envOf (fun _ => true) [].

Definition emptyWorld : World := mkWorld [] [] [] 0 0 0 [].

Definition storedA (s : RunnerStatus) : Runner.t :=
  Runner.mk 1 "ci" "A" s true "linux" [mkLabel "self-hosted"] 900 900.

Definition storedB (s : RunnerStatus) : Runner.t :=
  Runner.mk 2 "ci" "B" s true "linux" [mkLabel "self-hosted"] 900 900.

(** A world that stores the given runners and outages. *)
Definition worldOf (rs : list Runner.t) (os : list OutageEvent.t) : World :=
  mkWorld [] rs os 0 0 0 [].

Definition outageA (outageId : Z) (s : RunnerStatus) (resolvedAt : Z) : OutageEvent.t :=
  OutageEvent.mk outageId "ci" 1 "A" s 950 resolvedAt "Runner A entered Offline state" true.

(** Runner A stored as OFFLINE with a resolved outage 1 and an open outage 2. *)
Definition worldTwoOutages : World :=
  worldOf [storedA RunnerStatus_OFFLINE]
          [outageA 1 RunnerStatus_OFFLINE 960; outageA 2 RunnerStatus_OFFLINE 0].

(** The parameters of a pass over ["acme/ci"], without and with a webhook. *)
Definition paramsNoHook : Params := mkParams "token" (Some 1) (Some ["acme/ci"]) None.
Definition paramsCi : Params := mkParams "token" (Some 1) (Some ["acme/ci"]) hook.

(** Three passes over ["acme/ci"]: runner A is reported online, then is
    not reported, then is reported offline; then a fourth in which it is
    online again. *)
Definition envFlap : Env :=
  envOf (fun _ => true)
        [[ghA "online" false]; []; [ghA "offline" false]; [ghA "online" false]].

Definition pass (env : Env) (p : Params) (w : World) : World :=
  snd (handler env (Some p) w).

Definition flap1 : World := pass envFlap paramsCi emptyWorld.
Definition flap2 : World := pass envFlap paramsCi flap1.
Definition flap3 : World := pass envFlap paramsCi flap2.
Definition flap4 : World := pass envFlap paramsCi flap3.

(** Two configured repositories with the same name and different owners:
    ["acme/ci"] reports runner A online, ["other/ci"] reports no runner. *)
Definition paramsTwoOwners : Params :=
  mkParams "token" (Some 1) (Some ["acme/ci"; "other/ci"]) hook.

Definition envTwoOwners : Env :=
  envOf (fun _ => true) [[ghA "online" false]; []].

Definition twoOwners : World := pass envTwoOwners paramsTwoOwners emptyWorld.

(** A sink that rejects every post. *)
Definition envSinkDown : Env :=
  envOf (fun _ => false) [[ghA "offline" false]; [ghA "offline" false]].

(** Runner A is stored as OFFLINE and runner B as IDLE; the fetch reports A
    online and B offline, twice; the sink rejects the first post, which is
    the recovery message for A. *)
Definition envFirstPostFails : Env := envOf (fun n => negb (Nat.eqb n 0)) [].

Definition fetchedRecovery : list GitHubRunner.t :=
  [ghA "online" false; ghB "offline" false].

Definition recovering : World :=
  worldOf [storedA RunnerStatus_OFFLINE; storedB RunnerStatus_IDLE] [].

Definition recovering1 : World :=
  snd (reconcile envFirstPostFails "ci" hook fetchedRecovery recovering).

(** Runner A was removed and registered again under the same name: the
    store holds id 1, the fetch reports id 7, offline, twice. *)
Definition ghA7 : GitHubRunner.t :=
  GitHubRunner.mk 7 "A" "offline" false "linux" [mkLabel "self-hosted"] true.

Definition reRegistered : World := worldOf [storedA RunnerStatus_IDLE] [].

Definition reRegistered1 : World :=
  snd (reconcile env0 "ci" hook [ghA7] reRegistered).

(** Runner A is stored as IDLE; the fetch reports A offline and a new
    runner B online, twice. *)
Definition fetchedSteady : list GitHubRunner.t :=
  [ghA "offline" false; ghB "online" false].

Definition steady : World := worldOf [storedA RunnerStatus_IDLE] [].

Definition steady1 : World := snd (reconcile env0 "ci" hook fetchedSteady steady).

(** ** The parameters of a pass (probe.ts, fetchSSMParameters) *)








(** ** The query surface (slack.ts) *)

(** [function getRunnerStatusText(status)]. *)
Definition getRunnerStatusText (status : RunnerStatus) : string :=
  match status with
  | RunnerStatus_ONLINE => "Online"
  | RunnerStatus_BUSY => "Busy"
  | RunnerStatus_IDLE => "Idle"
  | RunnerStatus_OFFLINE => "Offline"
  | _ => "Unknown"
  end.

(** The blocks of a reply, by the values their text interpolates. The
    numbers and dates rendered from [startTime] and [endTime] (epoch
    seconds, ISO strings, the duration in minutes) are left out. *)
Inductive SlackBlock : Type :=
| BlockNotFound (runnerName : string)
| BlockHistoryHeader (runnerName : string)
| BlockOutage (statusText : string) (startTime endTime : Z) (resolved : bool)
| BlockStatusHeader (repoId : string)
| BlockRunner (name statusText : string) (lastSeenAt firstSeenAt : Z).

(** Modelled from the spec: a range scan of the persistence client with
    [SORT_DESCENDING] puts the events in decreasing [outageId]. *)
Fixpoint insertDesc (o : OutageEvent.t) (l : list OutageEvent.t) : list OutageEvent.t :=
  match l with
  | [] => [o]
  | x :: l' =>
      if OutageEvent.outageId o <? OutageEvent.outageId x
      then x :: insertDesc o l' else o :: l
  end.

Fixpoint sortDesc (l : list OutageEvent.t) : list OutageEvent.t :=
  match l with
  | [] => []
  | o :: l' => insertDesc o (sortDesc l')
  end.

(** Modelled from the spec: [beginList] of the persistence client over an
    outage history with [limit] and [SORT_DESCENDING]. *)
Definition recentOutages (limit : nat) (repoId : string) (runnerId : Z)
    (l : list OutageEvent.t) : list OutageEvent.t :=
  firstn limit (sortDesc (historyOf repoId runnerId l)).

(** [xs.map(f)] for an [f] that may read the clock. *)
Fixpoint mapM {A B : Type} (f : A -> M B) (xs : list A) : M (list B) :=
  match xs with
  | [] => ret []
  | x :: xs' => y <- f x ;; ys <- mapM f xs' ;; ret (y :: ys)
  end.

Section Queries.
Variable env : Env.

(** The callback of [latestOutages.map] in [getRecentOutagesForRunner]:
    [endTime] is [resolvedAt], or the clock when the outage is ongoing. *)
Definition outageBlock (outage : OutageEvent.t) : M SlackBlock :=
  let startTime := OutageEvent.startedAt outage in
  endTime <- (if negb (OutageEvent.resolvedAt outage =? 0)
              then ret (OutageEvent.resolvedAt outage)
              else dateNow env) ;;
  ret (BlockOutage (getRunnerStatusText (OutageEvent.status outage))
         startTime endTime (negb (OutageEvent.resolvedAt outage =? 0))).

(** [async function getRecentOutagesForRunner(statelyClient, repoId, runnerName)]. *)
Definition getRecentOutagesForRunner (repoId runnerName : string)
    : M (list SlackBlock) :=
  fun w =>
    match tableGet runnerKey cmpRunnerKey (repoId, runnerName) (runners w) with
    | None => (Returned [BlockNotFound runnerName], w)
    | Some runner =>
        let latestOutages :=
          recentOutages 5 repoId (Runner.runnerId runner) (outages w) in
        (blocks <- mapM outageBlock latestOutages ;;
         ret (BlockHistoryHeader (Runner.name runner) :: blocks)) w
    end.

(** [async function getStatusForRunners(statelyClient, repoId)]. *)
Definition getStatusForRunners (repoId : string) : M (list SlackBlock) :=
  runners <- fetchExistingRunners repoId ;;
  ret (BlockStatusHeader repoId
         :: map (fun runner =>
                   BlockRunner (Runner.name runner)
                     (getRunnerStatusText (Runner.status runner))
                     (Runner.lastSeenAt runner) (Runner.firstSeenAt runner))
                runners).
End Queries.

(** ** Vocabulary of the further statements *)



(** The world a pass leaves, for a list of repositories. *)
Definition passOver (env : Env) (token : string) (storeId : Z)
    (slackWebhook : option string) (repositories : list string) (w : World) : World :=
  snd (handler env
         (Some (mkParams token (Some storeId) (Some repositories) slackWebhook)) w).

(** The record the pass stores for a repository: the stored one with
    [lastSyncedAt] refreshed, or a new active one. *)
Definition upserted (owner name : string) (now : Z) (stored : list Repository.t)
    : Repository.t :=
  match tableGet repositoryKey String.compare name stored with
  | Some r => Repository.withLastSyncedAt now r
  | None => Repository.mk name owner name true now
  end.

(** The outage keys of a table are pairwise distinct. *)
Definition uniqueOutageKeys (l : list OutageEvent.t) : Prop :=
  NoDup (map outageKey l).

(** The outage table only grows: with distinct keys before, the keys are
    distinct after, and every stored outage is still stored, as it was or
    with [resolvedAt] set if it was open. *)
Definition historyKept (w w' : World) : Prop :=
  uniqueOutageKeys (outages w) ->
  uniqueOutageKeys (outages w')
  /\ forall x, In x (outages w) ->
       In x (outages w')
       \/ (isOpen x = true
           /\ exists t, In (OutageEvent.withResolvedAt t x) (outages w')).

(** The records of the repositories other than [repoId] are the same. *)
Definition othersUntouched (repoId : string) (w w' : World) : Prop :=
  forall other, other <> repoId ->
    runnersOf other (runners w') = runnersOf other (runners w)
    /\ forall runnerId,
         historyOf other runnerId (outages w') = historyOf other runnerId (outages w).

(** An outage block renders an event: its status text, its start, whether
    it is resolved, and [resolvedAt] as the end when it is. *)
Definition renders (o : OutageEvent.t) (b : SlackBlock) : Prop :=
  exists endTime,
    b = BlockOutage (getRunnerStatusText (OutageEvent.status o))
          (OutageEvent.startedAt o) endTime (negb (isOpen o))
    /\ (isOpen o = false -> endTime = OutageEvent.resolvedAt o).

(** Decreasing [outageId] along a list. *)
Fixpoint decreasing (l : list OutageEvent.t) : Prop :=
  match l with
  | [] => True
  | o :: l' =>
      (forall x, In x l' -> OutageEvent.outageId x <= OutageEvent.outageId o)
      /\ decreasing l'
  end.

(** A query reads the clock and nothing else changes. *)
Definition readOnly (w w' : World) : Prop :=
  repositories w' = repositories w /\ runners w' = runners w
  /\ outages w' = outages w /\ trace w' = trace w /\ posts w' = posts w.

(** No repository record and no runner record is removed: every stored
    key is still stored. *)
Definition recordsKept (w w' : World) : Prop :=
  (forall r, In r (repositories w) ->
     exists r', In r' (repositories w') /\ repositoryKey r' = repositoryKey r)
  /\ (forall x, In x (runners w) ->
        exists x', In x' (runners w') /\ runnerKey x' = runnerKey x).

(** The [lastSeenAt] stored under a runner key, if a record is. *)
Definition storedLastSeenAt (repoId name : string) (w : World) : option Z :=
  option_map Runner.lastSeenAt
    (tableGet runnerKey cmpRunnerKey (repoId, name) (runners w)).
(** ** Further scenarios

    A second repository ["acme/web"] with a runner ["W"] (id 5) beside
    runner A of ["acme/ci"] and its two outages, one of them open. *)

Definition storedWeb : Runner.t :=
  Runner.mk 5 "web" "W" RunnerStatus_OFFLINE true "linux" [mkLabel "self-hosted"] 900 900.

Definition outageWeb : OutageEvent.t :=
  OutageEvent.mk 1 "web" 5 "W" RunnerStatus_OFFLINE 940 0
                 "Runner W entered Offline state" true.

Definition worldTwoRepositories : World :=
  mkWorld [Repository.mk "web" "acme" "web" true 900]
          [storedA RunnerStatus_OFFLINE; storedWeb]
          [outageA 1 RunnerStatus_OFFLINE 960; outageA 2 RunnerStatus_OFFLINE 0; outageWeb]
          0 0 0 [].

(** One pass over ["acme/ci"] in which runner A is reported online. *)
Definition envRecovery : Env := envOf (fun _ => true) [[ghA "online" false]].

(** Runner A of ["acme/ci"] is reported under another name. *)
Definition ghRenamed : GitHubRunner.t :=
  GitHubRunner.mk 1 "A-2" "offline" false "linux" [mkLabel "self-hosted"] true.

(** The records and messages of runner A once it is stored under the
    name ["A-2"]. *)
Definition storedRenamed (lastSeenAt : Z) : Runner.t :=
  Runner.mk 1 "ci" "A-2" RunnerStatus_OFFLINE true "linux" [mkLabel "self-hosted"]
            lastSeenAt 900.

Definition outageRenamed (outageId startedAt : Z) (notificationSent : bool)
    : OutageEvent.t :=
  OutageEvent.mk outageId "ci" 1 "A-2" RunnerStatus_OFFLINE startedAt 0
                 "Runner A-2 entered Offline state" notificationSent.

Definition alertRenamed (outageId : Z) : SlackMessage :=
  mkSlackMessage Alert "ci" "A-2" "Offline" outageId.

(** Three passes over ["acme/ci"], from the store that holds runner A
    (id 1) as IDLE: each fetch reports id 1 offline under the name
    ["A-2"]; the sink rejects the first post and accepts the later ones. *)
Definition envRenamed : Env :=
  envOf (fun n => negb (Nat.eqb n 0)) [[ghRenamed]; [ghRenamed]; [ghRenamed]].

Definition renamed1 : World := pass envRenamed paramsCi steady.
Definition renamed2 : World := pass envRenamed paramsCi renamed1.
Definition renamed3 : World := pass envRenamed paramsCi renamed2.

(** One pass over ["acme/ci"] in which the fetch reports id 7 under the
    name of the stored runner A (id 1). *)
Definition envReRegistered : Env := envOf (fun _ => true) [[ghA7]].

(** Two passes over ["acme/ci"] from [recovering], with the fetch of
    [fetchedRecovery] and a sink that rejects the first post. *)
Definition envRecoveryFails : Env :=
  envOf (fun n => negb (Nat.eqb n 0)) [fetchedRecovery; fetchedRecovery].

Definition recoveringPass1 : World := pass envRecoveryFails paramsCi recovering.
Definition recoveringPass2 : World := pass envRecoveryFails paramsCi recoveringPass1.
(** ** Facts about the tables *)

Lemma string_compare_refl (s : string) : String.compare s s = Eq.
Proof.
  induction s as [|c s IH]; cbn; [reflexivity|].
  assert (Hc : Ascii.compare c c = Eq).
  { unfold Ascii.compare. apply N.compare_refl. }
  now rewrite Hc.
Qed.

Lemma string_compare_eq (a b : string) : String.compare a b = Eq <-> a = b.
Proof.
  split; [apply String.compare_eq_iff | intros ->; apply string_compare_refl].
Qed.

Lemma cmpPair_eq {A B : Type} (ca : A -> A -> comparison) (cb : B -> B -> comparison) :
  (forall x y, ca x y = Eq <-> x = y) ->
  (forall x y, cb x y = Eq <-> x = y) ->
  forall p q, cmpPair ca cb p q = Eq <-> p = q.
Proof.
  intros Ha Hb [a b] [a' b']. unfold cmpPair; cbn. split.
  - destruct (ca a a') eqn:E; try discriminate.
    intros H. apply Ha in E. apply Hb in H. congruence.
  - intros H. injection H as -> ->.
    destruct (Ha a' a') as [_ Hr]. rewrite Hr by reflexivity. now apply Hb.
Qed.

Lemma cmpRunnerKey_eq (p q : string * string) : cmpRunnerKey p q = Eq <-> p = q.
Proof. apply cmpPair_eq; apply string_compare_eq. Qed.

Lemma cmpOutageKey_eq (p q : string * (Z * Z)) : cmpOutageKey p q = Eq <-> p = q.
Proof.
  apply cmpPair_eq; [apply string_compare_eq|].
  apply cmpPair_eq; apply Z.compare_eq_iff.
Qed.

Section TableFacts.
Context {A K : Type}.
Variable key : A -> K.
Variable cmp : K -> K -> comparison.
Hypothesis cmp_eq : forall a b, cmp a b = Eq <-> a = b.

Lemma sameKey_true (a b : K) : sameKey cmp a b = true <-> a = b.
Proof.
  unfold sameKey. rewrite <- cmp_eq. destruct (cmp a b); split; congruence.
Qed.

Lemma sameKey_false (a b : K) : sameKey cmp a b = false <-> a <> b.
Proof.
  rewrite <- sameKey_true. destruct (sameKey cmp a b); split; congruence.
Qed.

Lemma In_insertSorted (a x : A) (l : list A) :
  In x (insertSorted key cmp a l) <-> x = a \/ In x l.
Proof.
  induction l as [|y l IH]; cbn.
  - intuition congruence.
  - destruct (cmp (key a) (key y)); cbn; rewrite ?IH; intuition congruence.
Qed.

Lemma length_insertSorted (a : A) (l : list A) :
  List.length (insertSorted key cmp a l) = S (List.length l).
Proof.
  induction l as [|y l IH]; cbn; [reflexivity|].
  destruct (cmp (key a) (key y)); cbn; congruence.
Qed.

Lemma In_tablePut (a x : A) (l : list A) :
  In x (tablePut key cmp a l) <-> x = a \/ (In x l /\ key x <> key a).
Proof.
  unfold tablePut. rewrite In_insertSorted, filter_In, negb_true_iff, sameKey_false.
  reflexivity.
Qed.

Lemma filter_fresh (a : A) (l : list A) :
  (forall x, In x l -> key x <> key a) ->
  filter (fun x => negb (sameKey cmp (key x) (key a))) l = l.
Proof.
  induction l as [|y l IH]; cbn; intros H; [reflexivity|].
  assert (Hy : sameKey cmp (key y) (key a) = false)
    by (apply sameKey_false, H; now left).
  rewrite Hy; cbn. f_equal. apply IH. intros x Hx. apply H. now right.
Qed.

(** A put under a key that is not stored adds one item. *)
Lemma length_tablePut_fresh (a : A) (l : list A) :
  (forall x, In x l -> key x <> key a) ->
  List.length (tablePut key cmp a l) = S (List.length l).
Proof.
  intros H. unfold tablePut. now rewrite filter_fresh, length_insertSorted.
Qed.

(** Putting again under the key just put replaces the item. *)
Lemma filter_insertSorted_same (a b : A) (l : list A) :
  key b = key a ->
  (forall x, In x l -> key x <> key a) ->
  filter (fun x => negb (sameKey cmp (key x) (key b))) (insertSorted key cmp a l) = l.
Proof.
  intros Hb.
  assert (Ea : sameKey cmp (key a) (key b) = true) by (apply sameKey_true; congruence).
  induction l as [|y l IH]; intros Hfresh; cbn.
  - now rewrite Ea.
  - assert (Ey : sameKey cmp (key y) (key b) = false).
    { apply sameKey_false. rewrite Hb. apply Hfresh. now left. }
    assert (Hl : filter (fun x => negb (sameKey cmp (key x) (key b))) l = l).
    { apply filter_fresh. intros x Hx. rewrite Hb. apply Hfresh. now right. }
    destruct (cmp (key a) (key y)); cbn; rewrite ?Ea, ?Ey; cbn.
    + now rewrite Hl.
    + now rewrite Hl.
    + f_equal. apply IH. intros x Hx. apply Hfresh. now right.
Qed.

(** A put never removes a key. *)
Lemma tablePut_keeps_keys (a x : A) (l : list A) :
  In x l -> exists x', In x' (tablePut key cmp a l) /\ key x' = key x.
Proof.
  intros Hx. destruct (sameKey cmp (key x) (key a)) eqn:E.
  - apply sameKey_true in E. exists a. split; [|congruence].
    apply In_tablePut. now left.
  - apply sameKey_false in E. exists x. split; [|reflexivity].
    apply In_tablePut. right. now split.
Qed.

Lemma tableGet_Some (k : K) (l : list A) (a : A) :
  tableGet key cmp k l = Some a -> In a l /\ key a = k.
Proof.
  unfold tableGet. intros H. apply find_some in H. destruct H as [H1 H2].
  split; [assumption | now apply sameKey_true].
Qed.
End TableFacts.

Lemma In_putRunnerItem (a x : Runner.t) (l : list Runner.t) :
  In x (putRunnerItem a l) <-> x = a \/ (In x l /\ runnerKey x <> runnerKey a).
Proof. apply In_tablePut, cmpRunnerKey_eq. Qed.

Lemma In_putOutageItem (a x : OutageEvent.t) (l : list OutageEvent.t) :
  In x (putOutageItem a l) <-> x = a \/ (In x l /\ outageKey x <> outageKey a).
Proof. apply In_tablePut, cmpOutageKey_eq. Qed.

(** *** The outage sequence *)

Lemma latest_In (l : list OutageEvent.t) (m : OutageEvent.t) :
  latest l = Some m -> In m l.
Proof.
  revert m. induction l as [|o l IH]; cbn; intros m H; [discriminate|].
  destruct (latest l) as [m'|].
  - destruct (OutageEvent.outageId o <? OutageEvent.outageId m').
    + injection H as <-. right. now apply IH.
    + injection H as <-. now left.
  - injection H as <-. now left.
Qed.

Lemma latest_max (l : list OutageEvent.t) (m : OutageEvent.t) :
  latest l = Some m ->
  forall o, In o l -> OutageEvent.outageId o <= OutageEvent.outageId m.
Proof.
  revert m. induction l as [|x l IH]; cbn; intros m H o Ho; [contradiction|].
  destruct (latest l) as [m'|] eqn:E.
  - specialize (IH m' eq_refl).
    destruct (OutageEvent.outageId x <? OutageEvent.outageId m') eqn:C;
      injection H as <-.
    + apply Z.ltb_lt in C. destruct Ho as [<- | Ho]; [lia | now apply IH].
    + apply Z.ltb_ge in C. destruct Ho as [<- | Ho]; [lia|].
      specialize (IH o Ho). lia.
  - injection H as <-. destruct Ho as [<- | Ho]; [lia|].
    destruct l; [contradiction|]. cbn in E.
    destruct (latest l); [destruct (_ <? _)|]; discriminate.
Qed.

Lemma latest_None (l : list OutageEvent.t) : latest l = None -> l = [].
Proof.
  destruct l as [|o l]; cbn; [reflexivity|].
  destruct (latest l); [destruct (_ <? _)|]; discriminate.
Qed.

Lemma In_historyOf (repoId : string) (runnerId : Z) (l : list OutageEvent.t)
    (o : OutageEvent.t) :
  In o (historyOf repoId runnerId l)
  <-> In o l /\ OutageEvent.repoId o = repoId /\ OutageEvent.runnerId o = runnerId.
Proof.
  unfold historyOf. rewrite filter_In, andb_true_iff, String.eqb_eq, Z.eqb_eq.
  reflexivity.
Qed.

Lemma nextOutageId_positive (repoId : string) (runnerId : Z) (l : list OutageEvent.t) :
  0 < nextOutageId repoId runnerId l.
Proof. unfold nextOutageId. destruct (latest _); lia. Qed.

(** The sequence value is above every identifier of the history, so the
    key it forms is not stored. *)
Lemma nextOutageId_fresh (repoId : string) (runnerId : Z) (l : list OutageEvent.t)
    (x : OutageEvent.t) :
  In x l ->
  outageKey x <> (repoId, (runnerId, nextOutageId repoId runnerId l)).
Proof.
  intros Hx E. unfold outageKey in E. injection E as E1 E2 E3.
  assert (Hh : In x (historyOf repoId runnerId l)) by (apply In_historyOf; auto).
  unfold nextOutageId in E3.
  destruct (latest (historyOf repoId runnerId l)) as [m|] eqn:L.
  - pose proof (latest_max _ _ L x Hh). lia.
  - apply latest_None in L. rewrite L in Hh. contradiction.
Qed.

(** ** Reading the table after a put *)

Lemma find_unique {A : Type} (f : A -> bool) (l : list A) (a : A) :
  In a l -> f a = true -> (forall x, In x l -> f x = true -> x = a) ->
  find f l = Some a.
Proof.
  induction l as [|y l IH]; cbn; [contradiction|].
  intros Hin Ha Hu. destruct (f y) eqn:Fy.
  - f_equal. apply Hu; [now left | exact Fy].
  - destruct Hin as [-> | Hin]; [congruence|].
    apply IH; auto.
Qed.

(** A get after a put under the same key yields the item put. *)
Lemma tableGet_tablePut {A K : Type} (key : A -> K) (cmp : K -> K -> comparison)
    (a : A) (l : list A) :
  (forall x y, cmp x y = Eq <-> x = y) ->
  tableGet key cmp (key a) (tablePut key cmp a l) = Some a.
Proof.
  intros Hc. unfold tableGet. apply find_unique.
  - apply (In_tablePut key cmp Hc). now left.
  - now apply (sameKey_true cmp Hc).
  - intros x Hx Hk. apply (In_tablePut key cmp Hc) in Hx.
    destruct Hx as [-> | [_ Hne]]; [reflexivity|].
    apply (sameKey_true cmp Hc) in Hk. contradiction.
Qed.

Lemma find_insertSorted_out {A K : Type} (key : A -> K)
    (cmp : K -> K -> comparison) (q : A -> bool) (a : A) (l : list A) :
  q a = false -> find q (insertSorted key cmp a l) = find q l.
Proof.
  intros Ha. induction l as [|x l IH]; cbn.
  - now rewrite Ha.
  - destruct (cmp (key a) (key x)); cbn; rewrite ?Ha; try reflexivity.
    now rewrite IH.
Qed.

Lemma find_filter_out {A : Type} (p q : A -> bool) (l : list A) :
  (forall x, q x = true -> p x = true) -> find q (filter p l) = find q l.
Proof.
  intros H. induction l as [|x l IH]; cbn; [reflexivity|].
  destruct (p x) eqn:P; cbn.
  - now rewrite IH.
  - destruct (q x) eqn:Q; [|exact IH]. rewrite (H x Q) in P. discriminate.
Qed.

(** A get under another key does not see the put. *)
Lemma tableGet_tablePut_other {A K : Type} (key : A -> K)
    (cmp : K -> K -> comparison) (a : A) (k : K) (l : list A) :
  (forall x y, cmp x y = Eq <-> x = y) ->
  key a <> k ->
  tableGet key cmp k (tablePut key cmp a l) = tableGet key cmp k l.
Proof.
  intros Hc Hne. unfold tableGet, tablePut.
  rewrite find_insertSorted_out by (now apply (sameKey_false cmp Hc)).
  apply find_filter_out. intros x Hx.
  apply (sameKey_true cmp Hc) in Hx.
  apply negb_true_iff, (sameKey_false cmp Hc). congruence.
Qed.
(** ** The classifier *)

Lemma unhealthy_iff (s : RunnerStatus) :
  unhealthy s = true <-> s = RunnerStatus_OFFLINE \/ s = RunnerStatus_UNKNOWN.
Proof.
  split.
  - destruct s; cbn; intros H; try discriminate H; auto.
  - intros [-> | ->]; reflexivity.
Qed.

Lemma status_eqb_eq (a b : RunnerStatus) : status_eqb a b = true <-> a = b.
Proof.
  split.
  - destruct a, b; cbn; intros H; try discriminate H; reflexivity.
  - intros ->. unfold status_eqb. apply Z.eqb_refl.
Qed.

Lemma status_eqb_refl (a : RunnerStatus) : status_eqb a a = true.
Proof. now apply status_eqb_eq. Qed.

Lemma mapGitHubStatus_healthy_or_offline (g : GitHubRunner.t) :
  unhealthy (mapGitHubStatus g) = true -> mapGitHubStatus g = RunnerStatus_OFFLINE.
Proof.
  unfold mapGitHubStatus.
  destruct (negb _); [reflexivity|].
  destruct (GitHubRunner.busy g); cbn; discriminate.
Qed.

(** C6. The classifier is a total function into the canonical statuses: a
    descriptor whose raw state is not the literal "online" is OFFLINE, an
    online one is BUSY when busy and IDLE otherwise; and the unhealthy set
    is exactly OFFLINE and UNKNOWN. *)
Theorem classifier_total :
  (forall g : GitHubRunner.t,
      (GitHubRunner.status g <> "online"
       /\ mapGitHubStatus g = RunnerStatus_OFFLINE)
      \/ (GitHubRunner.status g = "online" /\ GitHubRunner.busy g = true
          /\ mapGitHubStatus g = RunnerStatus_BUSY)
      \/ (GitHubRunner.status g = "online" /\ GitHubRunner.busy g = false
          /\ mapGitHubStatus g = RunnerStatus_IDLE))
  /\ (forall s : RunnerStatus,
         includes UNHEALTHY_STATUSES s = true
         <-> s = RunnerStatus_OFFLINE \/ s = RunnerStatus_UNKNOWN).
Proof.
  split.
  - intros g. unfold mapGitHubStatus.
    destruct (String.eqb (GitHubRunner.status g) "online") eqn:E; cbn.
    + apply String.eqb_eq in E. right.
      destruct (GitHubRunner.busy g); [left | right]; auto.
    + apply String.eqb_neq in E. left. auto.
  - exact unhealthy_iff.
Qed.


(** ** The primitives of the engine, run *)

Lemma skipn_length_app {A : Type} (l evs : list A) :
  skipn (List.length l) (l ++ evs) = evs.
Proof. induction l as [|x l IH]; cbn; [reflexivity | exact IH]. Qed.

Lemma newEvents_app (w w' : World) (evs : list Event) :
  trace w' = trace w ++ evs -> newEvents w w' = evs.
Proof. unfold newEvents. intros ->. apply skipn_length_app. Qed.

Lemma openedOutage_fresh (runner : Runner.t) (status : RunnerStatus) (t : Z)
    (stored : list OutageEvent.t) (x : OutageEvent.t) :
  In x stored -> outageKey x <> outageKey (openedOutage runner status t stored).
Proof. intros Hx. apply nextOutageId_fresh, Hx. Qed.

(** [handleUnhealthyRunner] always returns: it stores the opened outage,
    posts the alert, and either stores the outage again with
    [notificationSent] set or logs the failure. *)
Lemma handleUnhealthyRunner_run (env : Env) (runner : Runner.t)
    (status : RunnerStatus) (hook : option string) (w : World) :
  handleUnhealthyRunner env runner status hook w =
  let o := openedOutage runner status (clock env (ticks w)) (outages w) in
  let ok := postOk env (posts w) in
  (Returned tt,
   mkWorld (repositories w) (runners w)
     (if ok then putOutageItem (OutageEvent.withNotificationSent true o)
                   (putOutageItem o (outages w))
      else putOutageItem o (outages w))
     (S (ticks w)) (S (posts w)) (fetches w)
     (trace w ++ openEvents hook o ok)).
Proof.
  unfold handleUnhealthyRunner, bind, tryCatch, dateNow, putOutage,
    sendSlackNotification, axiosPost, consoleError, emit, ret, openEvents.
  cbn.
  pose proof (nextOutageId_positive (Runner.repoId runner)
                (Runner.runnerId runner) (outages w)) as Hp.
  destruct (postOk env (posts w)); cbn.
  - destruct (Z.eqb_spec (nextOutageId (Runner.repoId runner)
                            (Runner.runnerId runner) (outages w)) 0) as [E|E];
      [lia|].
    rewrite <- !app_assoc. reflexivity.
  - rewrite <- !app_assoc. reflexivity.
Qed.

(** The outages after an opening: the stored ones and the new one. *)
Lemma In_outages_opened (o x : OutageEvent.t) (ok : bool) (l : list OutageEvent.t) :
  OutageEvent.notificationSent o = false ->
  (forall y, In y l -> outageKey y <> outageKey o) ->
  In x (if ok then putOutageItem (OutageEvent.withNotificationSent true o)
                     (putOutageItem o l)
        else putOutageItem o l)
  <-> x = OutageEvent.withNotificationSent ok o \/ In x l.
Proof.
  intros Hsent Hfresh. destruct ok.
  - rewrite In_putOutageItem, In_putOutageItem. split.
    + intros [-> | [[-> | [Hx _]] Hk]]; auto.
      exfalso. apply Hk. reflexivity.
    + intros [-> | Hx]; [now left|]. right. split.
      * right. split; [assumption | now apply Hfresh].
      * apply (Hfresh x Hx).
  - rewrite In_putOutageItem. split.
    + intros [-> | [Hx _]]; [left | right; assumption].
      destruct o; cbn in *; now subst.
    + intros [-> | Hx].
      * left. destruct o; cbn in *; now subst.
      * right. split; [assumption | now apply Hfresh].
Qed.

Lemma length_outages_opened (o : OutageEvent.t) (ok : bool) (l : list OutageEvent.t) :
  (forall y, In y l -> outageKey y <> outageKey o) ->
  List.length (if ok then putOutageItem (OutageEvent.withNotificationSent true o)
                            (putOutageItem o l)
               else putOutageItem o l)
  = S (List.length l).
Proof.
  intros Hfresh.
  assert (H1 : List.length (putOutageItem o l) = S (List.length l))
    by (apply length_tablePut_fresh; [apply cmpOutageKey_eq | exact Hfresh]).
  destruct ok; [|exact H1].
  unfold putOutageItem at 1, tablePut.
  rewrite length_insertSorted. f_equal.
  unfold putOutageItem, tablePut.
  rewrite (filter_fresh outageKey cmpOutageKey cmpOutageKey_eq o l Hfresh).
  now rewrite (filter_insertSorted_same outageKey cmpOutageKey cmpOutageKey_eq
                 o (OutageEvent.withNotificationSent true o) l eq_refl Hfresh).
Qed.

(** ** The loop bodies, unfolded *)

Lemma reconcileRunner_found (env : Env) (repoId : string) (hook : option string)
    (g : GitHubRunner.t) (ers : list Runner.t) (ids : list Z) (w : World)
    (e : Runner.t) :
  findRunner (GitHubRunner.id g) ers = Some e ->
  reconcileRunner env repoId hook g (ers, ids) w =
  let st := mapGitHubStatus g in
  let r' := updatedRunner e g (clock env (ticks w)) in
  (when (unhealthy st && negb (status_eqb st (Runner.status e)))
        (handleUnhealthyRunner env r' st hook) ;;;
   when (negb (unhealthy st) && unhealthy (Runner.status e))
        (outageId <- resolveOutage env repoId (GitHubRunner.id g) ;;
         when (truthy hook) (sendSlackRecoveryNotification env hook r' st outageId)) ;;;
   ret (assignFound (GitHubRunner.id g) r' ers, GitHubRunner.id g :: ids))
    (afterPutRunner r' w).
Proof.
  intros H. unfold reconcileRunner. cbn [fst snd]. rewrite H. reflexivity.
Qed.

Lemma reconcileRunner_new (env : Env) (repoId : string) (hook : option string)
    (g : GitHubRunner.t) (ers : list Runner.t) (ids : list Z) (w : World) :
  findRunner (GitHubRunner.id g) ers = None ->
  reconcileRunner env repoId hook g (ers, ids) w =
  let st := mapGitHubStatus g in
  let n := createdRunner repoId g (clock env (ticks w)) in
  (when (unhealthy st && truthy hook) (handleUnhealthyRunner env n st hook) ;;;
   ret (ers, GitHubRunner.id g :: ids))
    (afterPutRunner n w).
Proof.
  intros H. unfold reconcileRunner. cbn [fst snd]. rewrite H. reflexivity.
Qed.

Lemma resolveOutage_open (env : Env) (repoId : string) (runnerId : Z) (w : World)
    (item : OutageEvent.t) :
  latest (historyOf repoId runnerId (outages w)) = Some item ->
  isOpen item = true ->
  OutageEvent.outageId item <> 0 ->
  resolveOutage env repoId runnerId w =
  let item' := OutageEvent.withResolvedAt (clock env (ticks w)) item in
  (Returned (OutageEvent.outageId item),
   mkWorld (repositories w) (runners w) (putOutageItem item' (outages w))
           (S (ticks w)) (posts w) (fetches w) (trace w ++ [EvPutOutage item'])).
Proof.
  intros L Ho Hid. unfold resolveOutage. rewrite L.
  unfold isOpen in Ho. rewrite Ho. cbn [negb].
  unfold bind, dateNow, putOutage, ret. cbn.
  apply Z.eqb_neq in Hid. now rewrite Hid.
Qed.

Lemma resolveOutage_noop (env : Env) (repoId : string) (runnerId : Z) (w : World) :
  noOpenOutage repoId runnerId (outages w) = true ->
  resolveOutage env repoId runnerId w = (Returned 0, w).
Proof.
  unfold noOpenOutage, resolveOutage, isOpen.
  destruct (latest _) as [item|]; [|reflexivity].
  intros H. apply negb_true_iff in H. now rewrite H.
Qed.

(** ** Relations maintained by computations *)

Section Maintains.
Variable R : World -> World -> Prop.
Hypothesis R_refl : forall w, R w w.
Hypothesis R_trans : forall a b c, R a b -> R b c -> R a c.

Lemma maintains_ret {A : Type} (a : A) : maintains R (ret a).
Proof. intros w. apply R_refl. Qed.

Lemma maintains_throw {A : Type} (e : Error) : maintains R (@throw A e).
Proof. intros w. apply R_refl. Qed.

Lemma maintains_bind {A B : Type} (m : M A) (f : A -> M B) :
  maintains R m -> (forall a, maintains R (f a)) -> maintains R (bind m f).
Proof.
  intros Hm Hf w. unfold bind. specialize (Hm w).
  destruct (m w) as [[a|e] w1]; cbn in *.
  - eapply R_trans; [exact Hm | apply Hf].
  - exact Hm.
Qed.

Lemma maintains_tryCatch {A : Type} (m : M A) (h : Error -> M A) :
  maintains R m -> (forall e, maintains R (h e)) -> maintains R (tryCatch m h).
Proof.
  intros Hm Hh w. unfold tryCatch. specialize (Hm w).
  destruct (m w) as [[a|e] w1]; cbn in *.
  - exact Hm.
  - eapply R_trans; [exact Hm | apply Hh].
Qed.

Lemma maintains_when (b : bool) (m : M unit) :
  maintains R m -> maintains R (when b m).
Proof. destruct b; cbn; [auto | intros _; apply maintains_ret]. Qed.

Lemma maintains_forEach {A S : Type} (body : A -> S -> M S) (xs : list A) :
  (forall x s, maintains R (body x s)) -> forall s, maintains R (forEach body xs s).
Proof.
  intros Hb. induction xs as [|x xs IH]; intros s; cbn.
  - apply maintains_ret.
  - apply maintains_bind; [apply Hb | intros s'; apply IH].
Qed.
End Maintains.

(** *** The outage side leaves the runners alone *)

Lemma runnersUntouched_refl (w : World) : runnersUntouched w w.
Proof.
  split; [reflexivity|]. exists []. split; [now rewrite app_nil_r | reflexivity].
Qed.

Lemma runnersUntouched_trans (a b c : World) :
  runnersUntouched a b -> runnersUntouched b c -> runnersUntouched a c.
Proof.
  intros [H1 [e1 [T1 F1]]] [H2 [e2 [T2 F2]]]. split; [congruence|].
  exists (e1 ++ e2). split.
  - rewrite T2, T1. now rewrite app_assoc.
  - rewrite forallb_app. now rewrite F1, F2.
Qed.

Lemma runnersUntouched_event (w w' : World) (e : Event) :
  runners w' = runners w -> trace w' = trace w ++ [e] -> isPutRunner e = false ->
  runnersUntouched w w'.
Proof.
  intros H1 H2 H3. split; [exact H1|]. exists [e]. split; [exact H2|].
  cbn. now rewrite H3.
Qed.

Lemma runnersUntouched_silent (w w' : World) :
  runners w' = runners w -> trace w' = trace w -> runnersUntouched w w'.
Proof.
  intros H1 H2. split; [exact H1|]. exists []. split; [|reflexivity].
  now rewrite app_nil_r.
Qed.

Lemma dateNow_runnersUntouched (env : Env) : maintains runnersUntouched (dateNow env).
Proof. intros w. now apply runnersUntouched_silent. Qed.

Lemma putOutage_runnersUntouched (o : OutageEvent.t) :
  maintains runnersUntouched (putOutage o).
Proof. intros w. eapply runnersUntouched_event; reflexivity. Qed.

Lemma axiosPost_runnersUntouched (env : Env) (url : option string) (m : SlackMessage) :
  maintains runnersUntouched (axiosPost env url m).
Proof. intros w. eapply runnersUntouched_event; reflexivity. Qed.

Lemma consoleError_runnersUntouched (e : Error) :
  maintains runnersUntouched (consoleError e).
Proof. intros w. eapply runnersUntouched_event; reflexivity. Qed.

Lemma handleUnhealthyRunner_runnersUntouched (env : Env) (r : Runner.t)
    (s : RunnerStatus) (hook : option string) :
  maintains runnersUntouched (handleUnhealthyRunner env r s hook).
Proof.
  intros w. rewrite handleUnhealthyRunner_run. cbn. split; [reflexivity|].
  eexists. split; [reflexivity|]. cbn. now destruct (postOk env (posts w)).
Qed.

Lemma resolveOutage_runnersUntouched (env : Env) (repoId : string) (runnerId : Z) :
  maintains runnersUntouched (resolveOutage env repoId runnerId).
Proof.
  intros w. unfold resolveOutage.
  destruct (latest _) as [item|]; [|apply runnersUntouched_refl].
  destruct (negb (negb _)); [|apply runnersUntouched_refl].
  apply (maintains_bind _ runnersUntouched_trans);
    [apply dateNow_runnersUntouched | intros t].
  apply (maintains_bind _ runnersUntouched_trans);
    [apply putOutage_runnersUntouched | intros _].
  apply (maintains_ret _ runnersUntouched_refl).
Qed.

(** What follows the put of the runner in the update path. *)
Lemma update_tail_runnersUntouched (env : Env) (repoId : string)
    (hook : option string) (g : GitHubRunner.t) (r' : Runner.t)
    (b1 b2 : bool) {S : Type} (s : S) :
  maintains runnersUntouched
    (when b1 (handleUnhealthyRunner env r' (mapGitHubStatus g) hook) ;;;
     when b2
       (outageId <- resolveOutage env repoId (GitHubRunner.id g) ;;
        when (truthy hook)
          (sendSlackRecoveryNotification env hook r' (mapGitHubStatus g) outageId)) ;;;
     ret s).
Proof.
  apply (maintains_bind _ runnersUntouched_trans).
  { apply (maintains_when _ runnersUntouched_refl),
      handleUnhealthyRunner_runnersUntouched. }
  intros _. apply (maintains_bind _ runnersUntouched_trans).
  { apply (maintains_when _ runnersUntouched_refl).
    apply (maintains_bind _ runnersUntouched_trans);
      [apply resolveOutage_runnersUntouched | intros oid].
    apply (maintains_when _ runnersUntouched_refl).
    apply axiosPost_runnersUntouched. }
  intros _. apply (maintains_ret _ runnersUntouched_refl).
Qed.

Lemma create_tail_runnersUntouched (env : Env) (hook : option string)
    (n : Runner.t) (st : RunnerStatus) (b : bool) {S : Type} (s : S) :
  maintains runnersUntouched
    (when b (handleUnhealthyRunner env n st hook) ;;; ret s).
Proof.
  apply (maintains_bind _ runnersUntouched_trans).
  { apply (maintains_when _ runnersUntouched_refl),
      handleUnhealthyRunner_runnersUntouched. }
  intros _. apply (maintains_ret _ runnersUntouched_refl).
Qed.

(** After the put of the runner [r], the rest of the loop body leaves the
    runners alone: the table holds [r] and the only runner written is [r]. *)
Lemma after_put_runner (r : Runner.t) (w w' : World) :
  runnersUntouched (afterPutRunner r w) w' ->
  runners w' = putRunnerItem r (runners w)
  /\ exists evs, newEvents w w' = EvPutRunner r :: evs
                 /\ forallb (fun e => negb (isPutRunner e)) evs = true.
Proof.
  intros [H1 [evs [H2 H3]]]. split; [exact H1|].
  exists evs. split; [|exact H3].
  apply newEvents_app. rewrite H2. cbn. now rewrite <- app_assoc.
Qed.

Lemma after_put_runner_notick (r : Runner.t) (w w' : World) :
  runnersUntouched
    (mkWorld (repositories w) (putRunnerItem r (runners w)) (outages w)
             (ticks w) (posts w) (fetches w) (trace w ++ [EvPutRunner r])) w' ->
  runners w' = putRunnerItem r (runners w)
  /\ exists evs, newEvents w w' = EvPutRunner r :: evs
                 /\ forallb (fun e => negb (isPutRunner e)) evs = true.
Proof.
  intros [H1 [evs [H2 H3]]]. split; [exact H1|].
  exists evs. split; [|exact H3].
  apply newEvents_app. rewrite H2. cbn. now rewrite <- app_assoc.
Qed.

Lemma reconcileRunner_runners (env : Env) (repoId : string) (hook : option string)
    (g : GitHubRunner.t) (ers : list Runner.t) (ids : list Z) (w : World) :
  let r := match findRunner (GitHubRunner.id g) ers with
           | Some e => updatedRunner e g (clock env (ticks w))
           | None => createdRunner repoId g (clock env (ticks w))
           end in
  let w' := snd (reconcileRunner env repoId hook g (ers, ids) w) in
  runners w' = putRunnerItem r (runners w)
  /\ exists evs, newEvents w w' = EvPutRunner r :: evs
                 /\ forallb (fun e => negb (isPutRunner e)) evs = true.
Proof.
  cbv zeta. destruct (findRunner (GitHubRunner.id g) ers) as [e|] eqn:F.
  - rewrite (reconcileRunner_found _ _ _ _ _ _ _ _ F). cbv zeta.
    apply after_put_runner. apply update_tail_runnersUntouched.
  - rewrite (reconcileRunner_new _ _ _ _ _ _ _ F). cbv zeta.
    apply after_put_runner. apply create_tail_runnersUntouched.
Qed.

(** ** The sweep of one runner *)

Lemma sweepRunner_unswept (env : Env) (hook : option string) (ids : list Z)
    (e : Runner.t) (w : World) :
  swept ids e = false -> sweepRunner env hook ids e w = (Returned e, w).
Proof.
  unfold swept, sweepRunner. intros H.
  destruct (negb (has ids (Runner.runnerId e))); [|reflexivity].
  cbn in H. now rewrite H.
Qed.

Lemma sweepRunner_swept (env : Env) (hook : option string) (ids : list Z)
    (e : Runner.t) (w : World) :
  swept ids e = true ->
  let e' := Runner.withStatus RunnerStatus_UNKNOWN e in
  let w1 := mkWorld (repositories w) (putRunnerItem e' (runners w)) (outages w)
                    (ticks w) (posts w) (fetches w) (trace w ++ [EvPutRunner e']) in
  sweepRunner env hook ids e w =
  if negb (unhealthy (Runner.status e)) && truthy hook
  then (Returned e', snd (handleUnhealthyRunner env e' RunnerStatus_UNKNOWN hook w1))
  else (Returned e', w1).
Proof.
  unfold swept, sweepRunner. intros H. apply andb_true_iff in H. destruct H as [H1 H2].
  rewrite H1, H2. cbv zeta. unfold bind at 1. unfold putRunner at 1.
  unfold unhealthy.
  destruct (negb (includes UNHEALTHY_STATUSES (Runner.status e)) && truthy hook);
    cbn [when].
  - unfold bind. rewrite handleUnhealthyRunner_run. reflexivity.
  - reflexivity.
Qed.

Lemma sweepRunner_returns (env : Env) (hook : option string) (ids : list Z)
    (e : Runner.t) (w : World) :
  fst (sweepRunner env hook ids e w)
  = Returned (if swept ids e then Runner.withStatus RunnerStatus_UNKNOWN e else e).
Proof.
  destruct (swept ids e) eqn:S.
  - rewrite (sweepRunner_swept _ _ _ _ _ S). cbv zeta.
    now destruct (negb _ && _).
  - now rewrite (sweepRunner_unswept _ _ _ _ _ S).
Qed.

(** The sweep of one runner writes at most that runner, with the status
    changed and nothing else. *)
Lemma sweepRunner_effect (env : Env) (hook : option string) (ids : list Z)
    (e : Runner.t) (w : World) :
  let w' := snd (sweepRunner env hook ids e w) in
  if swept ids e then
    runners w' = putRunnerItem (Runner.withStatus RunnerStatus_UNKNOWN e) (runners w)
    /\ exists evs,
         newEvents w w' = EvPutRunner (Runner.withStatus RunnerStatus_UNKNOWN e) :: evs
         /\ forallb (fun e => negb (isPutRunner e)) evs = true
  else w' = w.
Proof.
  cbv zeta. destruct (swept ids e) eqn:S.
  - rewrite (sweepRunner_swept _ _ _ _ _ S). cbv zeta.
    destruct (negb _ && _); cbn [snd].
    + apply after_put_runner_notick.
      apply handleUnhealthyRunner_runnersUntouched.
    + split; [reflexivity|]. exists []. split; [|reflexivity].
      apply newEvents_app. reflexivity.
  - now rewrite (sweepRunner_unswept _ _ _ _ _ S).
Qed.

Lemma sweep_returns (env : Env) (hook : option string) (ids : list Z)
    (ers : list Runner.t) (w : World) :
  fst (sweep env hook ids ers w)
  = Returned (map (fun e => if swept ids e
                            then Runner.withStatus RunnerStatus_UNKNOWN e else e) ers).
Proof.
  revert w. induction ers as [|e ers IH]; intros w; cbn; [reflexivity|].
  unfold bind at 1. pose proof (sweepRunner_returns env hook ids e w) as H.
  destruct (sweepRunner env hook ids e w) as [[e'|err] w1]; cbn in H; [|discriminate].
  injection H as ->. unfold bind. specialize (IH w1).
  destruct (sweep env hook ids ers w1) as [[rs|err] w2]; cbn in IH; [|discriminate].
  injection IH as ->. reflexivity.
Qed.

Lemma no_putRunner_In (evs : list Event) (r : Runner.t) :
  forallb (fun e => negb (isPutRunner e)) evs = true -> ~ In (EvPutRunner r) evs.
Proof.
  intros H Hin. rewrite forallb_forall in H. specialize (H _ Hin). discriminate H.
Qed.

(** ** The handler *)

Lemma repository_step_returns (env : Env) (p : Params) (repo : string) (w : World) :
  fst (tryCatch (processRepository env p repo)
                (fun repoError => consoleError repoError) w) = Returned tt.
Proof.
  unfold tryCatch. destruct (processRepository env p repo w) as [[[]|e] w1]; reflexivity.
Qed.

Lemma repositories_loop_returns (env : Env) (p : Params) (repos : list string)
    (w : World) :
  fst (forEach (fun repo (_ : unit) =>
                  tryCatch (processRepository env p repo)
                           (fun repoError => consoleError repoError))
               repos tt w) = Returned tt.
Proof.
  revert w. induction repos as [|repo repos IH]; intros w; cbn; [reflexivity|].
  unfold bind. pose proof (repository_step_returns env p repo w) as H.
  destruct (tryCatch _ _ w) as [[[]|e] w1]; cbn in H; [|discriminate].
  apply IH.
Qed.

(** With its parameters read, the handler reports success whatever happens
    inside the repositories. *)
Lemma handler_200 (env : Env) (p : Params) (storeId : Z) (repos : list string)
    (w : World) :
  statelydbStoreId p = Some storeId ->
  repositoriesParam p = Some repos ->
  fst (handler env (Some p) w)
  = Returned (mkResponse 200 "GitHub runner monitoring completed successfully").
Proof.
  intros Hs Hr. unfold handler, tryCatch. rewrite Hs, Hr. unfold bind.
  pose proof (repositories_loop_returns env p repos w) as H.
  destruct (forEach _ repos tt w) as [[[]|e] w1]; cbn in H; [|discriminate].
  reflexivity.
Qed.

(** ** The repository identifier *)

Lemma split_nonempty (sep : ascii) (s : string) : split sep s <> [].
Proof.
  destruct s as [|c s]; cbn; [discriminate|].
  destruct (Ascii.eqb c sep); [discriminate|].
  destruct (split sep s); discriminate.
Qed.

Lemma split_noSlash (s : string) : noSlash s = true -> split "/" s = [s].
Proof.
  induction s as [|c s IH]; cbn; [reflexivity|].
  intros H. apply andb_true_iff in H. destruct H as [Hc Hs].
  apply negb_true_iff in Hc. rewrite Hc, (IH Hs). reflexivity.
Qed.

Lemma split_owner (o rest : string) :
  noSlash o = true ->
  split "/" (o ++ String "/" rest) = o :: split "/" rest.
Proof.
  induction o as [|c o IH]; cbn.
  - reflexivity.
  - intros H. apply andb_true_iff in H. destruct H as [Hc Ho].
    apply negb_true_iff in Hc. rewrite Hc, (IH Ho). reflexivity.
Qed.

Lemma repoIdOf_name (o n : string) :
  noSlash o = true -> noSlash n = true ->
  ownerOf (o ++ String "/" n) = Some o /\ repoIdOf (o ++ String "/" n) = Some n.
Proof.
  intros Ho Hn. unfold repoIdOf, nameOf, ownerOf.
  rewrite (split_owner o n Ho), (split_noSlash n Hn). split; reflexivity.
Qed.

(** ** Relations maintained by the whole pass *)

Section PassMaintains.
Variable env : Env.
Variable R : World -> World -> Prop.
Hypothesis R_refl : forall w, R w w.
Hypothesis R_trans : forall a b c, R a b -> R b c -> R a c.
Hypothesis R_now : maintains R (dateNow env).
Hypothesis R_putRunner : forall r, maintains R (putRunner r).
Hypothesis R_open :
  forall r s hook, maintains R (handleUnhealthyRunner env r s hook).
Hypothesis R_resolve :
  forall repoId id, maintains R (resolveOutage env repoId id).
Hypothesis R_recovery :
  forall hook r s oid, maintains R (sendSlackRecoveryNotification env hook r s oid).

Lemma reconcileRunner_maintains (repoId : string) (hook : option string)
    (g : GitHubRunner.t) (st : list Runner.t * list Z) :
  maintains R (reconcileRunner env repoId hook g st).
Proof.
  unfold reconcileRunner.
  destruct (findRunner (GitHubRunner.id g) (fst st)) as [e|].
  - apply (maintains_bind R R_trans); [apply R_now | intros t].
    apply (maintains_bind R R_trans); [apply R_putRunner | intros _].
    apply (maintains_bind R R_trans);
      [apply (maintains_when R R_refl), R_open | intros _].
    apply (maintains_bind R R_trans); [|intros _; apply (maintains_ret R R_refl)].
    apply (maintains_when R R_refl).
    apply (maintains_bind R R_trans); [apply R_resolve | intros oid].
    apply (maintains_when R R_refl), R_recovery.
  - apply (maintains_bind R R_trans); [apply R_now | intros t].
    apply (maintains_bind R R_trans); [apply R_putRunner | intros _].
    apply (maintains_bind R R_trans);
      [apply (maintains_when R R_refl), R_open | intros _].
    apply (maintains_ret R R_refl).
Qed.

Lemma sweepRunner_maintains (hook : option string) (ids : list Z) (e : Runner.t) :
  maintains R (sweepRunner env hook ids e).
Proof.
  unfold sweepRunner.
  destruct (negb (has ids (Runner.runnerId e))); [|apply (maintains_ret R R_refl)].
  destruct (negb (status_eqb _ _)); [|apply (maintains_ret R R_refl)].
  apply (maintains_bind R R_trans); [apply R_putRunner | intros _].
  apply (maintains_bind R R_trans);
    [apply (maintains_when R R_refl), R_open | intros _].
  apply (maintains_ret R R_refl).
Qed.

Lemma sweep_maintains (hook : option string) (ids : list Z) (ers : list Runner.t) :
  maintains R (sweep env hook ids ers).
Proof.
  induction ers as [|e ers IH]; cbn; [apply (maintains_ret R R_refl)|].
  apply (maintains_bind R R_trans); [apply sweepRunner_maintains | intros e'].
  apply (maintains_bind R R_trans); [apply IH | intros rs].
  apply (maintains_ret R R_refl).
Qed.

Lemma reconcile_maintains (repoId : string) (hook : option string)
    (rs : list GitHubRunner.t) :
  maintains R (reconcile env repoId hook rs).
Proof.
  unfold reconcile.
  apply (maintains_bind R R_trans); [intros w; apply R_refl | intros ers].
  apply (maintains_bind R R_trans).
  - apply (maintains_forEach R R_refl R_trans). intros g st.
    apply reconcileRunner_maintains.
  - intros st. apply sweep_maintains.
Qed.

Hypothesis R_putRepository : forall r, maintains R (putRepository r).
Hypothesis R_fetch : forall repo, maintains R (fetchGitHubRunners env repo).
Hypothesis R_error : forall e, maintains R (consoleError e).

Lemma reconcileRunnerUndefined_maintains (hook : option string)
    (g : GitHubRunner.t) (st : list Runner.t * list Z) :
  maintains R (reconcileRunnerUndefined env hook g st).
Proof.
  unfold reconcileRunnerUndefined.
  destruct (findRunner (GitHubRunner.id g) (fst st)) as [e|].
  - apply reconcileRunner_maintains.
  - apply (maintains_bind R R_trans); [apply R_now | intros t].
    apply (maintains_throw R R_refl).
Qed.

Lemma reconcileUndefined_maintains (hook : option string) (rs : list GitHubRunner.t) :
  maintains R (reconcileUndefined env hook rs).
Proof.
  unfold reconcileUndefined.
  apply (maintains_bind R R_trans); [intros w; apply R_refl | intros ers].
  apply (maintains_bind R R_trans).
  - apply (maintains_forEach R R_refl R_trans). intros g st.
    apply reconcileRunnerUndefined_maintains.
  - intros st. apply sweep_maintains.
Qed.

Lemma processRepositoryUndefined_maintains (p : Params) (repo : string) :
  maintains R (processRepositoryUndefined env p repo).
Proof.
  unfold processRepositoryUndefined.
  apply (maintains_bind R R_trans); [intros w; apply R_refl | intros r].
  apply (maintains_bind R R_trans).
  - destruct r as [stored|];
      (apply (maintains_bind R R_trans); [apply R_now | intros ts]);
      [apply R_putRepository | apply (maintains_throw R R_refl)].
  - intros _. apply (maintains_bind R R_trans); [apply R_fetch | intros rs].
    apply (maintains_bind R R_trans); [apply reconcileUndefined_maintains | intros ers].
    apply (maintains_ret R R_refl).
Qed.

Lemma processRepository_maintains (p : Params) (repo : string) :
  maintains R (processRepository env p repo).
Proof.
  unfold processRepository.
  destruct (ownerOf repo) as [owner|];
    [|apply processRepositoryUndefined_maintains].
  destruct (nameOf repo) as [name|];
    [|apply processRepositoryUndefined_maintains].
  apply (maintains_bind R R_trans); [intros w; apply R_refl | intros r].
  apply (maintains_bind R R_trans).
  - destruct r as [stored|];
      (apply (maintains_bind R R_trans); [apply R_now | intros ts; apply R_putRepository]).
  - intros _. apply (maintains_bind R R_trans); [apply R_fetch | intros rs].
    apply (maintains_bind R R_trans); [apply reconcile_maintains | intros ers].
    apply (maintains_ret R R_refl).
Qed.

Lemma handler_maintains (p : option Params) : maintains R (handler env p).
Proof.
  unfold handler. apply (maintains_tryCatch R R_trans).
  - destruct p as [p|]; [|apply (maintains_throw R R_refl)].
    destruct (statelydbStoreId p) as [storeId|]; [|apply (maintains_throw R R_refl)].
    destruct (repositoriesParam p) as [repos|]; [|apply (maintains_throw R R_refl)].
    apply (maintains_bind R R_trans); [|intros _; apply (maintains_ret R R_refl)].
    apply (maintains_forEach R R_refl R_trans). intros repo [].
    apply (maintains_tryCatch R R_trans);
      [apply processRepository_maintains | apply R_error].
  - intros e. apply (maintains_bind R R_trans);
      [apply R_error | intros _; apply (maintains_ret R R_refl)].
Qed.
End PassMaintains.

(** *** The reconciliation leaves the repository records alone *)

Lemma sameRepositories_trans (a b c : World) :
  sameRepositories a b -> sameRepositories b c -> sameRepositories a c.
Proof. unfold sameRepositories. congruence. Qed.

Lemma reconcile_sameRepositories (env : Env) (repoId : string)
    (hook : option string) (rs : list GitHubRunner.t) :
  maintains sameRepositories (reconcile env repoId hook rs).
Proof.
  apply (reconcile_maintains env sameRepositories
           (fun w => eq_refl) sameRepositories_trans).
  - intros w. reflexivity.
  - intros r w. reflexivity.
  - intros r s hook' w. now rewrite handleUnhealthyRunner_run.
  - intros repo id w. unfold resolveOutage.
    destruct (latest _); [destruct (negb (negb _))|]; reflexivity.
  - intros hook' r s oid w. reflexivity.
Qed.

(** ** The transitions of a stored runner *)

(** C3. When a stored runner is observed in the fetch and its prior status
    is healthy: if the new status is unhealthy, the step stores exactly one
    new outage event, under a key that was not stored, first with
    [notificationSent = false] and [resolvedAt] unset and only then posts
    the alert; if the new status is healthy, no outage event is written. *)
Theorem healthy_to_unhealthy_opens_one
    (env : Env) (repoId : string) (slackWebhook : option string)
    (g : GitHubRunner.t) (existingRunners : list Runner.t) (processed : list Z)
    (w : World) (existing : Runner.t) :
  findRunner (GitHubRunner.id g) existingRunners = Some existing ->
  unhealthy (Runner.status existing) = false ->
  let run := reconcileRunner env repoId slackWebhook g (existingRunners, processed) w in
  let r' := updatedRunner existing g (clock env (ticks w)) in
  let o := openedOutage r' (mapGitHubStatus g) (clock env (S (ticks w))) (outages w) in
  let ok := postOk env (posts w) in
  fst run = Returned (assignFound (GitHubRunner.id g) r' existingRunners,
                      GitHubRunner.id g :: processed)
  /\ if unhealthy (mapGitHubStatus g) then
       newEvents w (snd run) = EvPutRunner r' :: openEvents slackWebhook o ok
       /\ OutageEvent.notificationSent o = false
       /\ OutageEvent.resolvedAt o = 0
       /\ OutageEvent.status o = mapGitHubStatus g
       /\ OutageEvent.runnerId o = Runner.runnerId existing
       /\ (forall x, In x (outages w) -> outageKey x <> outageKey o)
       /\ (forall x, In x (outages (snd run))
                     <-> x = OutageEvent.withNotificationSent ok o \/ In x (outages w))
       /\ List.length (outages (snd run)) = S (List.length (outages w))
     else
       newEvents w (snd run) = [EvPutRunner r']
       /\ outages (snd run) = outages w.
Proof.
  intros Hfind Hold run r' o ok. subst run.
  rewrite (reconcileRunner_found _ _ _ _ _ _ _ _ Hfind). cbv zeta. fold r'.
  rewrite Hold, andb_false_r.
  destruct (unhealthy (mapGitHubStatus g)) eqn:Hnew.
  - assert (Hne : status_eqb (mapGitHubStatus g) (Runner.status existing) = false).
    { destruct (status_eqb _ _) eqn:E; [|reflexivity].
      apply status_eqb_eq in E. congruence. }
    rewrite Hne. cbn [andb negb when].
    unfold bind. rewrite handleUnhealthyRunner_run. cbn.
    fold o ok.
    assert (Hfresh : forall x, In x (outages w) -> outageKey x <> outageKey o)
      by (intros x Hx; now apply openedOutage_fresh).
    split; [reflexivity|]. split.
    { apply newEvents_app. cbn. rewrite <- app_assoc. reflexivity. }
    repeat split; try reflexivity; try assumption.
    + apply In_outages_opened; [reflexivity | exact Hfresh].
    + apply In_outages_opened; [reflexivity | exact Hfresh].
    + apply length_outages_opened. exact Hfresh.
  - cbn [andb negb when].
    unfold bind, ret. cbn. split; [reflexivity|]. split; [|reflexivity].
    apply newEvents_app. reflexivity.
Qed.

Lemma healthy_to_unhealthy_opens_one_witness :
  List.length
    (outages (snd (reconcileRunner env0 "ci" hook (ghA "offline" false)
                     ([storedA RunnerStatus_IDLE], [])
                     (worldOf [storedA RunnerStatus_IDLE] []))))
  = 1%nat.
Proof.
  pose proof (healthy_to_unhealthy_opens_one env0 "ci" hook (ghA "offline" false)
                [storedA RunnerStatus_IDLE] []
                (worldOf [storedA RunnerStatus_IDLE] [])
                (storedA RunnerStatus_IDLE) eq_refl eq_refl) as T.
  exact (proj2 (proj2 (proj2 (proj2 (proj2 (proj2 (proj2 (proj2 T)))))))).
Defined.

(** C4. [resolveOutage] looks at the latest event of the runner's history
    only, the one with the greatest [outageId]. If that event is open, the
    clock is read once, the event is stored again with [resolvedAt] equal
    to that reading and every other field as it was, and its [outageId] is
    returned, every other stored event staying as it was; if it is
    resolved, or the history is empty, nothing is written, the clock is not
    read and 0 is returned. *)
Theorem resolveOutage_latest_only
    (env : Env) (repoId : string) (runnerId : Z) (w : World) :
  (forall o, In o (outages w) -> 0 < OutageEvent.outageId o) ->
  let run := resolveOutage env repoId runnerId w in
  match latest (historyOf repoId runnerId (outages w)) with
  | Some item =>
      (forall o, In o (historyOf repoId runnerId (outages w)) ->
                 OutageEvent.outageId o <= OutageEvent.outageId item)
      /\ if isOpen item then
           let item' :=
             OutageEvent.mk (OutageEvent.outageId item) (OutageEvent.repoId item)
               (OutageEvent.runnerId item) (OutageEvent.runnerName item)
               (OutageEvent.status item) (OutageEvent.startedAt item)
               (clock env (ticks w))
               (OutageEvent.description item) (OutageEvent.notificationSent item) in
           fst run = Returned (OutageEvent.outageId item)
           /\ newEvents w (snd run) = [EvPutOutage item']
           /\ tableGet outageKey cmpOutageKey (outageKey item) (outages (snd run))
              = Some item'
           /\ ticks (snd run) = S (ticks w)
           /\ (forall x, In x (outages (snd run))
                         <-> x = item' \/ (In x (outages w) /\ outageKey x <> outageKey item))
         else run = (Returned 0, w)
  | None => run = (Returned 0, w)
  end.
Proof.
  intros Hids run. subst run.
  destruct (latest (historyOf repoId runnerId (outages w))) as [item|] eqn:L.
  - split; [apply (latest_max _ _ L)|].
    destruct (isOpen item) eqn:Ho.
    + assert (Hin : In item (outages w)).
      { apply latest_In in L. apply In_historyOf in L. tauto. }
      assert (Hid : OutageEvent.outageId item <> 0)
        by (specialize (Hids item Hin); lia).
      rewrite (resolveOutage_open env _ _ _ _ L Ho Hid). cbn.
      split; [reflexivity|]. split; [apply newEvents_app; reflexivity|].
      split.
      * exact (tableGet_tablePut outageKey cmpOutageKey
                 (OutageEvent.withResolvedAt (clock env (ticks w)) item)
                 (outages w) cmpOutageKey_eq).
      * split; [reflexivity|]. intros x.
        exact (In_putOutageItem (OutageEvent.withResolvedAt (clock env (ticks w)) item)
                 x (outages w)).
    + apply resolveOutage_noop. unfold noOpenOutage. now rewrite L, Ho.
  - apply resolveOutage_noop. unfold noOpenOutage. now rewrite L.
Qed.

Lemma resolveOutage_latest_only_witness :
  fst (resolveOutage env0 "ci" 1 worldTwoOutages) = Returned 2
  /\ newEvents worldTwoOutages (snd (resolveOutage env0 "ci" 1 worldTwoOutages))
     = [EvPutOutage (outageA 2 RunnerStatus_OFFLINE 1000)]
  /\ tableGet outageKey cmpOutageKey ("ci", (1, 2))
       (outages (snd (resolveOutage env0 "ci" 1 worldTwoOutages)))
     = Some (outageA 2 RunnerStatus_OFFLINE 1000)
  /\ In (outageA 1 RunnerStatus_OFFLINE 960)
        (outages (snd (resolveOutage env0 "ci" 1 worldTwoOutages))).
Proof.
  assert (H : forall o, In o (outages worldTwoOutages) -> 0 < OutageEvent.outageId o).
  { intros o [<- | [<- | []]]; cbn; lia. }
  pose proof (resolveOutage_latest_only env0 "ci" 1 worldTwoOutages H) as T.
  destruct T as [_ [T1 [T2 [T3 [_ T5]]]]].
  split; [exact T1|]. split; [exact T2|]. split; [exact T3|].
  apply T5. right. split; [cbn; auto | cbn; intros E; discriminate E].
Defined.

(** C10. When a stored runner goes from an unhealthy to a healthy status
    and [resolveOutage] finds no open outage (the latest event of the
    history is resolved, or there is no history), [resolveOutage] writes
    nothing and returns 0, and with a configured webhook the recovery
    message is posted all the same, carrying outage identifier 0. *)
Theorem recovery_without_open_outage
    (env : Env) (repoId : string) (slackWebhook : option string)
    (g : GitHubRunner.t) (existingRunners : list Runner.t) (processed : list Z)
    (w : World) (existing : Runner.t) :
  findRunner (GitHubRunner.id g) existingRunners = Some existing ->
  unhealthy (Runner.status existing) = true ->
  unhealthy (mapGitHubStatus g) = false ->
  noOpenOutage repoId (GitHubRunner.id g) (outages w) = true ->
  truthy slackWebhook = true ->
  let run := reconcileRunner env repoId slackWebhook g (existingRunners, processed) w in
  let r' := updatedRunner existing g (clock env (ticks w)) in
  let ok := postOk env (posts w) in
  resolveOutage env repoId (GitHubRunner.id g) (afterPutRunner r' w)
    = (Returned 0, afterPutRunner r' w)
  /\ outages (snd run) = outages w
  /\ newEvents w (snd run)
     = [EvPutRunner r'; EvPost slackWebhook (recoveryOf r' (mapGitHubStatus g) 0) ok]
  /\ fst run = if ok
               then Returned (assignFound (GitHubRunner.id g) r' existingRunners,
                              GitHubRunner.id g :: processed)
               else Thrown PostError.
Proof.
  intros Hfind Hold Hnew Hno Hhook run r' ok. subst run.
  assert (Hres : resolveOutage env repoId (GitHubRunner.id g) (afterPutRunner r' w)
                 = (Returned 0, afterPutRunner r' w))
    by (apply resolveOutage_noop; exact Hno).
  split; [exact Hres|].
  assert (Hrun :
    reconcileRunner env repoId slackWebhook g (existingRunners, processed) w =
    (if ok then Returned (assignFound (GitHubRunner.id g) r' existingRunners,
                          GitHubRunner.id g :: processed)
     else Thrown PostError,
     mkWorld (repositories w) (putRunnerItem r' (runners w)) (outages w)
       (S (ticks w)) (S (posts w)) (fetches w)
       (trace w ++ [EvPutRunner r';
                    EvPost slackWebhook (recoveryOf r' (mapGitHubStatus g) 0) ok]))).
  { rewrite (reconcileRunner_found _ _ _ _ _ _ _ _ Hfind). cbv zeta. fold r'.
    rewrite Hold, Hnew, Hhook. cbn [andb negb when].
    unfold bind at 1. unfold ret at 1. unfold bind at 1. unfold bind at 1.
    rewrite Hres.
    unfold sendSlackRecoveryNotification, axiosPost, bind, ret. cbn.
    fold ok. fold (recoveryOf r' (mapGitHubStatus g) 0).
    rewrite <- app_assoc. destruct ok; reflexivity. }
  rewrite Hrun. cbn [fst snd outages].
  split; [reflexivity|]. split; [|reflexivity].
  apply newEvents_app. reflexivity.
Qed.

Lemma recovery_without_open_outage_witness :
  newEvents (worldOf [storedA RunnerStatus_OFFLINE] [])
    (snd (reconcileRunner env0 "ci" hook (ghA "online" false)
            ([storedA RunnerStatus_OFFLINE], [])
            (worldOf [storedA RunnerStatus_OFFLINE] [])))
  = [EvPutRunner (updatedRunner (storedA RunnerStatus_OFFLINE) (ghA "online" false) 1000);
     EvPost hook (mkSlackMessage Recovery "ci" "A" "Idle" 0) true].
Proof.
  pose proof (recovery_without_open_outage env0 "ci" hook (ghA "online" false)
                [storedA RunnerStatus_OFFLINE] []
                (worldOf [storedA RunnerStatus_OFFLINE] [])
                (storedA RunnerStatus_OFFLINE)
                eq_refl eq_refl eq_refl eq_refl eq_refl) as T.
  exact (proj1 (proj2 (proj2 T))).
Defined.

(** ** Observation, creation and sweep *)

(** C7. The code does not keep [lastSeenAt] out of the sweep's reach.
    Runner A is stored with id 1 and [lastSeenAt] 900; it was removed and
    registered again, and the fetch reports id 7 under the same name. No
    stored runner has id 7, so the first loop creates the observed runner
    and stores it under the name, with [lastSeenAt] set to the clock
    reading 1000. The sweep then finds the object of id 1 unprocessed and
    puts it, with status UNKNOWN, under the same key: in that sweep step
    the [lastSeenAt] stored for the name goes from 1000 back to 900, and
    the runner that this fetch reported ends the reconciliation, and the
    handler's pass, without a record. *)
Theorem sweep_overwrites_observed_lastSeenAt :
  let diff := reconcileRunner env0 "ci" hook ghA7
                ([storedA RunnerStatus_IDLE], []) reRegistered in
  let swept := sweepRunner env0 hook [7] (storedA RunnerStatus_IDLE) (snd diff) in
  storedLastSeenAt "ci" "A" reRegistered = Some 900
  /\ fst (fetchExistingRunners "ci" reRegistered)
     = Returned [storedA RunnerStatus_IDLE]
  /\ findRunner (GitHubRunner.id ghA7) [storedA RunnerStatus_IDLE] = None
  /\ fst diff = Returned ([storedA RunnerStatus_IDLE], [7])
  /\ tableGet runnerKey cmpRunnerKey ("ci", "A") (runners (snd diff))
     = Some (Runner.mk 7 "ci" "A" RunnerStatus_OFFLINE true "linux"
               [mkLabel "self-hosted"] 1000 1000)
  /\ storedLastSeenAt "ci" "A" (snd diff) = Some 1000
  /\ has [7] (Runner.runnerId (storedA RunnerStatus_IDLE)) = false
  /\ fst swept
     = Returned (Runner.mk 1 "ci" "A" RunnerStatus_UNKNOWN true "linux"
                   [mkLabel "self-hosted"] 900 900)
  /\ storedLastSeenAt "ci" "A" (snd swept) = Some 900
  /\ runners (snd swept)
     = [Runner.mk 1 "ci" "A" RunnerStatus_UNKNOWN true "linux"
          [mkLabel "self-hosted"] 900 900]
  /\ snd (reconcile env0 "ci" hook [ghA7] reRegistered) = snd swept
  /\ runners (snd (handler envReRegistered (Some paramsCi) reRegistered))
     = [Runner.mk 1 "ci" "A" RunnerStatus_UNKNOWN true "linux"
          [mkLabel "self-hosted"] 900 900]
  /\ findRunner 7 (runners (snd (handler envReRegistered (Some paramsCi) reRegistered)))
     = None.
Proof. vm_compute. repeat split. Qed.


(** C2, as stated, fails: a new runner that is reported offline while no
    webhook is configured is stored, but no outage event is opened for it. *)
Lemma new_unhealthy_runner_without_webhook :
  findRunner (GitHubRunner.id (ghA "offline" false)) [] = None
  /\ unhealthy (mapGitHubStatus (ghA "offline" false)) = true
  /\ slackWebhook paramsNoHook = None
  /\ outages (snd (reconcileRunner env0 "ci" (slackWebhook paramsNoHook)
                     (ghA "offline" false) ([], []) emptyWorld)) = []
  /\ newEvents emptyWorld
       (snd (reconcileRunner env0 "ci" (slackWebhook paramsNoHook)
               (ghA "offline" false) ([], []) emptyWorld))
     = [EvPutRunner (createdRunner "ci" (ghA "offline" false) 1000)].
Proof. repeat split. Qed.

(** C2, amended. A reported runner without a stored match is stored with
    [firstSeenAt] and [lastSeenAt] both set to the clock reading. When its
    status is unhealthy and a webhook is configured, one outage event is
    opened under a fresh key and the alert is posted; when its status is
    healthy or no webhook is configured, no outage event is written and
    nothing is posted. The step returns in either case, and the handler
    reports success. *)
Theorem new_runner_created_and_opened_with_webhook
    (env : Env) (repoId : string) (p : Params) (storeId : Z)
    (repositories : list string)
    (g : GitHubRunner.t) (existingRunners : list Runner.t) (processed : list Z)
    (w w0 : World) :
  findRunner (GitHubRunner.id g) existingRunners = None ->
  statelydbStoreId p = Some storeId ->
  repositoriesParam p = Some repositories ->
  let run := reconcileRunner env repoId (slackWebhook p) g (existingRunners, processed) w in
  let now := clock env (ticks w) in
  let n := createdRunner repoId g now in
  let o := openedOutage n (mapGitHubStatus g) (clock env (S (ticks w))) (outages w) in
  let ok := postOk env (posts w) in
  fst run = Returned (existingRunners, GitHubRunner.id g :: processed)
  /\ Runner.firstSeenAt n = now /\ Runner.lastSeenAt n = now
  /\ In n (runners (snd run))
  /\ (if unhealthy (mapGitHubStatus g) && truthy (slackWebhook p) then
        newEvents w (snd run) = EvPutRunner n :: openEvents (slackWebhook p) o ok
        /\ OutageEvent.notificationSent o = false
        /\ (forall x, In x (outages w) -> outageKey x <> outageKey o)
        /\ (forall x, In x (outages (snd run))
                      <-> x = OutageEvent.withNotificationSent ok o \/ In x (outages w))
      else
        newEvents w (snd run) = [EvPutRunner n]
        /\ outages (snd run) = outages w)
  /\ fst (handler env (Some p) w0)
     = Returned (mkResponse 200 "GitHub runner monitoring completed successfully").
Proof.
  intros Hfind Hstore Hrepos run now n o ok.
  assert (Hfresh : forall x, In x (outages w) -> outageKey x <> outageKey o)
    by (intros x Hx; now apply openedOutage_fresh).
  assert (Hrun :
    run = if unhealthy (mapGitHubStatus g) && truthy (slackWebhook p)
          then (Returned (existingRunners, GitHubRunner.id g :: processed),
                snd (handleUnhealthyRunner env n (mapGitHubStatus g) (slackWebhook p)
                       (afterPutRunner n w)))
          else (Returned (existingRunners, GitHubRunner.id g :: processed),
                afterPutRunner n w)).
  { subst run. rewrite (reconcileRunner_new _ _ _ _ _ _ _ Hfind). cbv zeta.
    fold now. fold n.
    destruct (unhealthy (mapGitHubStatus g) && truthy (slackWebhook p)); cbn [when].
    - unfold bind. rewrite handleUnhealthyRunner_run. reflexivity.
    - reflexivity. }
  rewrite Hrun. clear Hrun.
  split; [now destruct (_ && _)|].
  split; [reflexivity|]. split; [reflexivity|].
  split.
  { destruct (_ && _); cbn [snd].
    - rewrite handleUnhealthyRunner_run. cbn. apply In_putRunnerItem. now left.
    - cbn. apply In_putRunnerItem. now left. }
  split; [|exact (handler_200 env p storeId repositories w0 Hstore Hrepos)].
  destruct (_ && _); cbn [snd].
  - rewrite handleUnhealthyRunner_run. cbn. fold o ok.
    split; [apply newEvents_app; cbn; now rewrite <- app_assoc|].
    split; [reflexivity|]. split; [exact Hfresh|].
    intros x. apply In_outages_opened; [reflexivity | exact Hfresh].
  - split; [|reflexivity]. apply newEvents_app. reflexivity.
Qed.

Lemma new_runner_created_and_opened_with_webhook_witness :
  In (createdRunner "ci" (ghA "offline" false) 1000)
     (runners (snd (reconcileRunner env0 "ci" (slackWebhook paramsNoHook)
                      (ghA "offline" false) ([], []) emptyWorld)))
  /\ fst (handler env0 (Some paramsNoHook) emptyWorld)
     = Returned (mkResponse 200 "GitHub runner monitoring completed successfully").
Proof.
  pose proof (new_runner_created_and_opened_with_webhook env0 "ci" paramsNoHook
                1 ["acme/ci"] (ghA "offline" false) [] [] emptyWorld emptyWorld
                eq_refl eq_refl eq_refl) as T.
  split.
  - exact (proj1 (proj2 (proj2 (proj2 T)))).
  - exact (proj2 (proj2 (proj2 (proj2 (proj2 T))))).
Defined.

(** ** The open-outage invariant *)

(** C1. The pass does not preserve the invariant. Runner A is seen online,
    is then missing from a fetch (the sweep sets it to UNKNOWN and opens
    outage 1), and is then reported offline: the update path compares the
    new status with the old one for inequality only, so it opens outage 2
    while outage 1 is still open. When the runner comes back online only
    outage 2 is resolved; outage 1 stays open on a healthy runner. *)
Theorem unknown_to_offline_opens_second_outage :
  atMostOneOpen (outages flap2) = true
  /\ map Runner.status (runners flap2) = [RunnerStatus_UNKNOWN]
  /\ atMostOneOpen (outages flap3) = false
  /\ map (fun o => (OutageEvent.outageId o, OutageEvent.status o))
         (openOutages "ci" 1 (outages flap3))
     = [(1, RunnerStatus_UNKNOWN); (2, RunnerStatus_OFFLINE)]
  /\ map Runner.status (runners flap4) = [RunnerStatus_IDLE]
  /\ map OutageEvent.outageId (openOutages "ci" 1 (outages flap4)) = [1].
Proof. vm_compute. repeat split. Qed.

(** ** Repositories that share a name *)

Lemma find_In_not_None {A : Type} (f : A -> bool) (l : list A) (a : A) :
  In a l -> f a = true -> exists b, find f l = Some b.
Proof.
  induction l as [|x l IH]; cbn; [contradiction|].
  intros [-> | Hin] Ha.
  - rewrite Ha. eauto.
  - destruct (f x); eauto.
Qed.

(** Whatever the outcome, the repository that was processed has its record. *)
Lemma processRepository_record (env : Env) (p : Params) (o n : string) (w : World) :
  noSlash o = true -> noSlash n = true ->
  exists rec,
    tableGet repositoryKey String.compare n
      (repositories (snd (processRepository env p (o ++ "/" ++ n) w))) = Some rec.
Proof.
  intros Ho Hn. destruct (repoIdOf_name o n Ho Hn) as [Eo En].
  unfold repoIdOf in En. unfold processRepository.
  change (o ++ "/" ++ n)%string with (o ++ String "/" n)%string.
  rewrite Eo, En.
  set (rest := (runners <- fetchGitHubRunners env _ ;; _)).
  unfold bind at 1. unfold getRepository at 1.
  set (rec := match tableGet repositoryKey String.compare n (repositories w) with
              | Some r => Repository.withLastSyncedAt (clock env (ticks w)) r
              | None => Repository.mk n o n true (clock env (ticks w))
              end).
  assert (Hkey : repositoryKey rec = n).
  { subst rec. destruct (tableGet _ _ n (repositories w)) as [r|] eqn:G; [|reflexivity].
    apply (tableGet_Some repositoryKey String.compare string_compare_eq) in G.
    destruct G as [_ G]. exact G. }
  assert (Hput : forall w2,
             sameRepositories
               (mkWorld (putRepositoryItem rec (repositories w)) (runners w) (outages w)
                        (S (ticks w)) (posts w) (fetches w)
                        (trace w ++ [EvPutRepository rec])) w2 ->
             exists r0, tableGet repositoryKey String.compare n (repositories w2) = Some r0).
  { intros w2 E. rewrite E. cbn. unfold tableGet.
    apply (find_In_not_None _ _ rec).
    - apply (In_tablePut repositoryKey String.compare string_compare_eq). now left.
    - apply (sameKey_true String.compare string_compare_eq). exact Hkey. }
  assert (Hrest : maintains sameRepositories rest).
  { subst rest. apply (maintains_bind _ sameRepositories_trans).
    - intros w2. unfold fetchGitHubRunners.
      destruct (github env (fetches w2) _); reflexivity.
    - intros rs. apply (maintains_bind _ sameRepositories_trans).
      + apply reconcile_sameRepositories.
      + intros ers w2. reflexivity. }
  subst rec.
  destruct (tableGet repositoryKey String.compare n (repositories w)) as [r|];
    unfold bind, dateNow, putRepository; cbn; apply Hput, Hrest.
Qed.

Lemma processRepository_same_name (env : Env) (p : Params) (r1 r2 n : string)
    (w : World) (rec : Repository.t) :
  nameOf r1 = Some n -> nameOf r2 = Some n ->
  tableGet repositoryKey String.compare n (repositories w) = Some rec ->
  github env (fetches w) r2 = github env (fetches w) r1 ->
  processRepository env p r2 w = processRepository env p r1 w.
Proof.
  intros N1 N2 G F. unfold processRepository. rewrite N1, N2.
  assert (O1 : exists o, ownerOf r1 = Some o).
  { unfold ownerOf. pose proof (split_nonempty "/" r1).
    destruct (split "/" r1); [contradiction | cbn; eauto]. }
  assert (O2 : exists o, ownerOf r2 = Some o).
  { unfold ownerOf. pose proof (split_nonempty "/" r2).
    destruct (split "/" r2); [contradiction | cbn; eauto]. }
  destruct O1 as [o1 ->], O2 as [o2 ->].
  unfold bind, getRepository, dateNow, putRepository, fetchGitHubRunners.
  cbn. rewrite G. cbn. rewrite F. reflexivity.
Qed.

(** C9. The repository identifier of a configured "owner/name" is the name
    alone. Two configured repositories with different owners and the same
    name therefore get the same repository key path and the same runner and
    outage key prefixes; once the first one is processed the repository
    record exists, and processing the second one there is, for the same
    fetched runners, the very same computation as processing the first one
    again: both read and write one set of records. *)
Theorem same_name_shares_namespace
    (env : Env) (p : Params) (o1 o2 n : string) (w : World) :
  noSlash o1 = true -> noSlash o2 = true -> noSlash n = true ->
  let r1 := (o1 ++ "/" ++ n)%string in
  let r2 := (o2 ++ "/" ++ n)%string in
  let w1 := snd (processRepository env p r1 w) in
  github env (fetches w1) r2 = github env (fetches w1) r1 ->
  repoIdOf r1 = Some n /\ repoIdOf r2 = Some n
  /\ option_map repositoryKeyPath (repoIdOf r2) = option_map repositoryKeyPath (repoIdOf r1)
  /\ option_map runnerKeyPrefix (repoIdOf r2) = option_map runnerKeyPrefix (repoIdOf r1)
  /\ (forall runnerId,
        option_map (fun repoId => outageKeyPrefix repoId runnerId) (repoIdOf r2)
        = option_map (fun repoId => outageKeyPrefix repoId runnerId) (repoIdOf r1))
  /\ (exists rec,
        tableGet repositoryKey String.compare n (repositories w1) = Some rec)
  /\ processRepository env p r2 w1 = processRepository env p r1 w1.
Proof.
  intros H1 H2 Hn r1 r2 w1 Hf.
  destruct (repoIdOf_name o1 n H1 Hn) as [_ E1].
  destruct (repoIdOf_name o2 n H2 Hn) as [_ E2].
  change (repoIdOf r1 = Some n) in E1. change (repoIdOf r2 = Some n) in E2.
  destruct (processRepository_record env p o1 n w H1 Hn) as [rec Hrec].
  change (tableGet repositoryKey String.compare n (repositories w1) = Some rec) in Hrec.
  rewrite E1, E2. repeat split; eauto.
  exact (processRepository_same_name env p r1 r2 n w1 rec E1 E2 Hrec Hf).
Qed.

Lemma same_name_shares_namespace_witness :
  repoIdOf "acme/ci" = Some "ci" /\ repoIdOf "other/ci" = Some "ci"
  /\ processRepository envTwoOwners paramsTwoOwners "other/ci"
       (snd (processRepository envTwoOwners paramsTwoOwners "acme/ci" emptyWorld))
     = processRepository envTwoOwners paramsTwoOwners "acme/ci"
         (snd (processRepository envTwoOwners paramsTwoOwners "acme/ci" emptyWorld))
  /\ map Repository.owner (repositories twoOwners) = ["acme"]
  /\ map Runner.status (runners twoOwners) = [RunnerStatus_UNKNOWN].
Proof.
  pose proof (same_name_shares_namespace envTwoOwners paramsTwoOwners
                "acme" "other" "ci" emptyWorld eq_refl eq_refl eq_refl eq_refl) as T.
  split; [exact (proj1 T)|]. split; [exact (proj1 (proj2 T))|].
  split; [exact (proj2 (proj2 (proj2 (proj2 (proj2 (proj2 T))))))|].
  split; reflexivity.
Defined.

(** ** Alerts are dispatched once, when the outage is opened *)

Lemma AlertsOnlyOnOpen_app (stored : list OutageEvent.t) (e1 e2 : list Event) :
  AlertsOnlyOnOpen stored e1 -> AlertsOnlyOnOpen stored e2 ->
  AlertsOnlyOnOpen stored (e1 ++ e2).
Proof.
  intros H1 H2. induction H1; cbn.
  - exact H2.
  - now apply AOO_other.
  - now apply AOO_open.
Qed.

Lemma AlertsOnlyOnOpen_weaken (s1 s2 : list OutageEvent.t) (evs : list Event) :
  (forall x, In x s1 -> exists x', In x' s2 /\ outageKey x' = outageKey x) ->
  AlertsOnlyOnOpen s2 evs -> AlertsOnlyOnOpen s1 evs.
Proof.
  intros Hk H. induction H.
  - apply AOO_nil.
  - now apply AOO_other.
  - apply AOO_open; try assumption.
    intros x Hx E. destruct (Hk x Hx) as [x' [Hx' Ex']].
    apply (H1 x' Hx'). congruence.
Qed.

Lemma AlertsOnlyOnOpen_single (stored : list OutageEvent.t) (e : Event) :
  isAlert e = false -> AlertsOnlyOnOpen stored [e].
Proof. intros H. apply AOO_other; [exact H | apply AOO_nil]. Qed.

Lemma alertsAccounted_refl (w : World) : alertsAccounted w w.
Proof.
  split; [intros x Hx; eauto|].
  exists []. split; [now rewrite app_nil_r | apply AOO_nil].
Qed.

Lemma alertsAccounted_trans (a b c : World) :
  alertsAccounted a b -> alertsAccounted b c -> alertsAccounted a c.
Proof.
  intros [K1 [e1 [T1 A1]]] [K2 [e2 [T2 A2]]]. split.
  - intros x Hx. destruct (K1 x Hx) as [y [Hy Ey]].
    destruct (K2 y Hy) as [z [Hz Ez]]. exists z. split; [exact Hz | congruence].
  - exists (e1 ++ e2). split; [rewrite T2, T1; now rewrite app_assoc|].
    apply AlertsOnlyOnOpen_app; [exact A1|].
    exact (AlertsOnlyOnOpen_weaken _ _ _ K1 A2).
Qed.

(** A step that keeps the outages and adds no alert. *)
Lemma alertsAccounted_plain (w w' : World) (evs : list Event) :
  outages w' = outages w -> trace w' = trace w ++ evs ->
  forallb (fun e => negb (isAlert e)) evs = true ->
  alertsAccounted w w'.
Proof.
  intros Ho Ht Hn. split; [rewrite Ho; eauto|].
  exists evs. split; [exact Ht|].
  induction evs as [|e evs IH] in Hn |- *; [apply AOO_nil|].
  cbn in Hn. apply andb_true_iff in Hn. destruct Hn as [He Hn].
  apply AOO_other; [now apply negb_true_iff | now apply IH].
Qed.

Lemma handleUnhealthyRunner_alertsAccounted (env : Env) (r : Runner.t)
    (s : RunnerStatus) (hook : option string) :
  maintains alertsAccounted (handleUnhealthyRunner env r s hook).
Proof.
  intros w. rewrite handleUnhealthyRunner_run. cbn.
  set (o := openedOutage r s (clock env (ticks w)) (outages w)).
  assert (Hfresh : forall x, In x (outages w) -> outageKey x <> outageKey o)
    by (intros x Hx; now apply openedOutage_fresh).
  split.
  - intros x Hx. exists x. split; [|reflexivity].
    apply (In_outages_opened o x (postOk env (posts w)) (outages w) eq_refl Hfresh).
    now right.
  - eexists. split; [reflexivity|]. unfold openEvents.
    apply AOO_open; [reflexivity | reflexivity | exact Hfresh |].
    apply AlertsOnlyOnOpen_single. now destruct (postOk env (posts w)).
Qed.

Lemma resolveOutage_alertsAccounted (env : Env) (repoId : string) (runnerId : Z) :
  maintains alertsAccounted (resolveOutage env repoId runnerId).
Proof.
  intros w. unfold resolveOutage.
  destruct (latest _) as [item|]; [|apply alertsAccounted_refl].
  destruct (negb (negb _)); [|apply alertsAccounted_refl].
  unfold bind, dateNow, putOutage, ret. cbn. split.
  - intros x Hx.
    apply (tablePut_keeps_keys outageKey cmpOutageKey cmpOutageKey_eq). exact Hx.
  - eexists. split; [reflexivity|]. now apply AlertsOnlyOnOpen_single.
Qed.

(** Every pass maintains it, from any world and in any environment. *)
Lemma handler_alertsAccounted (env : Env) (p : option Params) :
  maintains alertsAccounted (handler env p).
Proof.
  apply (handler_maintains env alertsAccounted alertsAccounted_refl
           alertsAccounted_trans).
  - intros w. now apply (alertsAccounted_plain _ _ []); cbn; rewrite ?app_nil_r.
  - intros r w. now apply (alertsAccounted_plain _ _ [EvPutRunner r]).
  - apply handleUnhealthyRunner_alertsAccounted.
  - apply resolveOutage_alertsAccounted.
  - intros hook r s oid w. unfold sendSlackRecoveryNotification, axiosPost. cbn.
    eapply alertsAccounted_plain; [reflexivity | reflexivity | reflexivity].
  - intros r w. now apply (alertsAccounted_plain _ _ [EvPutRepository r]).
  - intros repo w. unfold fetchGitHubRunners.
    destruct (github env (fetches w) repo).
    + now apply (alertsAccounted_plain _ _ []); cbn; rewrite ?app_nil_r.
    + now apply (alertsAccounted_plain _ _ [EvConsoleError FetchError]).
  - intros e w. now apply (alertsAccounted_plain _ _ [EvConsoleError e]).
Qed.

(** C8. The code dispatches again without a state change. Runner A
    (id 1) is stored as IDLE and every fetch reports id 1, offline, under
    the name ["A-2"]. In the first pass the record is stored under the new
    name, outage 1 is opened and its alert is rejected by the sink: the
    error is logged, outage 1 keeps [notificationSent = false] and the
    handler reports success. In the second pass the fetch is the same and
    the record of the runner is OFFLINE already, but the record found by
    id is the one still stored under the old name, IDLE: outage 2 is
    opened and a second alert is posted for the same runner and status,
    and so is a third in the third pass. Outage 1 is never marked as sent,
    and the three outages stay open. *)
Theorem renamed_runner_realerted_every_pass :
  mapGitHubStatus ghRenamed = RunnerStatus_OFFLINE
  /\ fst (handler envRenamed (Some paramsCi) steady)
     = Returned (mkResponse 200 "GitHub runner monitoring completed successfully")
  /\ newEvents steady renamed1
     = [EvPutRepository (Repository.mk "ci" "acme" "ci" true 1000);
        EvPutRunner (storedRenamed 1001);
        EvPutOutage (outageRenamed 1 1002 false);
        EvPost hook (alertRenamed 1) false;
        EvConsoleError PostError]
  /\ outages renamed1 = [outageRenamed 1 1002 false]
  /\ tableGet runnerKey cmpRunnerKey ("ci", "A-2") (runners renamed1)
     = Some (storedRenamed 1001)
  /\ findRunner (GitHubRunner.id ghRenamed) (runnersOf "ci" (runners renamed1))
     = Some (storedA RunnerStatus_IDLE)
  /\ newEvents renamed1 renamed2
     = [EvPutRepository (Repository.mk "ci" "acme" "ci" true 1003);
        EvPutRunner (storedRenamed 1004);
        EvPutOutage (outageRenamed 2 1005 false);
        EvPost hook (alertRenamed 2) true;
        EvPutOutage (outageRenamed 2 1005 true)]
  /\ tableGet runnerKey cmpRunnerKey ("ci", "A-2") (runners renamed2)
     = Some (storedRenamed 1004)
  /\ newEvents renamed2 renamed3
     = [EvPutRepository (Repository.mk "ci" "acme" "ci" true 1006);
        EvPutRunner (storedRenamed 1007);
        EvPutOutage (outageRenamed 3 1008 false);
        EvPost hook (alertRenamed 3) true;
        EvPutOutage (outageRenamed 3 1008 true)]
  /\ outages renamed3
     = [outageRenamed 1 1002 false; outageRenamed 2 1005 true;
        outageRenamed 3 1008 true].
Proof. vm_compute. repeat split. Qed.

(** X18. [handleUnhealthyRunner] reads the clock, stores the opened outage
    with [notificationSent = false] and [resolvedAt] unset under the next
    identifier of the runner's history, and posts the alert once. When the
    post succeeds the outage is stored again with [notificationSent =
    true]; when it fails the error is only logged and the stored outage
    keeps [notificationSent = false]. It returns in both cases, and the
    handler reports success. In any pass, run from any world, every alert
    follows at once the creation of an outage under a key that the world
    did not store before the pass: no alert is posted for a stored outage. *)
Theorem dispatch_outcome_recorded
    (env : Env) (runner : Runner.t) (status : RunnerStatus)
    (slackWebhook : option string) (w : World)
    (later : Env) (p : Params) (storeId : Z) (repositories : list string)
    (w0 : World) :
  statelydbStoreId p = Some storeId ->
  repositoriesParam p = Some repositories ->
  let h := handleUnhealthyRunner env runner status slackWebhook w in
  let id := nextOutageId (Runner.repoId runner) (Runner.runnerId runner) (outages w) in
  let ok := postOk env (posts w) in
  let stored (notificationSent : bool) :=
    OutageEvent.mk id (Runner.repoId runner) (Runner.runnerId runner)
      (Runner.name runner) status (clock env (ticks w)) 0
      ("Runner " ++ Runner.name runner ++ " entered "
         ++ statusToString status ++ " state")
      notificationSent in
  fst h = Returned tt
  /\ newEvents w (snd h)
     = [EvPutOutage (stored false);
        EvPost slackWebhook
          (mkSlackMessage Alert (Runner.repoId runner) (Runner.name runner)
             (statusToString status) id) ok;
        if ok then EvPutOutage (stored true) else EvConsoleError PostError]
  /\ tableGet outageKey cmpOutageKey
       (Runner.repoId runner, (Runner.runnerId runner, id)) (outages (snd h))
     = Some (stored ok)
  /\ (forall x, In x (outages (snd h)) <-> x = stored ok \/ In x (outages w))
  /\ fst (handler later (Some p) w0)
     = Returned (mkResponse 200 "GitHub runner monitoring completed successfully")
  /\ AlertsOnlyOnOpen (outages w0) (newEvents w0 (snd (handler later (Some p) w0))).
Proof.
  intros Hstore Hrepos h id ok stored. subst h. rewrite handleUnhealthyRunner_run. cbn.
  set (o := openedOutage runner status (clock env (ticks w)) (outages w)).
  fold ok.
  assert (Hfresh : forall x, In x (outages w) -> outageKey x <> outageKey o)
    by (intros x Hx; now apply openedOutage_fresh).
  assert (Hstored : forall b, OutageEvent.withNotificationSent b o = stored b)
    by reflexivity.
  split; [reflexivity|].
  split; [apply newEvents_app; destruct ok; reflexivity|].
  split.
  { destruct ok.
    - exact (tableGet_tablePut outageKey cmpOutageKey (stored true) _ cmpOutageKey_eq).
    - exact (tableGet_tablePut outageKey cmpOutageKey (stored false) _ cmpOutageKey_eq). }
  split.
  { intros x. rewrite <- Hstored. apply In_outages_opened; [reflexivity | exact Hfresh]. }
  split; [exact (handler_200 later p storeId repositories w0 Hstore Hrepos)|].
  destruct (handler_alertsAccounted later (Some p) w0) as [_ [evs [Ht Ha]]].
  now rewrite (newEvents_app _ _ _ Ht).
Qed.

Lemma dispatch_outcome_recorded_witness :
  tableGet outageKey cmpOutageKey ("ci", (1, 1))
    (outages (snd (handleUnhealthyRunner env0 (storedA RunnerStatus_OFFLINE)
                     RunnerStatus_OFFLINE hook emptyWorld)))
  = Some (OutageEvent.mk 1 "ci" 1 "A" RunnerStatus_OFFLINE 1000 0
            "Runner A entered Offline state" true)
  /\ tableGet outageKey cmpOutageKey ("ci", (1, 1))
       (outages (snd (handleUnhealthyRunner envSinkDown (storedA RunnerStatus_OFFLINE)
                        RunnerStatus_OFFLINE hook emptyWorld)))
     = Some (OutageEvent.mk 1 "ci" 1 "A" RunnerStatus_OFFLINE 1000 0
               "Runner A entered Offline state" false)
  /\ AlertsOnlyOnOpen (outages (pass envSinkDown paramsCi emptyWorld))
       (newEvents (pass envSinkDown paramsCi emptyWorld)
          (snd (handler envSinkDown (Some paramsCi)
                  (pass envSinkDown paramsCi emptyWorld)))).
Proof.
  pose proof (dispatch_outcome_recorded env0
                (storedA RunnerStatus_OFFLINE) RunnerStatus_OFFLINE hook emptyWorld
                envSinkDown paramsCi 1 ["acme/ci"]
                (pass envSinkDown paramsCi emptyWorld) eq_refl eq_refl) as T1.
  pose proof (dispatch_outcome_recorded envSinkDown
                (storedA RunnerStatus_OFFLINE) RunnerStatus_OFFLINE hook emptyWorld
                envSinkDown paramsCi 1 ["acme/ci"]
                (pass envSinkDown paramsCi emptyWorld) eq_refl eq_refl) as T2.
  split; [exact (proj1 (proj2 (proj2 T1)))|].
  split; [exact (proj1 (proj2 (proj2 T2)))|].
  exact (proj2 (proj2 (proj2 (proj2 (proj2 T2))))).
Defined.

(** ** A second run over the same fetch *)

Lemma findRunner_Some (id : Z) (l : list Runner.t) (e : Runner.t) :
  findRunner id l = Some e -> In e l /\ Runner.runnerId e = id.
Proof.
  unfold findRunner. intros H. apply find_some in H. destruct H as [H1 H2].
  split; [exact H1 | now apply Z.eqb_eq].
Qed.

Lemma findRunner_None (id : Z) (l : list Runner.t) :
  findRunner id l = None -> forall x, In x l -> Runner.runnerId x <> id.
Proof.
  unfold findRunner. intros H x Hx. apply (find_none _ _ H) in Hx.
  now apply Z.eqb_neq.
Qed.

Lemma findRunner_exists (id : Z) (l : list Runner.t) (x : Runner.t) :
  In x l -> Runner.runnerId x = id -> exists e, findRunner id l = Some e.
Proof.
  intros Hx Hid. apply (find_In_not_None _ _ x Hx). now apply Z.eqb_eq.
Qed.

Lemma In_assignFound (id : Z) (r' x : Runner.t) (l : list Runner.t) :
  In x (assignFound id r' l) -> x = r' \/ In x l.
Proof.
  induction l as [|y l IH]; cbn; [contradiction|].
  destruct (Runner.runnerId y =? id); cbn.
  - intros [<- | H]; auto.
  - intros [<- | H]; auto. destruct (IH H); auto.
Qed.

Lemma In_assignFound_other (id : Z) (r' x : Runner.t) (l : list Runner.t) :
  In x l -> Runner.runnerId x <> id -> In x (assignFound id r' l).
Proof.
  induction l as [|y l IH]; cbn; [contradiction|].
  intros [-> | Hx] Hne.
  - apply Z.eqb_neq in Hne. rewrite Hne. now left.
  - destruct (Runner.runnerId y =? id); right; auto.
Qed.

Lemma In_assignFound_new (id : Z) (r' e : Runner.t) (l : list Runner.t) :
  findRunner id l = Some e -> In r' (assignFound id r' l).
Proof.
  unfold findRunner. induction l as [|y l IH]; cbn; [discriminate|].
  destruct (Runner.runnerId y =? id); [now left | right; auto].
Qed.

Lemma has_In (ids : list Z) (z : Z) : has ids z = true <-> In z ids.
Proof.
  unfold has. rewrite existsb_exists. split.
  - intros [y [Hy E]]. apply Z.eqb_eq in E. now subst.
  - intros H. exists z. split; [exact H | apply Z.eqb_refl].
Qed.

(** An observation that finds the stored status unchanged only stores the
    runner. *)
Lemma reconcileRunner_same_status (env : Env) (repoId : string)
    (hook : option string) (g : GitHubRunner.t) (mem : list Runner.t)
    (ids : list Z) (w : World) (e : Runner.t) :
  findRunner (GitHubRunner.id g) mem = Some e ->
  Runner.status e = mapGitHubStatus g ->
  reconcileRunner env repoId hook g (mem, ids) w =
  (Returned (assignFound (GitHubRunner.id g)
               (updatedRunner e g (clock env (ticks w))) mem,
             GitHubRunner.id g :: ids),
   afterPutRunner (updatedRunner e g (clock env (ticks w))) w).
Proof.
  intros F S. rewrite (reconcileRunner_found _ _ _ _ _ _ _ _ F). cbv zeta.
  rewrite S, status_eqb_refl.
  destruct (unhealthy (mapGitHubStatus g)); reflexivity.
Qed.

Lemma settled_assign (rs : list GitHubRunner.t) (mem : list Runner.t)
    (g : GitHubRunner.t) (e : Runner.t) (t : Z) :
  settled rs mem -> In g rs ->
  findRunner (GitHubRunner.id g) mem = Some e ->
  settled rs (assignFound (GitHubRunner.id g) (updatedRunner e g t) mem).
Proof.
  intros [P1 [P2 P3]] Hg F.
  destruct (findRunner_Some _ _ _ F) as [He Hid].
  split; [|split].
  - intros g' Hg'. destruct (P1 g' Hg') as [x [Hx Ex]].
    destruct (Z.eq_dec (Runner.runnerId x) (GitHubRunner.id g)) as [E|E].
    + exists (updatedRunner e g t). split; [eapply In_assignFound_new; eauto|].
      cbn. congruence.
    + exists x. split; [now apply In_assignFound_other | exact Ex].
  - intros x g' Hx Hg' E. apply In_assignFound in Hx. destruct Hx as [-> | Hx].
    + cbn in *. rewrite <- (P2 e g He Hg Hid). apply (P2 e g' He Hg'). congruence.
    + now apply P2.
  - intros x Hx Hn. apply In_assignFound in Hx. destruct Hx as [-> | Hx].
    + exfalso. apply Hn. cbn. rewrite Hid. now apply in_map.
    + now apply P3.
Qed.

Lemma diff_settled (env : Env) (repoId : string) (hook : option string)
    (rs gs : list GitHubRunner.t) :
  (forall g, In g gs -> In g rs) ->
  forall (mem : list Runner.t) (ids : list Z) (w : World),
    settled rs mem ->
    exists mem' w',
      forEach (reconcileRunner env repoId hook) gs (mem, ids) w
      = (Returned (mem', rev (map GitHubRunner.id gs) ++ ids), w')
      /\ settled rs mem'
      /\ outages w' = outages w
      /\ exists evs, trace w' = trace w ++ evs /\ observationsOnly rs evs.
Proof.
  induction gs as [|g gs IH]; intros Hsub mem ids w Hs.
  - exists mem, w. split; [reflexivity|]. split; [exact Hs|].
    split; [reflexivity|].
    exists []. split; [now rewrite app_nil_r | constructor].
  - assert (Hg : In g rs) by (apply Hsub; now left).
    destruct Hs as [P1 [P2 P3]].
    destruct (P1 g Hg) as [x [Hx Ex]].
    destruct (findRunner_exists _ _ _ Hx Ex) as [e F].
    destruct (findRunner_Some _ _ _ F) as [He Hid].
    assert (S : Runner.status e = mapGitHubStatus g) by (now apply P2).
    cbn [forEach]. unfold bind at 1.
    rewrite (reconcileRunner_same_status env repoId hook g mem ids w e F S).
    set (r' := updatedRunner e g (clock env (ticks w))).
    destruct (IH (fun g' H => Hsub g' (or_intror H))
                 (assignFound (GitHubRunner.id g) r' mem)
                 (GitHubRunner.id g :: ids) (afterPutRunner r' w)
                 (settled_assign rs mem g e _ (conj P1 (conj P2 P3)) Hg F))
      as [mem' [w' [Hrun [Hs' [Ho [evs [Ht Hev]]]]]]].
    exists mem', w'. split.
    { rewrite Hrun. cbn [map rev]. now rewrite <- app_assoc. }
    split; [exact Hs'|]. split; [exact Ho|].
    exists (EvPutRunner r' :: evs). split.
    { rewrite Ht. cbn. now rewrite <- app_assoc. }
    constructor; [|exact Hev].
    exists r'. split; [reflexivity|]. cbn. rewrite Hid. now apply in_map.
Qed.

Lemma sweep_settled (env : Env) (hook : option string) (rs : list GitHubRunner.t)
    (ids : list Z) (mem : list Runner.t) (w : World) :
  (forall z, In z ids <-> In z (map GitHubRunner.id rs)) ->
  (forall x, In x mem -> ~ In (Runner.runnerId x) (map GitHubRunner.id rs) ->
             Runner.status x = RunnerStatus_UNKNOWN) ->
  sweep env hook ids mem w = (Returned mem, w).
Proof.
  intros Hids. induction mem as [|e mem IH]; intros P3; cbn; [reflexivity|].
  assert (S : swept ids e = false).
  { unfold swept. destruct (has ids (Runner.runnerId e)) eqn:H; [reflexivity|].
    cbn. apply negb_false_iff, status_eqb_eq. apply P3; [now left|].
    intros Hin. apply Hids, has_In in Hin. congruence. }
  unfold bind at 1. rewrite (sweepRunner_unswept env hook ids e w S).
  unfold bind. rewrite IH; [reflexivity|].
  intros x Hx. apply P3. now right.
Qed.

(** On a store that reflects the fetched set, a run returns and only
    stores the observed runners again. *)
Lemma reconcile_settled (env : Env) (repoId : string) (hook : option string)
    (rs : list GitHubRunner.t) (w : World) :
  settled rs (runnersOf repoId (runners w)) ->
  let run := reconcile env repoId hook rs w in
  returned (fst run) = true
  /\ outages (snd run) = outages w
  /\ observationsOnly rs (newEvents w (snd run)).
Proof.
  intros Hs. cbv zeta. unfold reconcile, bind at 1, fetchExistingRunners.
  destruct (diff_settled env repoId hook rs rs (fun g H => H)
              (runnersOf repoId (runners w)) [] w Hs)
    as [mem' [w' [Hrun [Hs' [Ho [evs [Ht Hev]]]]]]].
  unfold bind. rewrite Hrun. cbn [fst snd].
  rewrite (sweep_settled env hook rs _ mem' w').
  - cbn. split; [reflexivity|]. split; [exact Ho|].
    now rewrite (newEvents_app _ _ _ Ht).
  - intros z. rewrite app_nil_r, <- in_rev. reflexivity.
  - apply Hs'.
Qed.

(** ** A first run settles the store *)

Lemma distinct_NoDup {A : Type} (eqb : A -> A -> bool) (l : list A) :
  (forall a b, eqb a b = true <-> a = b) ->
  distinct eqb l = true -> NoDup l.
Proof.
  intros Heq. induction l as [|x l IH]; cbn; intros H; [constructor|].
  apply andb_true_iff in H. destruct H as [H1 H2]. constructor; [|auto].
  intros Hin. apply negb_true_iff in H1.
  assert (E : existsb (eqb x) l = true).
  { apply existsb_exists. exists x. split; [exact Hin | now apply Heq]. }
  congruence.
Qed.

Lemma NoDup_map_inj {A B : Type} (f : A -> B) (l : list A) (a b : A) :
  NoDup (map f l) -> In a l -> In b l -> f a = f b -> a = b.
Proof.
  induction l as [|x l IH]; cbn; intros Hnd Ha Hb E; [contradiction|].
  inversion Hnd as [|? ? Hx Hl]; subst.
  destruct Ha as [-> | Ha], Hb as [-> | Hb]; auto.
  - exfalso. apply Hx. rewrite E. now apply in_map.
  - exfalso. apply Hx. rewrite <- E. now apply in_map.
Qed.

Lemma agrees_iff (e : Runner.t) (g : GitHubRunner.t) :
  agrees e g = true
  <-> (Runner.runnerId e = GitHubRunner.id g <-> Runner.name e = GitHubRunner.name g).
Proof.
  unfold agrees. rewrite Bool.eqb_true_iff.
  rewrite <- Z.eqb_eq, <- String.eqb_eq.
  destruct (Runner.runnerId e =? GitHubRunner.id g),
    (String.eqb (Runner.name e) (GitHubRunner.name g)); intuition congruence.
Qed.

Lemma In_runnersOf (repoId : string) (l : list Runner.t) (x : Runner.t) :
  In x (runnersOf repoId l) <-> In x l /\ Runner.repoId x = repoId.
Proof. unfold runnersOf. now rewrite filter_In, String.eqb_eq. Qed.

Lemma In_runnersOf_put (repoId : string) (r x : Runner.t) (l : list Runner.t) :
  Runner.repoId r = repoId ->
  In x (runnersOf repoId (putRunnerItem r l))
  <-> x = r \/ (In x (runnersOf repoId l) /\ Runner.name x <> Runner.name r).
Proof.
  intros Hr. rewrite !In_runnersOf, In_putRunnerItem. unfold runnerKey. split.
  - intros [[-> | [Hx Hk]] Hrepo]; [now left|]. right.
    split; [now split|]. intros E. apply Hk. congruence.
  - intros [-> | [[Hx Hrepo] Hn]]; [split; [now left | exact Hr]|].
    split; [|exact Hrepo]. right. split; [exact Hx|]. congruence.
Qed.

Lemma diffInv_step (repoId : string) (rs seen : list GitHubRunner.t)
    (g : GitHubRunner.t) (mem L L' : list Runner.t) (t : Z) :
  NoDup (map GitHubRunner.id rs) -> NoDup (map GitHubRunner.name rs) ->
  (forall g', In g' seen -> In g' rs) -> In g rs ->
  ~ In (GitHubRunner.id g) (map GitHubRunner.id seen) ->
  ~ In (GitHubRunner.name g) (map GitHubRunner.name seen) ->
  diffInv repoId rs seen mem L ->
  let r := match findRunner (GitHubRunner.id g) mem with
           | Some e => updatedRunner e g t
           | None => createdRunner repoId g t
           end in
  let mem' := match findRunner (GitHubRunner.id g) mem with
              | Some e => assignFound (GitHubRunner.id g) r mem
              | None => mem
              end in
  (forall x, In x L' <-> x = r \/ (In x L /\ Runner.name x <> Runner.name r)) ->
  diffInv repoId rs (seen ++ [g]) mem' L'.
Proof.
  intros Nid Nname Hseen Hg Fid Fname [I1 [I2 [I3 [I4 I5]]]] r mem' HL'.
  assert (Rid : Runner.runnerId r = GitHubRunner.id g).
  { subst r. destruct (findRunner _ mem) as [e|] eqn:F; [|reflexivity].
    cbn. now destruct (findRunner_Some _ _ _ F). }
  assert (Rname : Runner.name r = GitHubRunner.name g)
    by (subst r; now destruct (findRunner _ mem)).
  assert (Rstatus : Runner.status r = mapGitHubStatus g)
    by (subst r; now destruct (findRunner _ mem)).
  assert (Rrepo : Runner.repoId r = repoId).
  { subst r. destruct (findRunner _ mem) as [e|] eqn:F; [|reflexivity].
    cbn. destruct (findRunner_Some _ _ _ F) as [He _]. now apply I5. }
  assert (Hmem : forall x, In x mem -> Runner.runnerId x <> GitHubRunner.id g ->
                           In x mem').
  { intros x Hx Hne. subst mem'. destruct (findRunner _ mem); [|exact Hx].
    now apply In_assignFound_other. }
  assert (Hmem' : forall x, In x mem' -> x = r \/ In x mem).
  { intros x Hx. subst mem'. destruct (findRunner _ mem); [|now right].
    now apply In_assignFound in Hx. }
  assert (Hold : forall x, In x L -> Runner.runnerId x = GitHubRunner.id g ->
                           Runner.name x = GitHubRunner.name g).
  { intros x Hx E.
    assert (Hm : In x mem) by (apply I3; [exact Hx | now rewrite E]).
    destruct (I5 x Hm) as [_ Ha]. apply (agrees_iff x g); auto. }
  split; [|split; [|split; [|split]]].
  - intros x g' Hx Hg' E. apply HL' in Hx. apply in_app_or in Hg'.
    destruct Hx as [-> | [Hx Hn]], Hg' as [Hg' | [<- | []]].
    + exfalso. apply Fid. rewrite <- Rid, E. now apply in_map.
    + now split.
    + now apply (I1 x g').
    + exfalso. apply Hn. rewrite Rname. now apply Hold.
  - intros g' Hg'. apply in_app_or in Hg'. destruct Hg' as [Hg' | [<- | []]].
    + destruct (I2 g' Hg') as [x [Hx Ex]]. exists x. split; [|exact Ex].
      apply HL'. right. split; [exact Hx|].
      destruct (I1 x g' Hx Hg' Ex) as [_ En]. rewrite En, Rname.
      intros E. apply Fname. rewrite <- E. now apply in_map.
    + exists r. split; [apply HL'; now left | exact Rid].
  - intros x Hx Hn. apply HL' in Hx. destruct Hx as [-> | [Hx _]].
    + exfalso. apply Hn. rewrite map_app, Rid. apply in_or_app. right. now left.
    + apply Hmem.
      * apply I3; [exact Hx|]. intros Hin. apply Hn. rewrite map_app.
        apply in_or_app. now left.
      * intros E. apply Hn. rewrite map_app, E. apply in_or_app. right. now left.
  - intros x Hx. apply HL' in Hx.
    destruct Hx as [-> | [Hx _]]; [exact Rrepo | now apply I4].
  - intros e He. destruct (Hmem' e He) as [-> | He']; [|now apply I5].
    split; [exact Rrepo|]. intros g' Hg'.
    apply agrees_iff. rewrite Rid, Rname. split; intros E.
    + now rewrite (NoDup_map_inj _ _ _ _ Nid Hg Hg' E).
    + now rewrite (NoDup_map_inj _ _ _ _ Nname Hg Hg' E).
Qed.

Lemma sweepInv_step (repoId : string) (rs : list GitHubRunner.t) (ids : list Z)
    (e : Runner.t) (todo L L' : list Runner.t) :
  (forall z, In z ids <-> In z (map GitHubRunner.id rs)) ->
  sweepInv repoId rs (e :: todo) L ->
  (if swept ids e
   then forall x, In x L' <-> x = Runner.withStatus RunnerStatus_UNKNOWN e
                              \/ (In x L /\ Runner.name x <> Runner.name e)
   else L' = L) ->
  sweepInv repoId rs todo L'.
Proof.
  intros Hids [S1 [S2 [S3 [S4 S5]]]] HL'.
  destruct (swept ids e) eqn:Sw.
  - unfold swept in Sw. apply andb_true_iff in Sw. destruct Sw as [Hh _].
    apply negb_true_iff in Hh.
    assert (Hout : ~ In (Runner.runnerId e) (map GitHubRunner.id rs)).
    { intros Hin. apply Hids, has_In in Hin. congruence. }
    destruct (S5 e (or_introl eq_refl)) as [Erepo Eagr].
    split; [|split; [|split; [|split]]].
    + intros x g Hx Hg E. apply HL' in Hx. destruct Hx as [-> | [Hx _]].
      * exfalso. apply Hout. cbn in E. rewrite E. now apply in_map.
      * now apply S1.
    + intros g Hg. destruct (S2 g Hg) as [x [Hx Ex]]. exists x. split; [|exact Ex].
      apply HL'. right. split; [exact Hx|]. intros En.
      destruct (S1 x g Hx Hg Ex) as [_ Exn].
      apply Hout. assert (Ee : Runner.runnerId e = GitHubRunner.id g).
      { apply (agrees_iff e g); [now apply Eagr | congruence]. }
      rewrite Ee. now apply in_map.
    + intros x Hx Hn. apply HL' in Hx. destruct Hx as [-> | [Hx Hne]]; [now left|].
      destruct (S3 x Hx Hn) as [U | [<- | Ht]]; [now left | | now right].
      exfalso. now apply Hne.
    + intros x Hx. apply HL' in Hx. destruct Hx as [-> | [Hx _]]; [exact Erepo | now apply S4].
    + intros x Hx. apply S5. now right.
  - subst L'. split; [exact S1|]. split; [exact S2|]. split; [|split; [exact S4|]].
    + intros x Hx Hn. destruct (S3 x Hx Hn) as [U | [<- | Ht]]; [now left | | now right].
      left. unfold swept in Sw. apply andb_false_iff in Sw. destruct Sw as [Sw | Sw].
      * exfalso. apply negb_false_iff, has_In, Hids in Sw. contradiction.
      * now apply negb_false_iff, status_eqb_eq in Sw.
    + intros x Hx. apply S5. now right.
Qed.

Lemma bind_Returned {A B : Type} (m : M A) (f : A -> M B) (w w' : World) (b : B) :
  bind m f w = (Returned b, w') ->
  exists a w1, m w = (Returned a, w1) /\ f a w1 = (Returned b, w').
Proof.
  unfold bind. destruct (m w) as [[a|e] w1]; [eauto | discriminate].
Qed.

(** What the loop body hands to the next iteration when it returns. *)
Lemma reconcileRunner_result (env : Env) (repoId : string) (hook : option string)
    (g : GitHubRunner.t) (mem : list Runner.t) (ids : list Z) (w w' : World)
    (st : list Runner.t * list Z) :
  reconcileRunner env repoId hook g (mem, ids) w = (Returned st, w') ->
  st = (match findRunner (GitHubRunner.id g) mem with
        | Some e => assignFound (GitHubRunner.id g)
                      (updatedRunner e g (clock env (ticks w))) mem
        | None => mem
        end, GitHubRunner.id g :: ids).
Proof.
  destruct (findRunner (GitHubRunner.id g) mem) as [e|] eqn:F.
  - rewrite (reconcileRunner_found _ _ _ _ _ _ _ _ F). cbv zeta. intros H.
    apply bind_Returned in H. destruct H as [_ [w1 [_ H]]].
    apply bind_Returned in H. destruct H as [_ [w2 [_ H]]].
    unfold ret in H. now injection H as <- _.
  - rewrite (reconcileRunner_new _ _ _ _ _ _ _ F). cbv zeta. intros H.
    apply bind_Returned in H. destruct H as [_ [w1 [_ H]]].
    unfold ret in H. now injection H as <- _.
Qed.

Lemma NoDup_app_mid {A : Type} (l1 l2 : list A) (a : A) :
  NoDup (l1 ++ a :: l2) -> ~ In a l1.
Proof.
  intros H Hin. apply NoDup_remove_2 in H. apply H, in_or_app. now left.
Qed.

Lemma diff_establishes (env : Env) (repoId : string) (hook : option string)
    (rs : list GitHubRunner.t) :
  NoDup (map GitHubRunner.id rs) -> NoDup (map GitHubRunner.name rs) ->
  forall (rest seen : list GitHubRunner.t) (mem : list Runner.t) (ids : list Z)
         (w w' : World) (st : list Runner.t * list Z),
    rs = seen ++ rest ->
    diffInv repoId rs seen mem (runnersOf repoId (runners w)) ->
    forEach (reconcileRunner env repoId hook) rest (mem, ids) w = (Returned st, w') ->
    diffInv repoId rs rs (fst st) (runnersOf repoId (runners w'))
    /\ snd st = rev (map GitHubRunner.id rest) ++ ids.
Proof.
  intros Nid Nname. induction rest as [|g rest IH];
    intros seen mem ids w w' st Hrs Hinv Hrun.
  - cbn in Hrun. unfold ret in Hrun. injection Hrun as <- <-.
    rewrite app_nil_r in Hrs. subst seen. split; [exact Hinv | reflexivity].
  - cbn [forEach] in Hrun. apply bind_Returned in Hrun.
    destruct Hrun as [st1 [w1 [Hstep Hrest]]].
    pose proof (reconcileRunner_result _ _ _ _ _ _ _ _ _ Hstep) as Hst1.
    pose proof (reconcileRunner_runners env repoId hook g mem ids w) as [Hw1 _].
    rewrite Hstep in Hw1. cbn [snd] in Hw1.
    set (r := match findRunner (GitHubRunner.id g) mem with
              | Some e => updatedRunner e g (clock env (ticks w))
              | None => createdRunner repoId g (clock env (ticks w))
              end) in *.
    assert (Hg : In g rs) by (rewrite Hrs; apply in_or_app; right; now left).
    assert (Hseen : forall g', In g' seen -> In g' rs)
      by (intros g' H; rewrite Hrs; apply in_or_app; now left).
    assert (Fid : ~ In (GitHubRunner.id g) (map GitHubRunner.id seen)).
    { rewrite Hrs, map_app in Nid. cbn in Nid. exact (NoDup_app_mid _ _ _ Nid). }
    assert (Fname : ~ In (GitHubRunner.name g) (map GitHubRunner.name seen)).
    { rewrite Hrs, map_app in Nname. cbn in Nname. exact (NoDup_app_mid _ _ _ Nname). }
    assert (Rrepo : Runner.repoId r = repoId).
    { subst r. destruct (findRunner _ mem) as [e|] eqn:F; [|reflexivity].
      cbn. destruct (findRunner_Some _ _ _ F) as [He _].
      destruct Hinv as [_ [_ [_ [_ I5]]]]. now apply I5. }
    pose proof (diffInv_step repoId rs seen g mem (runnersOf repoId (runners w))
                  (runnersOf repoId (runners w1)) (clock env (ticks w))
                  Nid Nname Hseen Hg Fid Fname Hinv) as Hstep'.
    cbv zeta in Hstep'. fold r in Hstep'.
    assert (HL : forall x, In x (runnersOf repoId (runners w1))
                           <-> x = r \/ (In x (runnersOf repoId (runners w))
                                         /\ Runner.name x <> Runner.name r)).
    { intros x. rewrite Hw1. now apply In_runnersOf_put. }
    specialize (Hstep' HL).
    assert (Est : st1 = (match findRunner (GitHubRunner.id g) mem with
                         | Some _ => assignFound (GitHubRunner.id g) r mem
                         | None => mem
                         end, GitHubRunner.id g :: ids)).
    { rewrite Hst1. subst r. now destruct (findRunner _ mem). }
    rewrite Est in Hrest.
    destruct (IH (seen ++ [g]) _ _ w1 w' st
                 ltac:(rewrite <- app_assoc; exact Hrs) Hstep' Hrest) as [HI Hids].
    split; [exact HI|]. rewrite Hids. cbn [map rev]. now rewrite <- app_assoc.
Qed.

Lemma sweep_cons_snd (env : Env) (hook : option string) (ids : list Z)
    (e : Runner.t) (todo : list Runner.t) (w : World) :
  snd (sweep env hook ids (e :: todo) w)
  = snd (sweep env hook ids todo (snd (sweepRunner env hook ids e w))).
Proof.
  cbn [sweep]. unfold bind at 1.
  pose proof (sweepRunner_returns env hook ids e w) as H.
  destruct (sweepRunner env hook ids e w) as [[e'|err] w1]; cbn in H; [|discriminate].
  cbn [snd]. unfold bind.
  now destruct (sweep env hook ids todo w1) as [[rs'|err] w2].
Qed.

Lemma sweep_establishes (env : Env) (repoId : string) (hook : option string)
    (rs : list GitHubRunner.t) (ids : list Z) :
  (forall z, In z ids <-> In z (map GitHubRunner.id rs)) ->
  forall (todo : list Runner.t) (w : World),
    sweepInv repoId rs todo (runnersOf repoId (runners w)) ->
    sweepInv repoId rs [] (runnersOf repoId (runners (snd (sweep env hook ids todo w)))).
Proof.
  intros Hids. induction todo as [|e todo IH]; intros w Hinv; [exact Hinv|].
  rewrite sweep_cons_snd. apply IH.
  apply (sweepInv_step repoId rs ids e todo (runnersOf repoId (runners w)) _ Hids Hinv).
  pose proof (sweepRunner_effect env hook ids e w) as Heff. cbv zeta in Heff.
  destruct (swept ids e).
  - destruct Heff as [Hr _]. intros x. rewrite Hr.
    destruct Hinv as [_ [_ [_ [_ S5]]]].
    destruct (S5 e (or_introl eq_refl)) as [Erepo _].
    exact (In_runnersOf_put repoId (Runner.withStatus RunnerStatus_UNKNOWN e) x
             (runners w) Erepo).
  - now rewrite Heff.
Qed.

(** A first run that returns leaves a store that reflects the fetched set,
    when the fetched set is well formed against the stored runners. *)
Lemma reconcile_settles (env : Env) (repoId : string) (hook : option string)
    (rs : list GitHubRunner.t) (w : World) :
  wellPaired rs (runnersOf repoId (runners w)) = true ->
  returned (fst (reconcile env repoId hook rs w)) = true ->
  settled rs (runnersOf repoId (runners (snd (reconcile env repoId hook rs w)))).
Proof.
  intros Hwp Hret. unfold wellPaired in Hwp.
  apply andb_true_iff in Hwp. destruct Hwp as [Hwp Hagr].
  apply andb_true_iff in Hwp. destruct Hwp as [Hid Hname].
  apply (distinct_NoDup Z.eqb _ Z.eqb_eq) in Hid.
  apply (distinct_NoDup String.eqb _ String.eqb_eq) in Hname.
  rewrite forallb_forall in Hagr.
  assert (Hinit : diffInv repoId rs [] (runnersOf repoId (runners w))
                    (runnersOf repoId (runners w))).
  { split; [intros x g _ []|]. split; [intros g []|]. split; [auto|].
    split; [intros x Hx; now apply In_runnersOf in Hx|].
    intros e He. split; [now apply In_runnersOf in He|].
    intros g Hg. specialize (Hagr e He). rewrite forallb_forall in Hagr. auto. }
  unfold reconcile in *. unfold bind at 1 in Hret. unfold bind at 1.
  unfold fetchExistingRunners in *. unfold bind in *.
  destruct (forEach (reconcileRunner env repoId hook) rs
              (runnersOf repoId (runners w), []) w) as [[st|err] w1] eqn:Hdiff;
    [|discriminate Hret].
  destruct (diff_establishes env repoId hook rs Hid Hname rs [] _ _ _ _ _
              eq_refl Hinit Hdiff) as [[I1 [I2 [I3 [I4 I5]]]] Hids].
  assert (Hids' : forall z, In z (snd st) <-> In z (map GitHubRunner.id rs)).
  { intros z. rewrite Hids, app_nil_r, <- in_rev. reflexivity. }
  assert (Hs : sweepInv repoId rs (fst st) (runnersOf repoId (runners w1))).
  { split; [exact I1|]. split; [exact I2|]. split; [|split; [exact I4 | exact I5]].
    intros x Hx Hn. right. now apply I3. }
  pose proof (sweep_establishes env repoId hook rs (snd st) Hids' (fst st) w1 Hs)
    as [S1 [S2 [S3 _]]].
  split; [exact S2|]. split.
  - intros x g Hx Hg E. now apply (S1 x g).
  - intros x Hx Hn. destruct (S3 x Hx Hn) as [U | []]. exact U.
Qed.

(** C5. The reconciliation is not idempotent in the code, in two
    situations. First, runner A is stored as OFFLINE and runner B as IDLE,
    and the fetch reports A online and B offline. The recovery message for
    A is posted outside any [try], the sink rejects it, and the first run
    throws before it reaches B. The second run over the same fetch opens
    B's outage and posts its alert. Second, runner A (id 1) was registered
    again and the fetch reports id 7 under its name. Both runs return; the
    first creates the runner and opens its outage, the sweep then puts the
    object of id 1 back under the name, and the second run over the same
    fetch finds no runner of id 7: it creates it again, opens outage 2 for
    it and posts a second alert. The first situation is the same through
    the handler, whose catch logs the error of the first pass. *)
Theorem second_run_not_quiet :
  fst (reconcile envFirstPostFails "ci" hook fetchedRecovery recovering)
  = Thrown PostError
  /\ newEvents recovering recovering1
     = [EvPutRunner (Runner.mk 1 "ci" "A" RunnerStatus_IDLE true "linux"
                       [mkLabel "self-hosted"] 1000 900);
        EvPost hook (mkSlackMessage Recovery "ci" "A" "Idle" 0) false]
  /\ newEvents recovering1
       (snd (reconcile envFirstPostFails "ci" hook fetchedRecovery recovering1))
     = [EvPutRunner (Runner.mk 1 "ci" "A" RunnerStatus_IDLE true "linux"
                       [mkLabel "self-hosted"] 1001 900);
        EvPutRunner (Runner.mk 2 "ci" "B" RunnerStatus_OFFLINE true "linux"
                       [mkLabel "self-hosted"] 1002 900);
        EvPutOutage (OutageEvent.mk 1 "ci" 2 "B" RunnerStatus_OFFLINE 1003 0
                       "Runner B entered Offline state" false);
        EvPost hook (mkSlackMessage Alert "ci" "B" "Offline" 1) true;
        EvPutOutage (OutageEvent.mk 1 "ci" 2 "B" RunnerStatus_OFFLINE 1003 0
                       "Runner B entered Offline state" true)]
  /\ quiet (newEvents recovering1
              (snd (reconcile envFirstPostFails "ci" hook fetchedRecovery recovering1)))
     = false
  /\ returned (fst (reconcile env0 "ci" hook [ghA7] reRegistered)) = true
  /\ returned (fst (reconcile env0 "ci" hook [ghA7] reRegistered1)) = true
  /\ outages reRegistered1
     = [OutageEvent.mk 1 "ci" 1 "A" RunnerStatus_UNKNOWN 1002 0
          "Runner A entered Unknown state" true;
        OutageEvent.mk 1 "ci" 7 "A" RunnerStatus_OFFLINE 1001 0
          "Runner A entered Offline state" true]
  /\ runners reRegistered1
     = [Runner.mk 1 "ci" "A" RunnerStatus_UNKNOWN true "linux"
          [mkLabel "self-hosted"] 900 900]
  /\ newEvents reRegistered1
       (snd (reconcile env0 "ci" hook [ghA7] reRegistered1))
     = [EvPutRunner (Runner.mk 7 "ci" "A" RunnerStatus_OFFLINE true "linux"
                       [mkLabel "self-hosted"] 1003 1003);
        EvPutOutage (OutageEvent.mk 2 "ci" 7 "A" RunnerStatus_OFFLINE 1004 0
                       "Runner A entered Offline state" false);
        EvPost hook (mkSlackMessage Alert "ci" "A" "Offline" 2) true;
        EvPutOutage (OutageEvent.mk 2 "ci" 7 "A" RunnerStatus_OFFLINE 1004 0
                       "Runner A entered Offline state" true)]
  /\ quiet (newEvents reRegistered1
              (snd (reconcile env0 "ci" hook [ghA7] reRegistered1)))
     = false
  /\ fst (handler envRecoveryFails (Some paramsCi) recovering)
     = Returned (mkResponse 200 "GitHub runner monitoring completed successfully")
  /\ newEvents recovering recoveringPass1
     = [EvPutRepository (Repository.mk "ci" "acme" "ci" true 1000);
        EvPutRunner (Runner.mk 1 "ci" "A" RunnerStatus_IDLE true "linux"
                       [mkLabel "self-hosted"] 1001 900);
        EvPost hook (mkSlackMessage Recovery "ci" "A" "Idle" 0) false;
        EvConsoleError PostError]
  /\ newEvents recoveringPass1 recoveringPass2
     = [EvPutRepository (Repository.mk "ci" "acme" "ci" true 1002);
        EvPutRunner (Runner.mk 1 "ci" "A" RunnerStatus_IDLE true "linux"
                       [mkLabel "self-hosted"] 1003 900);
        EvPutRunner (Runner.mk 2 "ci" "B" RunnerStatus_OFFLINE true "linux"
                       [mkLabel "self-hosted"] 1004 900);
        EvPutOutage (OutageEvent.mk 1 "ci" 2 "B" RunnerStatus_OFFLINE 1005 0
                       "Runner B entered Offline state" false);
        EvPost hook (mkSlackMessage Alert "ci" "B" "Offline" 1) true;
        EvPutOutage (OutageEvent.mk 1 "ci" 2 "B" RunnerStatus_OFFLINE 1005 0
                       "Runner B entered Offline state" true)].
Proof. vm_compute. repeat split. Qed.

(** X17. When the fetched set has pairwise distinct ids and names, every
    stored runner of the repository has the id of a reported runner
    exactly when it has its name, and the first run returns, then a second
    run over the same fetched set returns, writes no outage event and posts
    nothing: it only stores the reported runners again. In particular the
    runners that the fetch does not report are UNKNOWN after the first run
    and the second run writes none of them. *)
Theorem second_run_quiet_after_completed_first
    (env : Env) (repoId : string) (slackWebhook : option string)
    (rs : list GitHubRunner.t) (w : World) :
  wellPaired rs (runnersOf repoId (runners w)) = true ->
  returned (fst (reconcile env repoId slackWebhook rs w)) = true ->
  let w1 := snd (reconcile env repoId slackWebhook rs w) in
  let second := reconcile env repoId slackWebhook rs w1 in
  returned (fst second) = true
  /\ quiet (newEvents w1 (snd second)) = true
  /\ outages (snd second) = outages w1
  /\ (forall x, In x (runnersOf repoId (runners w1)) ->
                ~ In (Runner.runnerId x) (map GitHubRunner.id rs) ->
                Runner.status x = RunnerStatus_UNKNOWN)
  /\ (forall r, In (EvPutRunner r) (newEvents w1 (snd second)) ->
                In (Runner.runnerId r) (map GitHubRunner.id rs)).
Proof.
  intros Hwp Hret w1 second.
  pose proof (reconcile_settles env repoId slackWebhook rs w Hwp Hret) as Hs.
  fold w1 in Hs.
  destruct (reconcile_settled env repoId slackWebhook rs w1 Hs) as [Hr [Ho Hobs]].
  fold second in Hr, Ho, Hobs. unfold observationsOnly in Hobs.
  rewrite Forall_forall in Hobs.
  split; [exact Hr|]. split; [|split; [|split]].
  - unfold quiet. apply forallb_forall. intros ev Hev.
    destruct (Hobs ev Hev) as [r [-> _]]. reflexivity.
  - exact Ho.
  - apply Hs.
  - intros r Hin. destruct (Hobs _ Hin) as [r' [E Hid]]. now injection E as ->.
Qed.

Lemma second_run_quiet_after_completed_first_witness :
  quiet (newEvents steady1 (snd (reconcile env0 "ci" hook fetchedSteady steady1)))
  = true
  /\ outages (snd (reconcile env0 "ci" hook fetchedSteady steady1)) = outages steady1.
Proof.
  pose proof (second_run_quiet_after_completed_first env0 "ci" hook fetchedSteady
                steady eq_refl eq_refl) as T.
  split; [exact (proj1 (proj2 T)) | exact (proj1 (proj2 (proj2 T)))].
Defined.

(** ** Further properties: parameters and status texts *)

(** X1. The alert text of a status ([statusToString]) and its query text
    ([getRunnerStatusText]) are the same for every named status; they
    differ on the zero value only, which the query renders like UNKNOWN
    while the alert text tells all six values apart. *)
Theorem status_texts_agree :
  (forall s, s = RunnerStatus_UNSPECIFIED
             \/ getRunnerStatusText s = statusToString s)
  /\ (forall a b, statusToString a = statusToString b -> a = b)
  /\ getRunnerStatusText RunnerStatus_UNSPECIFIED
     = getRunnerStatusText RunnerStatus_UNKNOWN.
Proof.
  split; [|split].
  - intros s. destruct s; auto.
  - intros a b. destruct a, b; cbn; intros H; try reflexivity; discriminate H.
  - reflexivity.
Qed.





(** ** Further properties: the handler and the repository record *)

Lemma forEach_app {A S : Type} (body : A -> S -> M S) (xs ys : list A) (s : S)
    (w : World) :
  forEach body (xs ++ ys) s w = bind (forEach body xs s) (forEach body ys) w.
Proof.
  revert s w. induction xs as [|x xs IH]; intros s w; cbn; [reflexivity|].
  unfold bind. destruct (body x s w) as [[s1|e] w1]; [|reflexivity].
  rewrite IH. reflexivity.
Qed.

Lemma passOver_loop (env : Env) (token : string) (storeId : Z)
    (hook : option string) (repos : list string) (w : World) :
  passOver env token storeId hook repos w
  = snd (forEach (fun repo (_ : unit) =>
                    tryCatch (processRepository env (mkParams token None None hook) repo)
                             (fun repoError => consoleError repoError))
                 repos tt w).
Proof.
  unfold passOver, handler, tryCatch. cbn [statelydbStoreId repositoriesParam].
  unfold bind.
  pose proof (repositories_loop_returns env (mkParams token None None hook) repos w)
    as H.
  change (forEach (fun repo (_ : unit) =>
                     tryCatch (processRepository env
                                 (mkParams token (Some storeId) (Some repos) hook) repo)
                              (fun repoError => consoleError repoError)) repos tt w)
    with (forEach (fun repo (_ : unit) =>
                     tryCatch (processRepository env (mkParams token None None hook) repo)
                              (fun repoError => consoleError repoError)) repos tt w).
  destruct (forEach _ repos tt w) as [[[]|e] w1]; cbn in H; [reflexivity | discriminate].
Qed.

(** X3. A pass over a list of repositories is the pass over its first part
    followed by the pass over the rest: repositories are processed in
    order, each on the world the previous ones left, and no failure in one
    of them stops the ones after it. *)
Theorem pass_composes
    (env : Env) (token : string) (storeId : Z) (slackWebhook : option string)
    (first rest : list string) (w : World) :
  passOver env token storeId slackWebhook (first ++ rest) w
  = passOver env token storeId slackWebhook rest
      (passOver env token storeId slackWebhook first w).
Proof.
  rewrite !passOver_loop, forEach_app. unfold bind.
  pose proof (repositories_loop_returns env (mkParams token None None slackWebhook)
                first w) as H.
  destruct (forEach _ first tt w) as [[[]|e] w1]; cbn in H; [reflexivity | discriminate].
Qed.


Lemma upserted_key (owner name : string) (now : Z) (stored : list Repository.t) :
  repositoryKey (upserted owner name now stored) = name.
Proof.
  unfold upserted.
  destruct (tableGet repositoryKey String.compare name stored) as [r|] eqn:G;
    [|reflexivity].
  apply (tableGet_Some repositoryKey String.compare string_compare_eq) in G.
  now destruct G.
Qed.

(** The start of [processRepository]: the record is stored, then the rest
    runs. *)
Lemma processRepository_upsert (env : Env) (p : Params) (o n : string) (w : World) :
  noSlash o = true -> noSlash n = true ->
  processRepository env p (o ++ "/" ++ n) w
  = (runners <- fetchGitHubRunners env (o ++ "/" ++ n) ;;
     _ <- reconcile env n (slackWebhook p) runners ;;
     ret tt)
      (mkWorld (putRepositoryItem (upserted o n (clock env (ticks w)) (repositories w))
                  (repositories w))
               (runners w) (outages w) (S (ticks w)) (posts w) (fetches w)
               (trace w ++ [EvPutRepository
                              (upserted o n (clock env (ticks w)) (repositories w))])).
Proof.
  intros Ho Hn. destruct (repoIdOf_name o n Ho Hn) as [Eo En].
  unfold repoIdOf in En. unfold processRepository, upserted.
  change (o ++ "/" ++ n)%string with (o ++ String "/" n)%string.
  rewrite Eo, En. unfold bind at 1. unfold getRepository at 1.
  destruct (tableGet repositoryKey String.compare n (repositories w)); reflexivity.
Qed.

(** X5. Whatever happens after it (a failed fetch, a failed recovery post),
    processing "owner/name" leaves the repository record readable under
    the name: a stored record keeps its owner, name and [isActive] flag
    and gets [lastSyncedAt] set to the clock reading; a missing one is
    created active with the configured owner. *)
Theorem repository_record_upserted
    (env : Env) (p : Params) (o n : string) (w : World) :
  noSlash o = true -> noSlash n = true ->
  let w' := snd (processRepository env p (o ++ "/" ++ n) w) in
  tableGet repositoryKey String.compare n (repositories w')
  = Some (match tableGet repositoryKey String.compare n (repositories w) with
          | Some r => Repository.mk (Repository.repoId r) (Repository.owner r)
                        (Repository.name r) (Repository.isActive r)
                        (clock env (ticks w))
          | None => Repository.mk n o n true (clock env (ticks w))
          end).
Proof.
  intros Ho Hn w'. subst w'. rewrite (processRepository_upsert env p o n w Ho Hn).
  set (rec := upserted o n (clock env (ticks w)) (repositories w)).
  set (w1 := mkWorld _ _ _ _ _ _ _).
  assert (Hrest : maintains sameRepositories
                    (runners <- fetchGitHubRunners env (o ++ "/" ++ n) ;;
                     _ <- reconcile env n (slackWebhook p) runners ;;
                     ret tt)).
  { apply (maintains_bind _ sameRepositories_trans).
    - intros w2. unfold fetchGitHubRunners.
      destruct (github env (fetches w2) _); reflexivity.
    - intros rs. apply (maintains_bind _ sameRepositories_trans).
      + apply reconcile_sameRepositories.
      + intros ers w2. reflexivity. }
  rewrite (Hrest w1). cbn [repositories w1].
  rewrite <- (upserted_key o n (clock env (ticks w)) (repositories w)) at 1.
  fold rec. unfold putRepositoryItem.
  rewrite (tableGet_tablePut repositoryKey String.compare rec _ string_compare_eq).
  reflexivity.
Qed.

Lemma repository_record_upserted_witness :
  tableGet repositoryKey String.compare "ci"
    (repositories (snd (processRepository env0 paramsCi "acme/ci" emptyWorld)))
  = Some (Repository.mk "ci" "acme" "ci" true 1000).
Proof.
  exact (repository_record_upserted env0 paramsCi "acme" "ci" emptyWorld
           eq_refl eq_refl).
Defined.


(** X6. When the fetch of a repository fails, the repository record is
    stored all the same (with [lastSyncedAt] advanced), no runner and no
    outage is touched, nothing is posted, and the error is logged twice:
    by [fetchGitHubRunners] and by the handler's catch, which then goes on
    to the next repository. *)
Theorem failed_fetch_is_isolated
    (env : Env) (p : Params) (o n : string) (w : World) :
  noSlash o = true -> noSlash n = true ->
  github env (fetches w) (o ++ "/" ++ n) = None ->
  let run := tryCatch (processRepository env p (o ++ "/" ++ n))
                      (fun repoError => consoleError repoError) w in
  fst (processRepository env p (o ++ "/" ++ n) w) = Thrown FetchError
  /\ fst run = Returned tt
  /\ runners (snd run) = runners w
  /\ outages (snd run) = outages w
  /\ newEvents w (snd run)
     = [EvPutRepository (upserted o n (clock env (ticks w)) (repositories w));
        EvConsoleError FetchError; EvConsoleError FetchError].
Proof.
  intros Ho Hn Hf run. subst run.
  set (rec := upserted o n (clock env (ticks w)) (repositories w)).
  assert (Hrun : processRepository env p (o ++ "/" ++ n) w
                 = (Thrown FetchError,
                    mkWorld (putRepositoryItem rec (repositories w)) (runners w)
                            (outages w) (S (ticks w)) (posts w) (S (fetches w))
                            (trace w ++ [EvPutRepository rec;
                                         EvConsoleError FetchError]))).
  { rewrite (processRepository_upsert env p o n w Ho Hn). fold rec.
    unfold bind at 1. unfold fetchGitHubRunners. cbn [fetches]. rewrite Hf.
    cbn. rewrite <- app_assoc. reflexivity. }
  unfold tryCatch. rewrite Hrun. cbn.
  repeat split. apply newEvents_app. cbn. rewrite <- app_assoc. reflexivity.
Qed.

Lemma failed_fetch_is_isolated_witness :
  fst (processRepository env0 paramsCi "acme/ci" worldTwoOutages) = Thrown FetchError
  /\ fst (tryCatch (processRepository env0 paramsCi "acme/ci")
            (fun repoError => consoleError repoError) worldTwoOutages) = Returned tt
  /\ outages (snd (tryCatch (processRepository env0 paramsCi "acme/ci")
                     (fun repoError => consoleError repoError) worldTwoOutages))
     = outages worldTwoOutages.
Proof.
  pose proof (failed_fetch_is_isolated env0 paramsCi "acme" "ci" worldTwoOutages
                eq_refl eq_refl eq_refl) as T.
  split; [exact (proj1 T)|]. split; [exact (proj1 (proj2 T))|].
  exact (proj1 (proj2 (proj2 (proj2 T)))).
Defined.


(** ** Further properties: the sweep and the recovery *)


(** X8. A stored runner that goes from an unhealthy to a healthy status
    while the latest outage of its history is open: the runner is stored,
    the outage is stored with [resolvedAt] set to the clock reading, and
    with a webhook the recovery message carries that outage's id. When the
    post fails the step throws, after both writes, and the loop over the
    reported runners stops there: the runners after it are not processed
    in this pass. *)
Theorem recovery_resolves_open_outage
    (env : Env) (repoId : string) (slackWebhook : option string)
    (g : GitHubRunner.t) (rest : list GitHubRunner.t)
    (existingRunners : list Runner.t) (processed : list Z)
    (w : World) (existing : Runner.t) (item : OutageEvent.t) :
  findRunner (GitHubRunner.id g) existingRunners = Some existing ->
  unhealthy (Runner.status existing) = true ->
  unhealthy (mapGitHubStatus g) = false ->
  latest (historyOf repoId (GitHubRunner.id g) (outages w)) = Some item ->
  isOpen item = true ->
  OutageEvent.outageId item <> 0 ->
  let run := reconcileRunner env repoId slackWebhook g (existingRunners, processed) w in
  let r' := updatedRunner existing g (clock env (ticks w)) in
  let item' := OutageEvent.withResolvedAt (clock env (S (ticks w))) item in
  let ok := postOk env (posts w) in
  runners (snd run) = putRunnerItem r' (runners w)
  /\ outages (snd run) = putOutageItem item' (outages w)
  /\ newEvents w (snd run)
     = EvPutRunner r' :: EvPutOutage item'
       :: (if truthy slackWebhook
           then [EvPost slackWebhook
                   (recoveryOf r' (mapGitHubStatus g) (OutageEvent.outageId item)) ok]
           else [])
  /\ fst run = (if truthy slackWebhook && negb ok then Thrown PostError
                else Returned (assignFound (GitHubRunner.id g) r' existingRunners,
                               GitHubRunner.id g :: processed))
  /\ (truthy slackWebhook && negb ok = true ->
      forEach (reconcileRunner env repoId slackWebhook) (g :: rest)
              (existingRunners, processed) w
      = (Thrown PostError, snd run)).
Proof.
  intros Hfind Hold Hnew Hl Ho Hid run r' item' ok.
  assert (Hres : resolveOutage env repoId (GitHubRunner.id g) (afterPutRunner r' w)
                 = (Returned (OutageEvent.outageId item),
                    mkWorld (repositories w) (putRunnerItem r' (runners w))
                      (putOutageItem item' (outages w)) (S (S (ticks w)))
                      (posts w) (fetches w)
                      (trace w ++ [EvPutRunner r'; EvPutOutage item'])))
    by (rewrite (resolveOutage_open env repoId _ (afterPutRunner r' w) item Hl Ho Hid);
        cbn; now rewrite <- app_assoc).
  assert (Hrun :
    run = (if truthy slackWebhook && negb ok then Thrown PostError
           else Returned (assignFound (GitHubRunner.id g) r' existingRunners,
                          GitHubRunner.id g :: processed),
           mkWorld (repositories w) (putRunnerItem r' (runners w))
             (putOutageItem item' (outages w)) (S (S (ticks w)))
             (if truthy slackWebhook then S (posts w) else posts w) (fetches w)
             (trace w ++ EvPutRunner r' :: EvPutOutage item'
                :: (if truthy slackWebhook
                    then [EvPost slackWebhook
                            (recoveryOf r' (mapGitHubStatus g)
                               (OutageEvent.outageId item)) ok]
                    else [])))).
  { subst run. rewrite (reconcileRunner_found _ _ _ _ _ _ _ _ Hfind). cbv zeta.
    fold r'. rewrite Hold, Hnew. cbn [andb negb when].
    unfold bind at 1. unfold ret at 1. unfold bind at 1. unfold bind at 1.
    rewrite Hres.
    destruct (truthy slackWebhook); cbn [when andb].
    - unfold sendSlackRecoveryNotification, axiosPost, bind, ret. cbn.
      fold ok. fold (recoveryOf r' (mapGitHubStatus g) (OutageEvent.outageId item)).
      rewrite <- app_assoc. destruct ok; reflexivity.
    - unfold bind, ret. reflexivity. }
  rewrite Hrun. cbn [fst snd runners outages].
  split; [reflexivity|]. split; [reflexivity|].
  split; [now apply newEvents_app|]. split; [reflexivity|].
  intros Hfail. cbn [forEach]. unfold bind. fold run. rewrite Hrun, Hfail. reflexivity.
Qed.

Lemma recovery_resolves_open_outage_witness :
  outages (snd (reconcileRunner env0 "ci" hook (ghA "online" false)
                  ([storedA RunnerStatus_OFFLINE], []) worldTwoOutages))
  = [outageA 1 RunnerStatus_OFFLINE 960; outageA 2 RunnerStatus_OFFLINE 1001]
  /\ fst (reconcileRunner env0 "ci" hook (ghA "online" false)
            ([storedA RunnerStatus_OFFLINE], []) worldTwoOutages)
     = Returned ([updatedRunner (storedA RunnerStatus_OFFLINE) (ghA "online" false) 1000],
                 [1]).
Proof.
  assert (H : OutageEvent.outageId (outageA 2 RunnerStatus_OFFLINE 0) <> 0)
    by (cbn; lia).
  pose proof (recovery_resolves_open_outage env0 "ci" hook (ghA "online" false) []
                [storedA RunnerStatus_OFFLINE] [] worldTwoOutages
                (storedA RunnerStatus_OFFLINE) (outageA 2 RunnerStatus_OFFLINE 0)
                eq_refl eq_refl eq_refl eq_refl eq_refl H) as T.
  split; [exact (proj1 (proj2 T)) | exact (proj1 (proj2 (proj2 (proj2 T))))].
Defined.


(** ** Further properties: the outage table only grows *)

Section TableKeys.
Context {A K : Type}.
Variable key : A -> K.
Variable cmp : K -> K -> comparison.
Hypothesis cmp_eq : forall a b, cmp a b = Eq <-> a = b.

Lemma NoDup_keys_filter (f : A -> bool) (l : list A) :
  NoDup (map key l) -> NoDup (map key (filter f l)).
Proof.
  induction l as [|x l IH]; cbn; intros H; [constructor|].
  inversion H as [|? ? Hx Hl]; subst. destruct (f x); cbn; [|auto].
  constructor; [|auto]. intros Hin. apply Hx.
  apply in_map_iff in Hin. destruct Hin as [y [Ey Hy]].
  apply filter_In in Hy. rewrite <- Ey. apply in_map. tauto.
Qed.

Lemma NoDup_keys_insertSorted (a : A) (l : list A) :
  (forall x, In x l -> key x <> key a) ->
  NoDup (map key l) -> NoDup (map key (insertSorted key cmp a l)).
Proof.
  intros Hfresh Hnd.
  assert (Ha : ~ In (key a) (map key l)).
  { intros Hin. apply in_map_iff in Hin. destruct Hin as [y [Ey Hy]].
    exact (Hfresh y Hy Ey). }
  induction l as [|x l IH]; cbn.
  - constructor; [intros [] | constructor].
  - destruct (cmp (key a) (key x)); cbn; try (constructor; assumption).
    inversion Hnd as [|? ? Hx Hl]; subst. constructor.
    + intros Hin. apply in_map_iff in Hin. destruct Hin as [y [Ey Hy]].
      apply In_insertSorted in Hy. destruct Hy as [-> | Hy].
      * apply Ha. left. symmetry. exact Ey.
      * apply Hx. rewrite <- Ey. now apply in_map.
    + apply IH; [intros y Hy; apply Hfresh; now right | exact Hl |].
      intros Hin. apply Ha. now right.
Qed.

(** A put keeps the keys of a table pairwise distinct. *)
Lemma NoDup_keys_tablePut (a : A) (l : list A) :
  NoDup (map key l) -> NoDup (map key (tablePut key cmp a l)).
Proof.
  intros H. unfold tablePut. apply NoDup_keys_insertSorted.
  - intros x Hx. apply filter_In in Hx. destruct Hx as [_ Hx].
    apply negb_true_iff in Hx. now apply (sameKey_false cmp cmp_eq).
  - now apply NoDup_keys_filter.
Qed.
End TableKeys.

Lemma withResolvedAt_twice (t t' : Z) (x : OutageEvent.t) :
  OutageEvent.withResolvedAt t' (OutageEvent.withResolvedAt t x)
  = OutageEvent.withResolvedAt t' x.
Proof. reflexivity. Qed.

Lemma historyKept_refl (w : World) : historyKept w w.
Proof. intros U. split; [exact U | auto]. Qed.

Lemma historyKept_trans (a b c : World) :
  historyKept a b -> historyKept b c -> historyKept a c.
Proof.
  intros H1 H2 U. destruct (H1 U) as [U1 P1]. destruct (H2 U1) as [U2 P2].
  split; [exact U2|]. intros x Hx.
  destruct (P1 x Hx) as [Hb | [Ho [t Hb]]].
  - exact (P2 x Hb).
  - right. split; [exact Ho|].
    destruct (P2 _ Hb) as [Hc | [_ [t' Hc]]]; [now exists t | exists t'; exact Hc].
Qed.

Lemma historyKept_same (w w' : World) :
  outages w' = outages w -> historyKept w w'.
Proof. intros E U. rewrite E. split; [exact U | auto]. Qed.

Lemma handleUnhealthyRunner_historyKept (env : Env) (r : Runner.t)
    (s : RunnerStatus) (hook : option string) :
  maintains historyKept (handleUnhealthyRunner env r s hook).
Proof.
  intros w U. rewrite handleUnhealthyRunner_run. cbn.
  set (o := openedOutage r s (clock env (ticks w)) (outages w)).
  assert (Hfresh : forall x, In x (outages w) -> outageKey x <> outageKey o)
    by (intros x Hx; now apply openedOutage_fresh).
  split.
  - unfold uniqueOutageKeys in *.
    destruct (postOk env (posts w)); unfold putOutageItem;
      repeat apply (NoDup_keys_tablePut outageKey cmpOutageKey cmpOutageKey_eq);
      exact U.
  - intros x Hx. left.
    apply (In_outages_opened o x (postOk env (posts w)) (outages w) eq_refl Hfresh).
    now right.
Qed.

Lemma resolveOutage_historyKept (env : Env) (repoId : string) (runnerId : Z) :
  maintains historyKept (resolveOutage env repoId runnerId).
Proof.
  intros w. unfold resolveOutage.
  destruct (latest (historyOf repoId runnerId (outages w))) as [item|] eqn:L;
    [|apply historyKept_refl].
  destruct (negb (negb (OutageEvent.resolvedAt item =? 0))) eqn:Ho;
    [|apply historyKept_refl].
  intros U. unfold bind, dateNow, putOutage, ret. cbn.
  set (t := clock env (ticks w)).
  set (item' := if OutageEvent.outageId item =? 0 then _ else _).
  assert (Hin : In item (outages w)).
  { apply latest_In in L. apply In_historyOf in L. tauto. }
  split.
  - apply (NoDup_keys_tablePut outageKey cmpOutageKey cmpOutageKey_eq). exact U.
  - intros x Hx.
    destruct (cmpOutageKey (outageKey x) (outageKey item')) eqn:C.
    + apply cmpOutageKey_eq in C.
      destruct (OutageEvent.outageId item =? 0) eqn:Z0.
      * left. apply In_putOutageItem. right. split; [exact Hx|].
        subst item'. intros E. unfold outageKey in E. cbn in E.
        injection E as E1 E2 E3.
        assert (Hh : In x (historyOf repoId runnerId (outages w))).
        { apply In_historyOf. apply latest_In, In_historyOf in L.
          destruct L as [_ [L1 L2]]. repeat split; congruence. }
        pose proof (nextOutageId_fresh (OutageEvent.repoId item)
                      (OutageEvent.runnerId item) (outages w) x Hx) as Hne.
        apply Hne. unfold outageKey. congruence.
      * right. subst item'.
        assert (Ex : x = item).
        { apply (NoDup_map_inj outageKey (outages w) x item U Hx Hin). exact C. }
        subst x. split.
        -- apply negb_true_iff, negb_false_iff in Ho. exact Ho.
        -- exists t. apply In_putOutageItem. now left.
    + left. apply In_putOutageItem. right. split; [exact Hx|].
      intros E. apply cmpOutageKey_eq in E. congruence.
    + left. apply In_putOutageItem. right. split; [exact Hx|].
      intros E. apply cmpOutageKey_eq in E. congruence.
Qed.

Lemma handler_historyKept (env : Env) (p : option Params) :
  maintains historyKept (handler env p).
Proof.
  apply (handler_maintains env historyKept historyKept_refl historyKept_trans).
  - intros w. now apply historyKept_same.
  - intros r w. now apply historyKept_same.
  - apply handleUnhealthyRunner_historyKept.
  - apply resolveOutage_historyKept.
  - intros hook r s oid w. now apply historyKept_same.
  - intros r w. now apply historyKept_same.
  - intros repo w. unfold fetchGitHubRunners.
    destruct (github env (fetches w) repo); now apply historyKept_same.
  - intros e w. now apply historyKept_same.
Qed.

(** X9. A pass never deletes an outage event and never changes a resolved
    one. On a table with pairwise distinct keys, the keys are still
    distinct after any pass, every resolved event is stored exactly as it
    was, and every open event is stored as it was or with [resolvedAt] set
    and nothing else changed. *)
Theorem outage_history_only_grows (env : Env) (params : option Params) (w : World) :
  uniqueOutageKeys (outages w) ->
  let w' := snd (handler env params w) in
  uniqueOutageKeys (outages w')
  /\ (forall x, In x (outages w) -> isOpen x = false -> In x (outages w'))
  /\ (forall x, In x (outages w) ->
        In x (outages w')
        \/ exists t, In (OutageEvent.withResolvedAt t x) (outages w')).
Proof.
  intros U w'. destruct (handler_historyKept env params w U) as [U' P].
  split; [exact U'|]. split.
  - intros x Hx Hr. destruct (P x Hx) as [H | [Ho _]]; [exact H | congruence].
  - intros x Hx. destruct (P x Hx) as [H | [_ H]]; auto.
Qed.

Lemma outage_history_only_grows_witness :
  uniqueOutageKeys (outages (snd (handler envRecovery (Some paramsCi) worldTwoRepositories)))
  /\ In (outageA 1 RunnerStatus_OFFLINE 960)
        (outages (snd (handler envRecovery (Some paramsCi) worldTwoRepositories))).
Proof.
  assert (H : uniqueOutageKeys (outages worldTwoRepositories)).
  { unfold uniqueOutageKeys. cbn.
    repeat constructor; cbn; intros K; decompose [or] K; try discriminate; assumption. }
  pose proof (outage_history_only_grows envRecovery (Some paramsCi)
                worldTwoRepositories H) as T.
  split; [exact (proj1 T)|].
  apply (proj1 (proj2 T)); [cbn; auto | reflexivity].
Defined.


(** ** Further properties: a repository's records are its own *)

Lemma filter_insertSorted_out {A K : Type} (key : A -> K)
    (cmp : K -> K -> comparison) (q : A -> bool) (a : A) (l : list A) :
  q a = false -> filter q (insertSorted key cmp a l) = filter q l.
Proof.
  intros Ha. induction l as [|x l IH]; cbn.
  - now rewrite Ha.
  - destruct (cmp (key a) (key x)); cbn; rewrite ?Ha; try reflexivity.
    now rewrite IH.
Qed.

Lemma filter_filter_out {A : Type} (p q : A -> bool) (l : list A) :
  (forall x, q x = true -> p x = true) -> filter q (filter p l) = filter q l.
Proof.
  intros H. induction l as [|x l IH]; cbn; [reflexivity|].
  destruct (p x) eqn:P; cbn.
  - now rewrite IH.
  - destruct (q x) eqn:Q; [|exact IH]. rewrite (H x Q) in P. discriminate.
Qed.

Lemma runnersOf_put_other (other : string) (r : Runner.t) (l : list Runner.t) :
  Runner.repoId r <> other ->
  runnersOf other (putRunnerItem r l) = runnersOf other l.
Proof.
  intros Hne. unfold runnersOf, putRunnerItem, tablePut.
  rewrite filter_insertSorted_out by (now apply String.eqb_neq).
  apply filter_filter_out. intros x Hx. apply String.eqb_eq in Hx.
  apply negb_true_iff, (sameKey_false cmpRunnerKey cmpRunnerKey_eq).
  unfold runnerKey. congruence.
Qed.

Lemma historyOf_put_other (other : string) (runnerId : Z) (o : OutageEvent.t)
    (l : list OutageEvent.t) :
  OutageEvent.repoId o <> other ->
  historyOf other runnerId (putOutageItem o l) = historyOf other runnerId l.
Proof.
  intros Hne. unfold historyOf, putOutageItem, tablePut.
  rewrite filter_insertSorted_out
    by (apply andb_false_iff; left; now apply String.eqb_neq).
  apply filter_filter_out. intros x Hx. apply andb_true_iff in Hx.
  destruct Hx as [Hx _]. apply String.eqb_eq in Hx.
  apply negb_true_iff, (sameKey_false cmpOutageKey cmpOutageKey_eq).
  unfold outageKey. congruence.
Qed.

Lemma othersUntouched_refl (repoId : string) (w : World) : othersUntouched repoId w w.
Proof. intros other _. split; reflexivity. Qed.

Lemma othersUntouched_trans (repoId : string) (a b c : World) :
  othersUntouched repoId a b -> othersUntouched repoId b c ->
  othersUntouched repoId a c.
Proof.
  intros H1 H2 other Hne. destruct (H1 other Hne) as [R1 O1].
  destruct (H2 other Hne) as [R2 O2]. split; [congruence|].
  intros id. rewrite O2. apply O1.
Qed.

Lemma othersUntouched_same (repoId : string) (w w' : World) :
  runners w' = runners w -> outages w' = outages w -> othersUntouched repoId w w'.
Proof. intros R O other _. rewrite R, O. split; reflexivity. Qed.

Lemma putRunner_othersUntouched (repoId : string) (r : Runner.t) :
  Runner.repoId r = repoId -> maintains (othersUntouched repoId) (putRunner r).
Proof.
  intros Hr w other Hne. unfold putRunner. cbn [snd runners outages].
  split; [|reflexivity]. apply runnersOf_put_other. congruence.
Qed.

Lemma handleUnhealthyRunner_othersUntouched (env : Env) (repoId : string)
    (r : Runner.t) (s : RunnerStatus) (hook : option string) :
  Runner.repoId r = repoId ->
  maintains (othersUntouched repoId) (handleUnhealthyRunner env r s hook).
Proof.
  intros Hr w other Hne. rewrite handleUnhealthyRunner_run. cbv zeta.
  cbn [snd runners outages]. split; [reflexivity|]. intros id.
  assert (Ho : OutageEvent.repoId
                 (openedOutage r s (clock env (ticks w)) (outages w)) <> other)
    by (cbn; congruence).
  destruct (postOk env (posts w)).
  - rewrite historyOf_put_other by exact Ho. now apply historyOf_put_other.
  - now apply historyOf_put_other.
Qed.

Lemma resolveOutage_othersUntouched (env : Env) (repoId : string) (runnerId : Z) :
  maintains (othersUntouched repoId) (resolveOutage env repoId runnerId).
Proof.
  intros w. unfold resolveOutage.
  destruct (latest (historyOf repoId runnerId (outages w))) as [item|] eqn:L;
    [|apply othersUntouched_refl].
  destruct (negb (negb _)); [|apply othersUntouched_refl].
  apply latest_In, In_historyOf in L. destruct L as [_ [L1 _]].
  intros other Hne. unfold bind, dateNow, putOutage, ret.
  cbn [fst snd runners outages].
  split; [reflexivity|]. intros id. apply historyOf_put_other.
  match goal with |- context [if ?c then _ else _] => destruct c end;
    cbn; congruence.
Qed.

Lemma reconcileRunner_othersUntouched (env : Env) (repoId : string)
    (hook : option string) (g : GitHubRunner.t) (mem : list Runner.t)
    (ids : list Z) (w : World) :
  Forall (fun e => Runner.repoId e = repoId) mem ->
  othersUntouched repoId w (snd (reconcileRunner env repoId hook g (mem, ids) w)).
Proof.
  intros Hmem.
  assert (Ht : forall r', Runner.repoId r' = repoId ->
                 forall {S : Type} (m : M S),
                   maintains (othersUntouched repoId) m ->
                   othersUntouched repoId w (snd (m (afterPutRunner r' w)))).
  { intros r' Hr S m Hm. eapply othersUntouched_trans; [|apply Hm].
    intros other Hne. unfold afterPutRunner. cbn [runners outages].
    split; [|reflexivity]. apply runnersOf_put_other. congruence. }
  destruct (findRunner (GitHubRunner.id g) mem) as [e|] eqn:F.
  - rewrite (reconcileRunner_found _ _ _ _ _ _ _ _ F). cbv zeta.
    assert (Hr : Runner.repoId (updatedRunner e g (clock env (ticks w))) = repoId).
    { cbn. destruct (findRunner_Some _ _ _ F) as [He _].
      rewrite Forall_forall in Hmem. now apply Hmem. }
    apply (Ht _ Hr).
    apply (maintains_bind _ (othersUntouched_trans repoId)).
    { apply (maintains_when _ (othersUntouched_refl repoId)).
      now apply handleUnhealthyRunner_othersUntouched. }
    intros _. apply (maintains_bind _ (othersUntouched_trans repoId)).
    { apply (maintains_when _ (othersUntouched_refl repoId)).
      apply (maintains_bind _ (othersUntouched_trans repoId));
        [apply resolveOutage_othersUntouched | intros oid].
      apply (maintains_when _ (othersUntouched_refl repoId)).
      intros w1. now apply othersUntouched_same. }
    intros _. apply (maintains_ret _ (othersUntouched_refl repoId)).
  - rewrite (reconcileRunner_new _ _ _ _ _ _ _ F). cbv zeta.
    apply (Ht (createdRunner repoId g (clock env (ticks w))) eq_refl).
    apply (maintains_bind _ (othersUntouched_trans repoId)).
    { apply (maintains_when _ (othersUntouched_refl repoId)).
      now apply handleUnhealthyRunner_othersUntouched. }
    intros _. apply (maintains_ret _ (othersUntouched_refl repoId)).
Qed.

Lemma Forall_assignFound (P : Runner.t -> Prop) (id : Z) (r' : Runner.t)
    (l : list Runner.t) :
  P r' -> Forall P l -> Forall P (assignFound id r' l).
Proof.
  intros Hr H. rewrite Forall_forall in *. intros x Hx.
  apply In_assignFound in Hx. destruct Hx as [-> | Hx]; auto.
Qed.

Lemma diff_othersUntouched (env : Env) (repoId : string) (hook : option string)
    (gs : list GitHubRunner.t) :
  forall (mem : list Runner.t) (ids : list Z) (w : World),
    Forall (fun e => Runner.repoId e = repoId) mem ->
    let run := forEach (reconcileRunner env repoId hook) gs (mem, ids) w in
    othersUntouched repoId w (snd run)
    /\ forall st, fst run = Returned st ->
                  Forall (fun e => Runner.repoId e = repoId) (fst st).
Proof.
  induction gs as [|g gs IH]; intros mem ids w Hmem; cbn.
  - split; [apply othersUntouched_refl|]. intros st E. now injection E as <-.
  - unfold bind.
    pose proof (reconcileRunner_othersUntouched env repoId hook g mem ids w Hmem) as H1.
    destruct (reconcileRunner env repoId hook g (mem, ids) w) as [[st1|err] w1] eqn:Hstep;
      cbn [snd] in H1.
    + pose proof (reconcileRunner_result _ _ _ _ _ _ _ _ _ Hstep) as Est.
      assert (Hmem1 : Forall (fun e => Runner.repoId e = repoId) (fst st1)).
      { rewrite Est. cbn [fst].
        destruct (findRunner (GitHubRunner.id g) mem) as [e|] eqn:F; [|exact Hmem].
        apply Forall_assignFound; [|exact Hmem]. cbn.
        destruct (findRunner_Some _ _ _ F) as [He _].
        rewrite Forall_forall in Hmem. now apply Hmem. }
      destruct st1 as [mem1 ids1]. destruct (IH mem1 ids1 w1 Hmem1) as [H2 H3].
      split; [eapply othersUntouched_trans; eassumption | exact H3].
    + cbn. split; [exact H1 | discriminate].
Qed.

Lemma sweep_othersUntouched (env : Env) (repoId : string) (hook : option string)
    (ids : list Z) (mem : list Runner.t) :
  forall w, Forall (fun e => Runner.repoId e = repoId) mem ->
            othersUntouched repoId w (snd (sweep env hook ids mem w)).
Proof.
  induction mem as [|e mem IH]; intros w Hmem; [apply othersUntouched_refl|].
  inversion Hmem as [|? ? He Hrest]; subst.
  rewrite sweep_cons_snd.
  eapply othersUntouched_trans; [|apply IH; exact Hrest].
  destruct (swept ids e) eqn:S.
  - rewrite (sweepRunner_swept env hook ids e w S). cbv zeta.
    assert (H1 : othersUntouched (Runner.repoId e) w
                   (mkWorld (repositories w)
                      (putRunnerItem (Runner.withStatus RunnerStatus_UNKNOWN e)
                         (runners w))
                      (outages w) (ticks w) (posts w) (fetches w)
                      (trace w ++ [EvPutRunner
                                     (Runner.withStatus RunnerStatus_UNKNOWN e)]))).
    { intros other Hne. cbn [runners outages]. split; [|reflexivity].
      apply runnersOf_put_other. cbn. congruence. }
    destruct (negb _ && _); cbn [snd]; [|exact H1].
    eapply othersUntouched_trans; [exact H1|].
    now apply handleUnhealthyRunner_othersUntouched.
  - rewrite (sweepRunner_unswept env hook ids e w S). apply othersUntouched_refl.
Qed.

Lemma reconcile_othersUntouched (env : Env) (repoId : string) (hook : option string)
    (rs : list GitHubRunner.t) (w : World) :
  othersUntouched repoId w (snd (reconcile env repoId hook rs w)).
Proof.
  unfold reconcile, bind at 1, fetchExistingRunners.
  assert (Hmem : Forall (fun e => Runner.repoId e = repoId)
                   (runnersOf repoId (runners w))).
  { apply Forall_forall. intros e He. now apply In_runnersOf in He. }
  destruct (diff_othersUntouched env repoId hook rs _ [] w Hmem) as [H1 H2].
  unfold bind.
  destruct (forEach (reconcileRunner env repoId hook) rs
              (runnersOf repoId (runners w), []) w) as [[st|err] w1]; cbn [snd] in *.
  - eapply othersUntouched_trans; [exact H1|].
    apply sweep_othersUntouched. now apply H2.
  - exact H1.
Qed.

Lemma tableGet_put_other (other : string) (r : Repository.t) (l : list Repository.t) :
  repositoryKey r <> other ->
  tableGet repositoryKey String.compare other (putRepositoryItem r l)
  = tableGet repositoryKey String.compare other l.
Proof.
  intros Hne. unfold tableGet, putRepositoryItem, tablePut.
  rewrite find_insertSorted_out
    by (now apply (sameKey_false String.compare string_compare_eq)).
  apply find_filter_out. intros x Hx.
  apply (sameKey_true String.compare string_compare_eq) in Hx.
  apply negb_true_iff, (sameKey_false String.compare string_compare_eq). congruence.
Qed.

(** X10. Processing "owner/name" reads and writes the records of that
    name only: for every other repository identifier the stored
    repository record, the listing of its runners and the history of each
    of its runners are the same afterwards, whether the processing
    returns or throws. *)
Theorem other_repositories_untouched
    (env : Env) (p : Params) (o n other : string) (w : World) :
  noSlash o = true -> noSlash n = true -> other <> n ->
  let w' := snd (processRepository env p (o ++ "/" ++ n) w) in
  tableGet repositoryKey String.compare other (repositories w')
  = tableGet repositoryKey String.compare other (repositories w)
  /\ runnersOf other (runners w') = runnersOf other (runners w)
  /\ forall runnerId,
       historyOf other runnerId (outages w') = historyOf other runnerId (outages w).
Proof.
  intros Ho Hn Hne w'. subst w'.
  rewrite (processRepository_upsert env p o n w Ho Hn).
  set (rec := upserted o n (clock env (ticks w)) (repositories w)).
  set (w1 := mkWorld _ _ _ _ _ _ _).
  set (rest := (runners <- fetchGitHubRunners env _ ;; _)).
  assert (Hrepo : maintains sameRepositories rest).
  { subst rest. apply (maintains_bind _ sameRepositories_trans).
    - intros w2. unfold fetchGitHubRunners.
      destruct (github env (fetches w2) _); reflexivity.
    - intros rs. apply (maintains_bind _ sameRepositories_trans).
      + apply reconcile_sameRepositories.
      + intros ers w2. reflexivity. }
  assert (Hoth : maintains (othersUntouched n) rest).
  { subst rest. apply (maintains_bind _ (othersUntouched_trans n)).
    - intros w2. unfold fetchGitHubRunners.
      destruct (github env (fetches w2) _); now apply othersUntouched_same.
    - intros rs. apply (maintains_bind _ (othersUntouched_trans n)).
      + intros w2. apply reconcile_othersUntouched.
      + intros ers. apply (maintains_ret _ (othersUntouched_refl n)). }
  split.
  - rewrite (Hrepo w1). cbn [repositories w1]. apply tableGet_put_other.
    subst rec. rewrite upserted_key. congruence.
  - exact (Hoth w1 other Hne).
Qed.

Lemma other_repositories_untouched_witness :
  runnersOf "web" (runners (snd (processRepository envRecovery paramsCi "acme/ci"
                                   worldTwoRepositories)))
  = [storedWeb]
  /\ historyOf "web" 5 (outages (snd (processRepository envRecovery paramsCi "acme/ci"
                                        worldTwoRepositories)))
     = [outageWeb].
Proof.
  assert (H : "web" <> "ci") by discriminate.
  pose proof (other_repositories_untouched envRecovery paramsCi "acme" "ci" "web"
                worldTwoRepositories eq_refl eq_refl H) as T.
  split; [exact (proj1 (proj2 T)) | exact (proj2 (proj2 T) 5)].
Defined.


(** ** Further properties: the order of an outage history *)

Lemma In_insertDesc (o x : OutageEvent.t) (l : list OutageEvent.t) :
  In x (insertDesc o l) <-> x = o \/ In x l.
Proof.
  induction l as [|y l IH]; cbn; [intuition congruence|].
  destruct (_ <? _); cbn; rewrite ?IH; intuition congruence.
Qed.

Lemma In_sortDesc (x : OutageEvent.t) (l : list OutageEvent.t) :
  In x (sortDesc l) <-> In x l.
Proof.
  induction l as [|y l IH]; cbn; [reflexivity|].
  rewrite In_insertDesc, IH. intuition congruence.
Qed.

Lemma length_insertDesc (o : OutageEvent.t) (l : list OutageEvent.t) :
  List.length (insertDesc o l) = S (List.length l).
Proof.
  induction l as [|y l IH]; cbn; [reflexivity|].
  destruct (_ <? _); cbn; congruence.
Qed.

Lemma length_sortDesc (l : list OutageEvent.t) :
  List.length (sortDesc l) = List.length l.
Proof.
  induction l as [|y l IH]; cbn; [reflexivity|].
  now rewrite length_insertDesc, IH.
Qed.

Lemma decreasing_insertDesc (o : OutageEvent.t) (l : list OutageEvent.t) :
  decreasing l -> decreasing (insertDesc o l).
Proof.
  induction l as [|y l IH]; cbn.
  - intros _. split; [intros x [] | exact I].
  - intros [Hy Hl]. destruct (OutageEvent.outageId o <? OutageEvent.outageId y) eqn:C.
    + apply Z.ltb_lt in C. cbn. split; [|now apply IH].
      intros x Hx. apply In_insertDesc in Hx. destruct Hx as [-> | Hx]; [lia | auto].
    + apply Z.ltb_ge in C. cbn. split; [|split; assumption].
      intros x [<- | Hx]; [lia|]. specialize (Hy x Hx). lia.
Qed.

Lemma decreasing_sortDesc (l : list OutageEvent.t) : decreasing (sortDesc l).
Proof.
  induction l as [|y l IH]; cbn; [exact I | now apply decreasing_insertDesc].
Qed.

Lemma hd_sortDesc (l : list OutageEvent.t) : hd_error (sortDesc l) = latest l.
Proof.
  induction l as [|o l IH]; cbn; [reflexivity|].
  destruct (sortDesc l) as [|m s]; cbn in *; rewrite <- IH; [reflexivity|].
  now destruct (_ <? _).
Qed.

Lemma In_firstn {A : Type} (n : nat) (l : list A) (x : A) :
  In x (firstn n l) -> In x l.
Proof.
  intros H. rewrite <- (firstn_skipn n l). apply in_or_app. now left.
Qed.

Lemma decreasing_firstn (n : nat) (l : list OutageEvent.t) :
  decreasing l -> decreasing (firstn n l).
Proof.
  revert l. induction n as [|n IH]; intros [|o l]; cbn; auto.
  intros [Ho Hl]. split; [|now apply IH].
  intros x Hx. apply Ho. exact (In_firstn n l x Hx).
Qed.

Lemma decreasing_split (a b : list OutageEvent.t) (o x : OutageEvent.t) :
  decreasing (a ++ b) -> In o a -> In x b ->
  OutageEvent.outageId x <= OutageEvent.outageId o.
Proof.
  induction a as [|y a IH]; cbn; [contradiction|].
  intros [Hy Hd] [<- | Ho] Hx.
  - apply Hy, in_or_app. now right.
  - now apply IH.
Qed.

Lemma latest_greatest (l : list OutageEvent.t) (m : OutageEvent.t) :
  In m l ->
  (forall x, In x l -> x = m \/ OutageEvent.outageId x < OutageEvent.outageId m) ->
  latest l = Some m.
Proof.
  intros Hm Hmax. destruct (latest l) as [m'|] eqn:L.
  - pose proof (latest_max l m' L m Hm) as H1.
    destruct (Hmax m' (latest_In l m' L)) as [-> | H2]; [reflexivity | lia].
  - apply latest_None in L. subst l. contradiction.
Qed.

Lemma nextOutageId_above (repoId : string) (runnerId : Z) (l : list OutageEvent.t)
    (x : OutageEvent.t) :
  In x (historyOf repoId runnerId l) ->
  OutageEvent.outageId x < nextOutageId repoId runnerId l.
Proof.
  intros Hx. unfold nextOutageId.
  destruct (latest (historyOf repoId runnerId l)) as [m|] eqn:L.
  - pose proof (latest_max _ _ L x Hx). lia.
  - apply latest_None in L. rewrite L in Hx. contradiction.
Qed.

(** After an opening, the opened outage is the latest of its history. *)
Lemma latest_after_open (env : Env) (r : Runner.t) (s : RunnerStatus)
    (hook : option string) (w : World) :
  let o := openedOutage r s (clock env (ticks w)) (outages w) in
  latest (historyOf (Runner.repoId r) (Runner.runnerId r)
            (outages (snd (handleUnhealthyRunner env r s hook w))))
  = Some (OutageEvent.withNotificationSent (postOk env (posts w)) o).
Proof.
  intros o. rewrite handleUnhealthyRunner_run. cbv zeta. cbn [snd outages]. fold o.
  assert (Hfresh : forall x, In x (outages w) -> outageKey x <> outageKey o)
    by (intros x Hx; now apply openedOutage_fresh).
  apply latest_greatest.
  - apply In_historyOf. split; [|split; reflexivity].
    apply (In_outages_opened o _ _ _ eq_refl Hfresh). now left.
  - intros x Hx. apply In_historyOf in Hx. destruct Hx as [Hx [E1 E2]].
    apply (In_outages_opened o _ _ _ eq_refl Hfresh) in Hx.
    destruct Hx as [-> | Hx]; [now left | right].
    apply (nextOutageId_above (Runner.repoId r) (Runner.runnerId r) (outages w) x).
    apply In_historyOf. auto.
Qed.

(** X11. An outage that was just opened is the one a recovery resolves:
    [resolveOutage], run on the world [handleUnhealthyRunner] left, returns
    the identifier the store assigned at the opening and leaves under that
    key the event of the opening with [resolvedAt] equal to the clock
    reading that follows the one of [startedAt], and [notificationSent]
    telling whether the alert was delivered; every event stored before the
    opening is still stored as it was. *)
Theorem open_then_resolve
    (env : Env) (runner : Runner.t) (status : RunnerStatus)
    (slackWebhook : option string) (w : World) :
  let w1 := snd (handleUnhealthyRunner env runner status slackWebhook w) in
  let id := nextOutageId (Runner.repoId runner) (Runner.runnerId runner) (outages w) in
  let resolved := resolveOutage env (Runner.repoId runner) (Runner.runnerId runner) w1 in
  let stored :=
    OutageEvent.mk id (Runner.repoId runner) (Runner.runnerId runner)
      (Runner.name runner) status
      (clock env (ticks w)) (clock env (S (ticks w)))
      ("Runner " ++ Runner.name runner ++ " entered "
         ++ statusToString status ++ " state")
      (postOk env (posts w)) in
  fst resolved = Returned id
  /\ tableGet outageKey cmpOutageKey
       (Runner.repoId runner, (Runner.runnerId runner, id)) (outages (snd resolved))
     = Some stored
  /\ In stored (outages (snd resolved))
  /\ forall x, In x (outages w) -> In x (outages (snd resolved)).
Proof.
  intros w1 id resolved stored.
  set (o := openedOutage runner status (clock env (ticks w)) (outages w)).
  pose proof (latest_after_open env runner status slackWebhook w) as L.
  cbv zeta in L. fold w1 o in L.
  set (o' := OutageEvent.withNotificationSent (postOk env (posts w)) o) in *.
  assert (Hid : OutageEvent.outageId o' <> 0).
  { cbn. pose proof (nextOutageId_positive (Runner.repoId runner)
                       (Runner.runnerId runner) (outages w)). lia. }
  assert (Hticks : ticks w1 = S (ticks w)).
  { subst w1. rewrite handleUnhealthyRunner_run. cbv zeta.
    now destruct (postOk env (posts w)). }
  assert (Hstored : OutageEvent.withResolvedAt (clock env (ticks w1)) o' = stored)
    by (rewrite Hticks; reflexivity).
  subst resolved.
  rewrite (resolveOutage_open env _ _ w1 o' L eq_refl Hid). cbv zeta.
  cbn [fst snd outages]. rewrite Hstored.
  split; [reflexivity|]. split; [|split].
  - exact (tableGet_tablePut outageKey cmpOutageKey stored (outages w1) cmpOutageKey_eq).
  - apply In_putOutageItem. now left.
  - intros x Hx. apply In_putOutageItem. right.
    assert (Hfresh : outageKey x <> outageKey o) by (now apply openedOutage_fresh).
    split; [|exact Hfresh].
    subst w1. rewrite handleUnhealthyRunner_run. cbv zeta. cbn [snd outages].
    apply (In_outages_opened o x _ _ eq_refl).
    + intros y Hy. now apply openedOutage_fresh.
    + now right.
Qed.

(** ** Further properties: the query surface *)

Lemma readOnly_refl (w : World) : readOnly w w.
Proof. repeat split. Qed.

Lemma readOnly_trans (a b c : World) : readOnly a b -> readOnly b c -> readOnly a c.
Proof.
  intros [A1 [A2 [A3 [A4 A5]]]] [B1 [B2 [B3 [B4 B5]]]].
  repeat split; congruence.
Qed.

Lemma outageBlock_run (env : Env) (o : OutageEvent.t) (w : World) :
  outageBlock env o w
  = (Returned (BlockOutage (getRunnerStatusText (OutageEvent.status o))
                 (OutageEvent.startedAt o)
                 (if isOpen o then clock env (ticks w) else OutageEvent.resolvedAt o)
                 (negb (isOpen o))),
     if isOpen o
     then mkWorld (repositories w) (runners w) (outages w) (S (ticks w))
                  (posts w) (fetches w) (trace w)
     else w).
Proof.
  unfold outageBlock, isOpen, bind, ret, dateNow.
  now destruct (OutageEvent.resolvedAt o =? 0).
Qed.

Lemma mapM_outageBlock (env : Env) (os : list OutageEvent.t) (w : World) :
  exists blocks w',
    mapM (outageBlock env) os w = (Returned blocks, w')
    /\ Forall2 renders os blocks /\ readOnly w w'.
Proof.
  revert w. induction os as [|o os IH]; intros w.
  - exists [], w. split; [reflexivity|]. split; [constructor | apply readOnly_refl].
  - cbn [mapM]. unfold bind at 1. rewrite outageBlock_run.
    set (w1 := if isOpen o then _ else w).
    assert (R1 : readOnly w w1) by (subst w1; destruct (isOpen o); repeat split).
    destruct (IH w1) as [blocks [w' [Hrun [Hren Hro]]]].
    eexists. exists w'. unfold bind. rewrite Hrun. split; [reflexivity|].
    split; [|exact (readOnly_trans _ _ _ R1 Hro)].
    constructor; [|exact Hren].
    eexists. split; [reflexivity|]. intros Hc. now rewrite Hc.
Qed.

(** X12. The reply to "/runner-history". For a name without a runner
    record it is the single not-found block. Otherwise it is a header with
    the stored name followed by one block per outage shown; the outages
    shown belong to the history of the stored runner's id, are at most
    five and all of them when there are fewer, come newest first, are at
    least as new as every outage left out, and start with the event that
    [resolveOutage] would inspect. The query writes nothing. *)
Theorem runner_history_reply
    (env : Env) (repoId runnerName : string) (w : World) :
  let reply := getRecentOutagesForRunner env repoId runnerName w in
  readOnly w (snd reply)
  /\ match tableGet runnerKey cmpRunnerKey (repoId, runnerName) (runners w) with
     | None => fst reply = Returned [BlockNotFound runnerName]
     | Some runner =>
         let history := historyOf repoId (Runner.runnerId runner) (outages w) in
         let shown := recentOutages 5 repoId (Runner.runnerId runner) (outages w) in
         (exists blocks,
             fst reply = Returned (BlockHistoryHeader (Runner.name runner) :: blocks)
             /\ Forall2 renders shown blocks)
         /\ List.length shown = Nat.min 5 (List.length history)
         /\ (forall o, In o shown -> In o history)
         /\ decreasing shown
         /\ (forall o x, In o shown -> In x history -> ~ In x shown ->
                         OutageEvent.outageId x <= OutageEvent.outageId o)
         /\ hd_error shown = latest history
     end.
Proof.
  cbv zeta. unfold getRecentOutagesForRunner.
  destruct (tableGet runnerKey cmpRunnerKey (repoId, runnerName) (runners w))
    as [runner|].
  - set (history := historyOf repoId (Runner.runnerId runner) (outages w)).
    set (shown := recentOutages 5 repoId (Runner.runnerId runner) (outages w)).
    destruct (mapM_outageBlock env shown w) as [blocks [w' [Hrun [Hren Hro]]]].
    unfold bind. rewrite Hrun. cbn [fst snd ret].
    split; [exact Hro|]. split; [exists blocks; now split|].
    assert (Hsplit : sortDesc history = shown ++ skipn 5 (sortDesc history))
      by (symmetry; apply firstn_skipn).
    split; [|split; [|split; [|split]]].
    + unfold shown, recentOutages. fold history.
      now rewrite length_firstn, length_sortDesc.
    + intros o Ho. apply In_sortDesc. exact (In_firstn 5 _ o Ho).
    + apply decreasing_firstn, decreasing_sortDesc.
    + intros o x Ho Hx Hn. apply In_sortDesc in Hx. rewrite Hsplit in Hx.
      apply in_app_or in Hx. destruct Hx as [Hx | Hx]; [contradiction|].
      apply (decreasing_split shown (skipn 5 (sortDesc history))); auto.
      rewrite <- Hsplit. apply decreasing_sortDesc.
    + rewrite <- hd_sortDesc. unfold shown, recentOutages. fold history.
      now destruct (sortDesc history).
  - split; [apply readOnly_refl | reflexivity].
Qed.

(** X13. The history of a runner shows an outage as soon as it is opened:
    when the runner handed to [handleUnhealthyRunner] is the record stored
    under its name, the reply to "/runner-history" for that name right
    after the opening starts, below the header, with the block of the new
    outage: the text of the unhealthy status, the start read at the
    opening, and not resolved. *)
Theorem opened_outage_heads_history
    (env : Env) (runner : Runner.t) (status : RunnerStatus)
    (slackWebhook : option string) (w : World) :
  tableGet runnerKey cmpRunnerKey (runnerKey runner) (runners w) = Some runner ->
  let w1 := snd (handleUnhealthyRunner env runner status slackWebhook w) in
  exists rest,
    fst (getRecentOutagesForRunner env (Runner.repoId runner) (Runner.name runner) w1)
    = Returned (BlockHistoryHeader (Runner.name runner)
                :: BlockOutage (getRunnerStatusText status) (clock env (ticks w))
                     (clock env (ticks w1)) false
                :: rest).
Proof.
  intros Hget w1.
  pose proof (latest_after_open env runner status slackWebhook w) as L.
  cbv zeta in L. fold w1 in L.
  set (o := OutageEvent.withNotificationSent (postOk env (posts w))
              (openedOutage runner status (clock env (ticks w)) (outages w))) in *.
  assert (Hrunners : runners w1 = runners w)
    by (subst w1; now rewrite handleUnhealthyRunner_run).
  unfold getRecentOutagesForRunner. rewrite Hrunners.
  change (Runner.repoId runner, Runner.name runner) with (runnerKey runner).
  rewrite Hget.
  rewrite <- hd_sortDesc in L. unfold recentOutages.
  destruct (sortDesc (historyOf (Runner.repoId runner) (Runner.runnerId runner)
                        (outages w1))) as [|o' s]; [discriminate L|].
  cbn in L. injection L as ->.
  change (firstn 5 (o :: s)) with (o :: firstn 4 s). cbn [mapM].
  unfold bind. rewrite outageBlock_run.
  change (isOpen o) with true. cbv iota.
  match goal with
  | |- context [mapM (outageBlock env) ?l ?w0] =>
      destruct (mapM_outageBlock env l w0) as [blocks [w' [Hrun _]]]
  end.
  rewrite Hrun. cbn. exists blocks. reflexivity.
Qed.

Lemma opened_outage_heads_history_witness :
  exists rest,
    fst (getRecentOutagesForRunner env0 "ci" "A"
           (snd (handleUnhealthyRunner env0 (storedA RunnerStatus_IDLE)
                   RunnerStatus_OFFLINE hook (worldOf [storedA RunnerStatus_IDLE] []))))
    = Returned (BlockHistoryHeader "A" :: BlockOutage "Offline" 1000 1001 false :: rest).
Proof.
  exact (opened_outage_heads_history env0 (storedA RunnerStatus_IDLE)
           RunnerStatus_OFFLINE hook (worldOf [storedA RunnerStatus_IDLE] []) eq_refl).
Defined.


(** The names of the stored runners too reflect the fetched set. *)
Lemma reconcile_settles_names (env : Env) (repoId : string) (hook : option string)
    (rs : list GitHubRunner.t) (w : World) :
  wellPaired rs (runnersOf repoId (runners w)) = true ->
  returned (fst (reconcile env repoId hook rs w)) = true ->
  forall g, In g rs ->
    exists x, In x (runnersOf repoId (runners (snd (reconcile env repoId hook rs w))))
              /\ Runner.name x = GitHubRunner.name g
              /\ Runner.status x = mapGitHubStatus g.
Proof.
  intros Hwp Hret. unfold wellPaired in Hwp.
  apply andb_true_iff in Hwp. destruct Hwp as [Hwp Hagr].
  apply andb_true_iff in Hwp. destruct Hwp as [Hid Hname].
  apply (distinct_NoDup Z.eqb _ Z.eqb_eq) in Hid.
  apply (distinct_NoDup String.eqb _ String.eqb_eq) in Hname.
  rewrite forallb_forall in Hagr.
  assert (Hinit : diffInv repoId rs [] (runnersOf repoId (runners w))
                    (runnersOf repoId (runners w))).
  { split; [intros x g _ []|]. split; [intros g []|]. split; [auto|].
    split; [intros x Hx; now apply In_runnersOf in Hx|].
    intros e He. split; [now apply In_runnersOf in He|].
    intros g Hg. specialize (Hagr e He). rewrite forallb_forall in Hagr. auto. }
  unfold reconcile in *. unfold bind at 1 in Hret. unfold bind at 1.
  unfold fetchExistingRunners in *. unfold bind in *.
  destruct (forEach (reconcileRunner env repoId hook) rs
              (runnersOf repoId (runners w), []) w) as [[st|err] w1] eqn:Hdiff;
    [|discriminate Hret].
  destruct (diff_establishes env repoId hook rs Hid Hname rs [] _ _ _ _ _
              eq_refl Hinit Hdiff) as [[I1 [I2 [I3 [I4 I5]]]] Hids].
  assert (Hids' : forall z, In z (snd st) <-> In z (map GitHubRunner.id rs)).
  { intros z. rewrite Hids, app_nil_r, <- in_rev. reflexivity. }
  assert (Hs : sweepInv repoId rs (fst st) (runnersOf repoId (runners w1))).
  { split; [exact I1|]. split; [exact I2|]. split; [|split; [exact I4 | exact I5]].
    intros x Hx Hn. right. now apply I3. }
  pose proof (sweep_establishes env repoId hook rs (snd st) Hids' (fst st) w1 Hs)
    as [S1 [S2 _]].
  intros g Hg. destruct (S2 g Hg) as [x [Hx Ex]].
  destruct (S1 x g Hx Hg Ex) as [Es En]. exists x. auto.
Qed.

(** X14. The reply to "/runner-status-all" after a pass. It is a header
    followed by one block per stored runner of the repository, and the
    query changes nothing. When the reconciliation of a well-formed
    fetched set returned, every reported runner has a block with its
    reported name and the text of its classified status, and every stored
    runner that was not reported is shown as "Unknown". *)
Theorem status_reply_after_reconcile
    (env : Env) (repoId : string) (slackWebhook : option string)
    (rs : list GitHubRunner.t) (w : World) :
  wellPaired rs (runnersOf repoId (runners w)) = true ->
  returned (fst (reconcile env repoId slackWebhook rs w)) = true ->
  let w1 := snd (reconcile env repoId slackWebhook rs w) in
  let reply := getStatusForRunners repoId w1 in
  snd reply = w1
  /\ exists blocks,
       fst reply = Returned (BlockStatusHeader repoId :: blocks)
       /\ List.length blocks = List.length (runnersOf repoId (runners w1))
       /\ (forall g, In g rs ->
             exists lastSeenAt firstSeenAt,
               In (BlockRunner (GitHubRunner.name g)
                     (getRunnerStatusText (mapGitHubStatus g)) lastSeenAt firstSeenAt)
                  blocks)
       /\ (forall x, In x (runnersOf repoId (runners w1)) ->
             ~ In (Runner.runnerId x) (map GitHubRunner.id rs) ->
             In (BlockRunner (Runner.name x) "Unknown"
                   (Runner.lastSeenAt x) (Runner.firstSeenAt x)) blocks).
Proof.
  intros Hwp Hret w1 reply. subst reply.
  unfold getStatusForRunners, bind, fetchExistingRunners, ret. cbn [fst snd].
  split; [reflexivity|]. eexists. split; [reflexivity|].
  split; [apply length_map|]. split.
  - intros g Hg.
    destruct (reconcile_settles_names env repoId slackWebhook rs w Hwp Hret g Hg)
      as [x [Hx [En Es]]].
    exists (Runner.lastSeenAt x), (Runner.firstSeenAt x).
    apply in_map_iff. exists x. split; [|exact Hx]. now rewrite En, Es.
  - intros x Hx Hn.
    destruct (reconcile_settles env repoId slackWebhook rs w Hwp Hret) as [_ [_ S3]].
    apply in_map_iff. exists x. split; [|exact Hx].
    fold w1 in S3. now rewrite (S3 x Hx Hn).
Qed.

Lemma status_reply_after_reconcile_witness :
  exists blocks,
    fst (getStatusForRunners "ci" steady1)
    = Returned (BlockStatusHeader "ci" :: blocks)
    /\ List.length blocks = 2%nat
    /\ forall g, In g fetchedSteady ->
         exists lastSeenAt firstSeenAt,
           In (BlockRunner (GitHubRunner.name g)
                 (getRunnerStatusText (mapGitHubStatus g)) lastSeenAt firstSeenAt)
              blocks.
Proof.
  destruct (status_reply_after_reconcile env0 "ci" hook fetchedSteady steady
              eq_refl eq_refl) as [_ [blocks [E [L [B _]]]]].
  exists blocks. split; [exact E|]. split; [exact L | exact B].
Defined.


(** ** Further properties: records are never removed *)

Lemma recordsKept_refl (w : World) : recordsKept w w.
Proof. split; intros x Hx; exists x; auto. Qed.

Lemma recordsKept_trans (a b c : World) :
  recordsKept a b -> recordsKept b c -> recordsKept a c.
Proof.
  intros [A1 A2] [B1 B2]. split; intros x Hx.
  - destruct (A1 x Hx) as [y [Hy Ey]]. destruct (B1 y Hy) as [z [Hz Ez]].
    exists z. split; [exact Hz | congruence].
  - destruct (A2 x Hx) as [y [Hy Ey]]. destruct (B2 y Hy) as [z [Hz Ez]].
    exists z. split; [exact Hz | congruence].
Qed.

Lemma recordsKept_same (w w' : World) :
  repositories w' = repositories w -> runners w' = runners w -> recordsKept w w'.
Proof. intros E1 E2. unfold recordsKept. rewrite E1, E2. apply recordsKept_refl. Qed.

Lemma handleUnhealthyRunner_recordsKept (env : Env) (r : Runner.t)
    (s : RunnerStatus) (hook : option string) :
  maintains recordsKept (handleUnhealthyRunner env r s hook).
Proof.
  intros w. rewrite handleUnhealthyRunner_run.
  destruct (postOk env (posts w)); now apply recordsKept_same.
Qed.

Lemma resolveOutage_recordsKept (env : Env) (repoId : string) (runnerId : Z) :
  maintains recordsKept (resolveOutage env repoId runnerId).
Proof.
  intros w. unfold resolveOutage.
  destruct (latest (historyOf repoId runnerId (outages w))) as [item|];
    [|apply recordsKept_refl].
  destruct (negb (negb (OutageEvent.resolvedAt item =? 0)));
    [|apply recordsKept_refl].
  now apply recordsKept_same.
Qed.

Lemma handler_recordsKept (env : Env) (p : option Params) :
  maintains recordsKept (handler env p).
Proof.
  apply (handler_maintains env recordsKept recordsKept_refl recordsKept_trans).
  - intros w. now apply recordsKept_same.
  - intros r w. split; intros x Hx.
    + exists x. split; [exact Hx | reflexivity].
    + exact (tablePut_keeps_keys runnerKey cmpRunnerKey cmpRunnerKey_eq r x _ Hx).
  - apply handleUnhealthyRunner_recordsKept.
  - apply resolveOutage_recordsKept.
  - intros hook r s oid w. now apply recordsKept_same.
  - intros r w. split; intros x Hx.
    + exact (tablePut_keeps_keys repositoryKey String.compare string_compare_eq
               r x _ Hx).
    + exists x. split; [exact Hx | reflexivity].
  - intros repo w. unfold fetchGitHubRunners.
    destruct (github env (fetches w) repo); now apply recordsKept_same.
  - intros e w. now apply recordsKept_same.
Qed.

(** X15. A pass never removes a record: whatever the parameters and the
    answers of GitHub and of the sink, every repository key and every
    runner key stored before the handler runs is stored after it, so a
    runner that is no longer reported stays listed. *)
Theorem records_never_removed (env : Env) (params : option Params) (w : World) :
  let w' := snd (handler env params w) in
  (forall r, In r (repositories w) ->
     exists r', In r' (repositories w')
                /\ Repository.repoId r' = Repository.repoId r)
  /\ (forall x, In x (runners w) ->
        exists x', In x' (runners w')
                   /\ Runner.repoId x' = Runner.repoId x
                   /\ Runner.name x' = Runner.name x
                   /\ In x' (runnersOf (Runner.repoId x) (runners w'))).
Proof.
  cbv zeta. destruct (handler_recordsKept env params w) as [K1 K2]. split.
  - exact K1.
  - intros x Hx. destruct (K2 x Hx) as [x' [Hx' E]].
    unfold runnerKey in E. injection E as E1 E2.
    exists x'. repeat split; auto.
    apply In_runnersOf. split; [exact Hx' | exact E1].
Qed.

(** What the first loop leaves in the store of a record whose name is not
    reported, whether the loop returns or throws. *)
Lemma diff_keeps_record (env : Env) (repoId : string) (hook : option string)
    (x : Runner.t) (rest : list GitHubRunner.t) :
  (forall g, In g rest -> GitHubRunner.name g <> Runner.name x) ->
  forall (st : list Runner.t * list Z) (w : World),
    In x (runners w) ->
    In x (runners (snd (forEach (reconcileRunner env repoId hook) rest st w))).
Proof.
  induction rest as [|g rest IH]; intros Hn st w Hx; [exact Hx|].
  cbn [forEach]. unfold bind. destruct st as [mem ids].
  pose proof (reconcileRunner_runners env repoId hook g mem ids w) as [Hw1 _].
  destruct (reconcileRunner env repoId hook g (mem, ids) w) as [[st1|err] w1];
    cbn [snd] in *.
  - apply IH; [intros g' Hg'; apply Hn; now right|].
    rewrite Hw1. apply In_putRunnerItem. right. split; [exact Hx|].
    intros E. apply (Hn g (or_introl eq_refl)).
    destruct (findRunner (GitHubRunner.id g) mem);
      unfold runnerKey in E; cbn in E; congruence.
  - rewrite Hw1. apply In_putRunnerItem. right. split; [exact Hx|].
    intros E. apply (Hn g (or_introl eq_refl)).
    destruct (findRunner (GitHubRunner.id g) mem);
      unfold runnerKey in E; cbn in E; congruence.
Qed.

(** The array and the processed ids the first loop hands to the sweep. *)
Lemma diff_array (env : Env) (repoId : string) (hook : option string)
    (rest : list GitHubRunner.t) :
  forall (mem : list Runner.t) (ids : list Z) (w w' : World)
         (st : list Runner.t * list Z),
    forEach (reconcileRunner env repoId hook) rest (mem, ids) w = (Returned st, w') ->
    snd st = rev (map GitHubRunner.id rest) ++ ids
    /\ forall e, In e (fst st) ->
         In e mem \/ exists g, In g rest /\ Runner.name e = GitHubRunner.name g.
Proof.
  induction rest as [|g rest IH]; intros mem ids w w' st Hrun.
  - cbn in Hrun. unfold ret in Hrun. injection Hrun as <- <-. split; auto.
  - cbn [forEach] in Hrun. apply bind_Returned in Hrun.
    destruct Hrun as [st1 [w1 [Hstep Hrest]]].
    pose proof (reconcileRunner_result _ _ _ _ _ _ _ _ _ Hstep) as Hst1.
    subst st1. destruct (IH _ _ _ _ _ Hrest) as [Hids Hmem]. split.
    + rewrite Hids. cbn [map rev]. now rewrite <- app_assoc.
    + intros e He. destruct (Hmem e He) as [Hm | [g' [Hg' En]]].
      * destruct (findRunner (GitHubRunner.id g) mem) as [f|]; [|now left].
        apply In_assignFound in Hm. destruct Hm as [-> | Hm]; [|now left].
        right. exists g. split; [now left | reflexivity].
      * right. exists g'. split; [now right | exact En].
Qed.

Lemma sweep_keeps_record (env : Env) (hook : option string) (ids : list Z)
    (x : Runner.t) (todo : list Runner.t) :
  (forall e, In e todo -> runnerKey e = runnerKey x ->
             has ids (Runner.runnerId e) = true) ->
  forall w, In x (runners w) -> In x (runners (snd (sweep env hook ids todo w))).
Proof.
  induction todo as [|e todo IH]; intros Hk w Hx; [exact Hx|].
  rewrite sweep_cons_snd. apply IH; [intros e' He'; apply Hk; now right|].
  pose proof (sweepRunner_effect env hook ids e w) as Heff. cbv zeta in Heff.
  destruct (swept ids e) eqn:S; [|now rewrite Heff].
  destruct Heff as [Hr _]. rewrite Hr. apply In_putRunnerItem. right.
  split; [exact Hx|]. intros E.
  unfold swept in S. apply andb_true_iff in S. destruct S as [S _].
  rewrite (Hk e (or_introl eq_refl)) in S; [discriminate|].
  unfold runnerKey in *. cbn in E. congruence.
Qed.

(** X16. Records are stored under the runner's name and matched by its id.
    A stored record whose id is still reported, but under other names
    only, is left exactly as it was by the reconciliation, with its old
    status and [lastSeenAt], whether the reconciliation returns or
    throws, and the status reply keeps showing it. *)
Theorem renamed_runner_leaves_stale_record
    (env : Env) (repoId : string) (slackWebhook : option string)
    (rs : list GitHubRunner.t) (x : Runner.t) (w : World) :
  In x (runnersOf repoId (runners w)) ->
  (forall e, In e (runnersOf repoId (runners w)) ->
             Runner.name e = Runner.name x -> Runner.runnerId e = Runner.runnerId x) ->
  In (Runner.runnerId x) (map GitHubRunner.id rs) ->
  (forall g, In g rs -> GitHubRunner.name g <> Runner.name x) ->
  let w' := snd (reconcile env repoId slackWebhook rs w) in
  In x (runnersOf repoId (runners w'))
  /\ exists blocks,
       fst (getStatusForRunners repoId w') = Returned (BlockStatusHeader repoId :: blocks)
       /\ In (BlockRunner (Runner.name x) (getRunnerStatusText (Runner.status x))
                (Runner.lastSeenAt x) (Runner.firstSeenAt x)) blocks.
Proof.
  intros Hx Hone Hid Hname w'.
  assert (Hin : In x (runnersOf repoId (runners w'))).
  { apply In_runnersOf in Hx. destruct Hx as [Hx Hrepo].
    apply In_runnersOf. split; [|exact Hrepo].
    subst w'. unfold reconcile. unfold bind at 1. unfold fetchExistingRunners.
    unfold bind.
    pose proof (diff_keeps_record env repoId slackWebhook x rs Hname
                  (runnersOf repoId (runners w), []) w Hx) as Hdiff.
    destruct (forEach (reconcileRunner env repoId slackWebhook) rs
                (runnersOf repoId (runners w), []) w) as [[st|err] w1] eqn:Hrun;
      cbn [snd] in *; [|exact Hdiff].
    destruct (diff_array env repoId slackWebhook rs _ _ _ _ _ Hrun) as [Hids Hmem].
    apply sweep_keeps_record; [|exact Hdiff].
    intros e He Ek. apply has_In. rewrite Hids, app_nil_r, <- in_rev.
    unfold runnerKey in Ek. injection Ek as Er En.
    destruct (Hmem e He) as [Hm | [g [Hg Eg]]].
    - cbn [fst] in Hm. now rewrite (Hone e Hm En).
    - exfalso. apply (Hname g Hg). congruence. }
  split; [exact Hin|].
  unfold getStatusForRunners, bind, fetchExistingRunners, ret. cbn [fst snd].
  eexists. split; [reflexivity|].
  apply in_map_iff. exists x. split; [reflexivity | exact Hin].
Qed.

Lemma renamed_runner_leaves_stale_record_witness :
  In (storedA RunnerStatus_IDLE)
     (runnersOf "ci" (runners (snd (reconcile env0 "ci" hook [ghRenamed] steady)))).
Proof.
  assert (H1 : forall e, In e (runnersOf "ci" (runners steady)) ->
                 Runner.name e = Runner.name (storedA RunnerStatus_IDLE) ->
                 Runner.runnerId e = Runner.runnerId (storedA RunnerStatus_IDLE))
    by (intros e [<- | []] _; reflexivity).
  assert (H2 : forall g, In g [ghRenamed] ->
                 GitHubRunner.name g <> Runner.name (storedA RunnerStatus_IDLE))
    by (intros g [<- | []]; discriminate).
  exact (proj1 (renamed_runner_leaves_stale_record env0 "ci" hook [ghRenamed]
                  (storedA RunnerStatus_IDLE) steady
                  (or_introl eq_refl) H1 (or_introl eq_refl) H2)).
Defined.

(** ** Further properties: [lastSeenAt] and entries without a separator *)

Lemma runnerKey_dec (p q : string * string) : p = q \/ p <> q.
Proof.
  destruct (cmpRunnerKey p q) eqn:C.
  - left. now apply cmpRunnerKey_eq.
  - right. intros E. apply cmpRunnerKey_eq in E. congruence.
  - right. intros E. apply cmpRunnerKey_eq in E. congruence.
Qed.

(** X19. When the object the sweep holds is the record stored under its
    key, the sweep step changes no stored [lastSeenAt]: under every key
    the [lastSeenAt] read from the store is the same before and after,
    and so is the one of the object. A reported runner is stored under
    its reported name with [lastSeenAt] equal to the clock reading, and
    the step changes the record of no other key. *)
Theorem lastSeenAt_changes_only_on_observation
    (env : Env) (repoId : string) (slackWebhook : option string)
    (g : GitHubRunner.t) (existingRunners : list Runner.t) (processed : list Z)
    (e : Runner.t) (w : World) :
  tableGet runnerKey cmpRunnerKey (runnerKey e) (runners w) = Some e ->
  let s := sweepRunner env slackWebhook processed e w in
  let run := reconcileRunner env repoId slackWebhook g (existingRunners, processed) w in
  let now := clock env (ticks w) in
  let r := match findRunner (GitHubRunner.id g) existingRunners with
           | Some x => updatedRunner x g now
           | None => createdRunner repoId g now
           end in
  (forall repo name, storedLastSeenAt repo name (snd s) = storedLastSeenAt repo name w)
  /\ (exists e', fst s = Returned e' /\ Runner.lastSeenAt e' = Runner.lastSeenAt e)
  /\ tableGet runnerKey cmpRunnerKey (runnerKey r) (runners (snd run)) = Some r
  /\ Runner.lastSeenAt r = now
  /\ Runner.name r = GitHubRunner.name g
  /\ (forall repo name, (repo, name) <> runnerKey r ->
        tableGet runnerKey cmpRunnerKey (repo, name) (runners (snd run))
        = tableGet runnerKey cmpRunnerKey (repo, name) (runners w)).
Proof.
  intros Hstored s run now r. subst s run.
  pose proof (sweepRunner_returns env slackWebhook processed e w) as Hret.
  pose proof (sweepRunner_effect env slackWebhook processed e w) as Heff.
  cbv zeta in Heff.
  pose proof (reconcileRunner_runners env repoId slackWebhook g existingRunners
                processed w) as [Hrun _].
  fold now in Hrun. fold r in Hrun.
  split; [|split; [|split; [|split; [|split]]]].
  - intros repo name. unfold storedLastSeenAt.
    destruct (swept processed e); [|now rewrite Heff].
    destruct Heff as [Hr _]. rewrite Hr. unfold putRunnerItem.
    destruct (runnerKey_dec (runnerKey e) (repo, name)) as [E | Hne].
    + rewrite <- E.
      change (runnerKey e) with (runnerKey (Runner.withStatus RunnerStatus_UNKNOWN e)) at 1.
      rewrite (tableGet_tablePut runnerKey cmpRunnerKey _ _ cmpRunnerKey_eq).
      rewrite Hstored. reflexivity.
    + now rewrite (tableGet_tablePut_other runnerKey cmpRunnerKey _ _ _ cmpRunnerKey_eq).
  - eexists. split; [exact Hret|]. now destruct (swept processed e).
  - rewrite Hrun.
    exact (tableGet_tablePut runnerKey cmpRunnerKey r (runners w) cmpRunnerKey_eq).
  - subst r. now destruct (findRunner _ _).
  - subst r. now destruct (findRunner _ _).
  - intros repo name Hne. rewrite Hrun.
    apply (tableGet_tablePut_other runnerKey cmpRunnerKey _ _ _ cmpRunnerKey_eq).
    congruence.
Qed.

Lemma lastSeenAt_changes_only_on_observation_witness :
  storedLastSeenAt "ci" "A"
    (snd (sweepRunner env0 hook [] (storedA RunnerStatus_IDLE) steady)) = Some 900
  /\ tableGet runnerKey cmpRunnerKey ("ci", "A")
       (runners (snd (reconcileRunner env0 "ci" hook (ghA "offline" false)
                        ([storedA RunnerStatus_IDLE], []) steady)))
     = Some (Runner.mk 1 "ci" "A" RunnerStatus_OFFLINE true "linux"
               [mkLabel "self-hosted"] 1000 900).
Proof.
  pose proof (lastSeenAt_changes_only_on_observation env0 "ci" hook
                (ghA "offline" false) [storedA RunnerStatus_IDLE] []
                (storedA RunnerStatus_IDLE) steady eq_refl) as T.
  split; [exact (proj1 T "ci" "A") | exact (proj1 (proj2 (proj2 T)))].
Defined.


